(** * Bellevue traffic simulation: a shallow embedding of the simulation core

    The development follows the Python sources

    - [bellevue_traffic/traffic_signals.py] (signal phases and state machine),
    - [bellevue_traffic/vehicles.py] (vehicle records, car-following law),
    - [bellevue_traffic/road_network.py] (edge attributes, node positions),
    - [bellevue_traffic/simulation.py] (spawning, per-tick vehicle update,
      edge occupancy, congestion level).

    Numbers.  Python [float]s are modelled by exact rationals ([Q]): the
    properties stated here are about guards, clamps and the order of the
    updates, not about rounding.  The car-following law can divide by zero;
    there the model follows the code: Python raises [ZeroDivisionError] when
    both operands are Python floats, NumPy returns an infinity or a NaN when
    one is a NumPy scalar.  A vehicle therefore records whether its speed is
    a NumPy scalar, and the values of that computation range over [xfloat],
    the rationals extended with the IEEE special values (zero is unsigned).
    [np.sqrt] is a parameter of the development.  The signal-timing
    utilities and the demand patterns compare computed values with zero and
    with fixed bounds; there every floating-point operation goes through a
    rounding function [fl], a second parameter.

    Objects.  Vehicles are mutable objects shared between the dictionary of
    active vehicles and the per-edge occupancy lists.  The model keeps them in
    an object store indexed by the vehicle id (ids are never reused, and
    [Vehicle] defines no [__eq__], so identity and id coincide); the
    collections hold ids. *)

From Stdlib Require Import QArith Qabs Lqa ZArith List String Bool Lia Sorted.
From stdpp Require Import base option list gmap strings.

Local Open Scope Q_scope.

(** ** Exceptions and the error monad *)

Inductive exn : Type :=
| ZeroDivisionError   (* float division by zero *)
| IndexError          (* list index out of range *)
| KeyError            (* missing dictionary key *)
| NoObject.           (* a reference to an object that was never created *)

Inductive result (A : Type) : Type :=
| Ok (a : A)
| Raise (e : exn).
Arguments Ok {A} a.
Arguments Raise {A} e.

#[global] Instance result_ret : MRet result := fun A a => Ok a.

#[global] Instance result_bind : MBind result := fun A B k r =>
  match r with
  | Ok a => k a
  | Raise e => Raise e
  end.

#[global] Instance result_fmap : FMap result := fun A B f r =>
  match r with
  | Ok a => Ok (f a)
  | Raise e => Raise e
  end.

Definition is_ok {A : Type} (r : result A) : bool :=
  match r with Ok _ => true | Raise _ => false end.

(** ** Float comparisons and helpers over [Q] *)

Definition Qltb (a b : Q) : bool := negb (Qle_bool b a).
Definition Qgeb (a b : Q) : bool := Qle_bool b a.
Definition Qgtb (a b : Q) : bool := negb (Qle_bool a b).

(** Python's [max(a, b)]: the first argument unless the second is greater. *)
Definition py_max (a b : Q) : Q := if Qgtb b a then b else a.

(** Python's [min(a, b)]: the first argument unless the second is smaller. *)
Definition py_min (a b : Q) : Q := if Qltb b a then b else a.

(** *** Extended values: rationals with infinities and NaN *)

Inductive xfloat : Type :=
| Fin (q : Q)
| PInf
| NInf
| NaN.

(** Sign of an extended value ([Eq] for zero). *)
Definition xsgn (x : xfloat) : comparison :=
  match x with
  | Fin q => q ?= 0
  | PInf => Gt
  | NInf => Lt
  | NaN => Eq
  end.

Definition sgn_mul (a b : comparison) : comparison :=
  match a, b with
  | Eq, _ | _, Eq => Eq
  | Gt, Gt | Lt, Lt => Gt
  | _, _ => Lt
  end.

(** The infinity of a given sign; an undetermined sign gives NaN. *)
Definition xinf (c : comparison) : xfloat :=
  match c with
  | Gt => PInf
  | Lt => NInf
  | Eq => NaN
  end.

Definition xneg (x : xfloat) : xfloat :=
  match x with
  | Fin q => Fin (- q)
  | PInf => NInf
  | NInf => PInf
  | NaN => NaN
  end.

Definition xadd (x y : xfloat) : xfloat :=
  match x, y with
  | NaN, _ | _, NaN => NaN
  | Fin a, Fin b => Fin (a + b)
  | PInf, NInf | NInf, PInf => NaN
  | PInf, _ | _, PInf => PInf
  | NInf, _ | _, NInf => NInf
  end.

Definition xsub (x y : xfloat) : xfloat := xadd x (xneg y).

Definition xmul (x y : xfloat) : xfloat :=
  match x, y with
  | NaN, _ | _, NaN => NaN
  | Fin a, Fin b => Fin (a * b)
  | _, _ => xinf (sgn_mul (xsgn x) (xsgn y))
  end.

(** NumPy division: [x / 0] is an infinity of the sign of [x], [0 / 0] and
    [inf / inf] are NaN. *)
Definition xdiv (x y : xfloat) : xfloat :=
  match x, y with
  | NaN, _ | _, NaN => NaN
  | Fin a, Fin b => if Qeq_bool b 0 then xinf (a ?= 0) else Fin (a / b)
  | Fin _, _ => Fin 0
  | _, Fin b => if Qeq_bool b 0 then x else xinf (sgn_mul (xsgn x) (b ?= 0))
  | _, _ => NaN
  end.

(** [x ** n] for an even exponent [n]. *)
Definition xpow_even (x : xfloat) (n : positive) : xfloat :=
  match x with
  | Fin q => Fin (q ^ Zpos n)
  | PInf | NInf => PInf
  | NaN => NaN
  end.

(** [x < y]; false as soon as a NaN is compared. *)
Definition xltb (x y : xfloat) : bool :=
  match x, y with
  | NaN, _ | _, NaN => false
  | Fin a, Fin b => Qltb a b
  | NInf, NInf | PInf, _ | _, NInf => false
  | _, _ => true
  end.

(** Python's [max(a, b)] on extended values. *)
Definition xpy_max (a b : xfloat) : xfloat := if xltb a b then b else a.

(** [np.clip] on a finite value. *)
Definition clipQ (x lo hi : Q) : Q :=
  let y := if Qltb x lo then lo else x in
  if Qltb hi y then hi else y.

(** [np.clip(x, lo, hi)] is [minimum(maximum(x, lo), hi)] and both propagate
    NaN: with finite bounds the result is finite or NaN; [None] stands for
    NaN. *)
Definition np_clip (x : xfloat) (lo hi : Q) : option Q :=
  match x with
  | Fin q => Some (clipQ q lo hi)
  | PInf => Some hi
  | NInf => Some (if Qltb hi lo then hi else lo)
  | NaN => None
  end.

(** [np.mean] of a non-empty list. *)
Definition sum_Q (l : list Q) : Q := fold_right Qplus 0 l.

Definition np_mean (l : list Q) : Q := sum_Q l / inject_Z (Z.of_nat (length l)).

(** ** Traffic signals ([traffic_signals.py]) *)

Inductive SignalState : Type := RED | YELLOW | GREEN.

Record SignalPhase : Type := mkPhase {
  name : string;
  duration : Q;
  green_approaches : list string;
  yellow_duration : Q
}.

Record TrafficSignal : Type := mkSignal {
  sig_id : Z;
  node_id : Z;
  sig_position : Q * Q;
  phases : list SignalPhase;
  coordinated : bool;
  offset : Q;
  current_phase_index : nat;
  current_state : SignalState;
  time_in_phase : Q;
  cycle_length : Q;
  vehicles_served : Z;
  total_delay : Q
}.

(** [TrafficSignal.__init__]: no validation of [phases] takes place. *)
Definition TrafficSignal_init (signal_id node : Z) (position : Q * Q)
    (phs : list SignalPhase) (coord : bool) (off : Q) : result TrafficSignal :=
  Ok {| sig_id := signal_id;
        node_id := node;
        sig_position := position;
        phases := phs;
        coordinated := coord;
        offset := off;
        current_phase_index := 0;
        current_state := RED;
        time_in_phase := 0;
        cycle_length :=
          sum_Q (List.map (fun p => duration p + yellow_duration p) phs);
        vehicles_served := 0;
        total_delay := 0 |}.

(** [self.phases[self.current_phase_index]] *)
Definition get_current_phase (s : TrafficSignal) : result SignalPhase :=
  match phases s !! current_phase_index s with
  | Some p => Ok p
  | None => Raise IndexError
  end.

Definition set_timer (s : TrafficSignal) (t : Q) : TrafficSignal :=
  {| sig_id := sig_id s; node_id := node_id s; sig_position := sig_position s;
     phases := phases s; coordinated := coordinated s; offset := offset s;
     current_phase_index := current_phase_index s;
     current_state := current_state s;
     time_in_phase := t;
     cycle_length := cycle_length s;
     vehicles_served := vehicles_served s; total_delay := total_delay s |}.

Definition switch_to (s : TrafficSignal) (st : SignalState) (idx : nat)
    : TrafficSignal :=
  {| sig_id := sig_id s; node_id := node_id s; sig_position := sig_position s;
     phases := phases s; coordinated := coordinated s; offset := offset s;
     current_phase_index := idx;
     current_state := st;
     time_in_phase := 0;
     cycle_length := cycle_length s;
     vehicles_served := vehicles_served s; total_delay := total_delay s |}.

(** [TrafficSignal.update] *)
Definition update (self : TrafficSignal) (time_step : Q) : result TrafficSignal :=
  let self := set_timer self (time_in_phase self + time_step) in
  current_phase ← get_current_phase self;
  match current_state self with
  | GREEN =>
      if Qgeb (time_in_phase self) (duration current_phase)
      then Ok (switch_to self YELLOW (current_phase_index self))
      else Ok self
  | YELLOW =>
      if Qgeb (time_in_phase self) (yellow_duration current_phase)
      then Ok (switch_to self RED
                 ((current_phase_index self + 1) mod length (phases self))%nat)
      else Ok self
  | RED =>
      if Qgeb (time_in_phase self) 1
      then Ok (switch_to self GREEN (current_phase_index self))
      else Ok self
  end.

Definition in_str (a : string) (l : list string) : bool :=
  existsb (String.eqb a) l.

(** [TrafficSignal.get_state_for_approach] *)
Definition get_state_for_approach (self : TrafficSignal) (approach : string)
    : result SignalState :=
  current_phase ← get_current_phase self;
  if in_str approach (green_approaches current_phase)
  then Ok (current_state self)
  else Ok RED.

(** [TrafficSignal.can_vehicle_proceed] *)
Definition can_vehicle_proceed (self : TrafficSignal) (approach : string)
    (distance_to_signal vehicle_speed : Q) : result bool :=
  state ← get_state_for_approach self approach;
  match state with
  | GREEN => Ok true
  | YELLOW =>
      let stopping_distance := vehicle_speed ^ 2 / (2 * (45 # 10)) in
      Ok (Qltb distance_to_signal stopping_distance)
  | RED => Ok false
  end.

(** The standard two-phase signal of [SignalController.create_standard_signal]. *)
Definition standard_phases (major_street_time minor_street_time : Q)
    : list SignalPhase :=
  [ mkPhase "NS_Green" major_street_time ["north"; "south"]%string 3;
    mkPhase "EW_Green" minor_street_time ["east"; "west"]%string 3 ].

(** ** Vehicles ([vehicles.py]) *)

Inductive VehicleType : Type := CAR | BUS | TRUCK | MOTORCYCLE.

(** An edge of the road multigraph: [(u, v, key)]. *)
Definition Edge : Type := (Z * Z * Z)%type.

Record VehicleStats : Type := mkVehicleStats {
  total_distance : Q;
  total_time : Q;
  stops : Z;
  lane_changes : Z;
  average_speed : Q;
  stats_max_speed : Q;
  time_in_congestion : Q
}.

(** The attributes of a [Vehicle] object that the simulation core reads or
    writes ([width], [current_lane] and the bus and truck extras are never
    used by it). *)
Record Vehicle : Type := mkVehicle {
  id : nat;
  vtype : VehicleType;
  spawn_time : Q;
  origin : Q * Q;
  destination : Q * Q;
  route : list Z;
  max_speed : Q;
  max_acceleration : Q;
  max_deceleration : Q;
  veh_length : Q;
  desired_time_headway : Q;
  min_spacing : Q;
  politeness : Q;
  aggressiveness : Q;
  (* mutable state *)
  position : Q * Q;
  current_edge : option Edge;
  speed : Q;
  speed_is_numpy : bool;     (* [speed] holds a NumPy scalar, not a [float] *)
  acceleration : option Q;   (* [None] is NaN *)
  stats : VehicleStats;
  completed : bool;
  waiting_at_signal : bool
}.

(** Functional update of the mutable attributes. *)
Definition with_state (v : Vehicle) (pos : Q * Q) (e : option Edge) (s : Q)
    (np : bool) (a : option Q) (st : VehicleStats) (c w : bool) : Vehicle :=
  {| id := id v; vtype := vtype v; spawn_time := spawn_time v;
     origin := origin v; destination := destination v; route := route v;
     max_speed := max_speed v; max_acceleration := max_acceleration v;
     max_deceleration := max_deceleration v; veh_length := veh_length v;
     desired_time_headway := desired_time_headway v;
     min_spacing := min_spacing v; politeness := politeness v;
     aggressiveness := aggressiveness v;
     position := pos; current_edge := e; speed := s; speed_is_numpy := np;
     acceleration := a;
     stats := st; completed := c; waiting_at_signal := w |}.

Definition set_completed (v : Vehicle) (c : bool) : Vehicle :=
  with_state v (position v) (current_edge v) (speed v) (speed_is_numpy v)
    (acceleration v)
    (stats v) c (waiting_at_signal v).

Definition set_waiting_at_signal (v : Vehicle) (w : bool) : Vehicle :=
  with_state v (position v) (current_edge v) (speed v) (speed_is_numpy v)
    (acceleration v)
    (stats v) (completed v) w.

(** An assignment to [speed] stores a number together with its runtime
    type. *)
Definition set_speed (v : Vehicle) (s : Q) (np : bool) : Vehicle :=
  with_state v (position v) (current_edge v) s np (acceleration v)
    (stats v) (completed v) (waiting_at_signal v).

Definition set_acceleration (v : Vehicle) (a : option Q) : Vehicle :=
  with_state v (position v) (current_edge v) (speed v) (speed_is_numpy v) a
    (stats v) (completed v) (waiting_at_signal v).

Definition set_current_edge (v : Vehicle) (e : option Edge) : Vehicle :=
  with_state v (position v) e (speed v) (speed_is_numpy v) (acceleration v)
    (stats v) (completed v) (waiting_at_signal v).

Definition set_position (v : Vehicle) (p : Q * Q) : Vehicle :=
  with_state v p (current_edge v) (speed v) (speed_is_numpy v) (acceleration v)
    (stats v) (completed v) (waiting_at_signal v).

Definition set_stats (v : Vehicle) (st : VehicleStats) : Vehicle :=
  with_state v (position v) (current_edge v) (speed v) (speed_is_numpy v)
    (acceleration v)
    st (completed v) (waiting_at_signal v).

(** [Vehicle.__init__] followed by the subclass constructor: the class
    constants and the two personality traits, each a normal sample clipped
    to the range of the class.  [draw_a] and [draw_p] are the raw samples of
    [np.random.normal]. *)
Definition Vehicle_init (vehicle_id : nat) (ty : VehicleType) (t : Q)
    (orig dest : Q * Q) (rt : list Z)
    (vmax amax dmax len aggr pol : Q) : Vehicle :=
  {| id := vehicle_id; vtype := ty; spawn_time := t;
     origin := orig; destination := dest; route := rt;
     max_speed := vmax; max_acceleration := amax; max_deceleration := dmax;
     veh_length := len;
     desired_time_headway := 15 # 10;
     min_spacing := 2;
     politeness := pol;
     aggressiveness := aggr;
     position := orig; current_edge := None;
     speed := 0; speed_is_numpy := false;
     acceleration := Some 0;
     stats := mkVehicleStats 0 0 0 0 0 0 0;
     completed := false; waiting_at_signal := false |}.

Definition Car (vehicle_id : nat) (t : Q) (orig dest : Q * Q) (rt : list Z)
    (draw_a draw_p : Q) : Vehicle :=
  Vehicle_init vehicle_id CAR t orig dest rt
    (120 / (36 # 10)) (25 # 10) (45 # 10) (45 # 10)
    (clipQ draw_a (2 # 10) (8 # 10)) (clipQ draw_p (2 # 10) (8 # 10)).

Definition Bus (vehicle_id : nat) (t : Q) (orig dest : Q * Q) (rt : list Z)
    (draw_a draw_p : Q) : Vehicle :=
  Vehicle_init vehicle_id BUS t orig dest rt
    (90 / (36 # 10)) (12 # 10) 3 12
    (clipQ draw_a (1 # 10) (5 # 10)) (clipQ draw_p (5 # 10) (9 # 10)).

Definition Truck (vehicle_id : nat) (t : Q) (orig dest : Q * Q) (rt : list Z)
    (draw_a draw_p : Q) : Vehicle :=
  Vehicle_init vehicle_id TRUCK t orig dest rt
    (100 / (36 # 10)) (8 # 10) (25 # 10) 15
    (clipQ draw_a (1 # 10) (4 # 10)) (clipQ draw_p (4 # 10) (8 # 10)).

Definition Motorcycle (vehicle_id : nat) (t : Q) (orig dest : Q * Q)
    (rt : list Z) (draw_a draw_p : Q) : Vehicle :=
  Vehicle_init vehicle_id MOTORCYCLE t orig dest rt
    (140 / (36 # 10)) (35 # 10) 5 2
    (clipQ draw_a (4 # 10) (95 # 100)) (clipQ draw_p (2 # 10) (7 # 10)).

(** [self.speed / desired_speed], the desired speed being a Python float.
    A division by [0.0] raises when the speed is a Python float too, and
    returns an infinity or a NaN when the speed is a NumPy scalar. *)
Definition speed_div (v : Q) (v_is_numpy : bool) (desired_speed : Q)
    : result xfloat :=
  if Qeq_bool desired_speed 0
  then if v_is_numpy then Ok (xdiv (Fin v) (Fin desired_speed))
       else Raise ZeroDivisionError
  else Ok (Fin (v / desired_speed)).

Section Simulation.

(** [np.sqrt] on the non-negative rationals. *)
Variable np_sqrt : Q -> Q.

(** [Vehicle.update_position] *)
Definition update_position (self : Vehicle) (new_position : Q * Q)
    (time_step : Q) : Vehicle :=
  let distance :=
    np_sqrt ((fst new_position - fst (position self)) ^ 2
             + (snd new_position - snd (position self)) ^ 2) in
  let self := set_position self new_position in
  let st := stats self in
  let td := total_distance st + distance in
  let tt := total_time st + time_step in
  let avg := if Qgtb tt 0 then td / tt else average_speed st in
  let mx := if Qgtb (speed self) (stats_max_speed st)
            then speed self else stats_max_speed st in
  set_stats self
    (mkVehicleStats td tt (stops st) (lane_changes st) avg mx
       (time_in_congestion st)).

(** The leader term of the car-following law: [desired_spacing]. *)
Definition desired_spacing (self : Vehicle) (leader_speed : Q) : xfloat :=
  xadd (Fin (min_spacing self))
    (xpy_max (Fin 0)
       (xadd (Fin (speed self * desired_time_headway self))
          (xdiv (Fin (speed self * (speed self - leader_speed)))
             (Fin (2 * np_sqrt
                         (Qabs (max_acceleration self
                                * max_deceleration self))))))).

(** [Vehicle.calculate_acceleration] *)
Definition calculate_acceleration (self : Vehicle)
    (leader_distance leader_speed : option Q) (desired_speed : Q)
    : result (option Q) :=
  ratio ← speed_div (speed self) (speed_is_numpy self) desired_speed;
  let accel :=
    xmul (Fin (max_acceleration self)) (xsub (Fin 1) (xpow_even ratio 4)) in
  let accel :=
    match leader_distance, leader_speed with
    | Some ld, Some ls =>
        let spacing := desired_spacing self ls in
        if Qgtb ld 0
        then xsub accel
               (xmul (Fin (max_acceleration self))
                  (xpow_even (xdiv spacing (Fin ld)) 2))
        else accel
    | _, _ => accel
    end in
  let accel :=
    xmul accel (Fin ((5 # 10) + (5 # 10) * aggressiveness self)) in
  Ok (np_clip accel (- max_deceleration self) (max_acceleration self)).

(** [Vehicle.should_change_lane] *)
Definition should_change_lane (self : Vehicle)
    (current_lane_speed target_lane_speed : Q) (target_lane_safe : bool)
    : bool :=
  if negb target_lane_safe then false
  else
    let threshold := (5 # 10) * (1 - politeness self) in
    let advantage := target_lane_speed - current_lane_speed in
    let advantage := advantage * ((5 # 10) + (5 # 10) * aggressiveness self) in
    Qgtb advantage threshold.

(** ** Road network ([road_network.py]) *)

Record EdgeInfo : Type := mkEdgeInfo {
  speed_limit : Q;
  lanes : Z;
  road_type : string;
  edge_length : Q
}.

(** The attribute tables of [BellevueRoadNetwork].  [graph_edges] holds, for
    each edge of the multigraph, its optional ['length'] attribute;
    [graph_nodes] the [(y, x)] position of each node.  [shortest_route] is
    the outcome of [find_route] (nearest-node lookup and NetworkX shortest
    path, [[]] when there is no path). *)
Record BellevueRoadNetwork : Type := mkNetwork {
  speed_limits : gmap Edge Q;
  lane_counts : gmap Edge Z;
  road_types : gmap Edge string;
  graph_edges : gmap Edge (option Q);
  graph_nodes : gmap Z (Q * Q);
  shortest_route : Q * Q -> Q * Q -> list Z
}.

(** [BellevueRoadNetwork.find_route], on a network that has been loaded (the
    [ValueError] of an unloaded network belongs to the setup). *)
Definition find_route (self : BellevueRoadNetwork) (orig dest : Q * Q)
    : list Z :=
  shortest_route self orig dest.

(** [BellevueRoadNetwork.get_edge_info] *)
Definition get_edge_info (self : BellevueRoadNetwork) (u v key : Z)
    : result EdgeInfo :=
  let edge_id : Edge := (u, v, key) in
  match graph_edges self !! edge_id with
  | None => Raise KeyError
  | Some data =>
      Ok {| speed_limit := default (50 / (36 # 10)) (speed_limits self !! edge_id);
            lanes := default 1%Z (lane_counts self !! edge_id);
            road_type := default "residential"%string (road_types self !! edge_id);
            edge_length := default 100 data |}
  end.

(** [BellevueRoadNetwork.get_node_position] *)
Definition get_node_position (self : BellevueRoadNetwork) (node : Z)
    : result (Q * Q) :=
  match graph_nodes self !! node with
  | Some p => Ok p
  | None => Raise KeyError
  end.

(** ** Simulation state ([simulation.py]) *)

Record SimStats : Type := mkSimStats {
  vehicles_spawned : Z;
  vehicles_completed : Z;
  total_travel_time : Q;
  stats_total_distance : Q;
  total_stops : Z;
  congestion_events : Z
}.

(** [objs] is the object store; [vehicles] lists the keys of the dictionary
    [self.vehicles] in insertion order, [completed_vehicles] the retired
    vehicles, [edge_vehicles] the occupancy lists (a [defaultdict(list)]). *)
Record TrafficSimulation : Type := mkSim {
  time_step : Q;
  network : BellevueRoadNetwork;
  signals : gmap Z TrafficSignal;
  objs : gmap nat Vehicle;
  vehicles : list nat;
  next_vehicle_id : nat;
  completed_vehicles : list nat;
  edge_vehicles : gmap Edge (list nat);
  sim_stats : SimStats
}.

Definition set_objs (s : TrafficSimulation) (o : gmap nat Vehicle)
    : TrafficSimulation :=
  mkSim (time_step s) (network s) (signals s) o (vehicles s)
    (next_vehicle_id s) (completed_vehicles s) (edge_vehicles s) (sim_stats s).

Definition set_edge_vehicles (s : TrafficSimulation)
    (ev : gmap Edge (list nat)) : TrafficSimulation :=
  mkSim (time_step s) (network s) (signals s) (objs s) (vehicles s)
    (next_vehicle_id s) (completed_vehicles s) ev (sim_stats s).

Definition set_next_vehicle_id (s : TrafficSimulation) (n : nat)
    : TrafficSimulation :=
  mkSim (time_step s) (network s) (signals s) (objs s) (vehicles s)
    n (completed_vehicles s) (edge_vehicles s) (sim_stats s).

Definition set_vehicles (s : TrafficSimulation) (l : list nat)
    : TrafficSimulation :=
  mkSim (time_step s) (network s) (signals s) (objs s) l
    (next_vehicle_id s) (completed_vehicles s) (edge_vehicles s) (sim_stats s).

Definition set_completed_vehicles (s : TrafficSimulation) (l : list nat)
    : TrafficSimulation :=
  mkSim (time_step s) (network s) (signals s) (objs s) (vehicles s)
    (next_vehicle_id s) l (edge_vehicles s) (sim_stats s).

Definition set_sim_stats (s : TrafficSimulation) (st : SimStats)
    : TrafficSimulation :=
  mkSim (time_step s) (network s) (signals s) (objs s) (vehicles s)
    (next_vehicle_id s) (completed_vehicles s) (edge_vehicles s) st.

Definition set_signals (s : TrafficSimulation) (sg : gmap Z TrafficSignal)
    : TrafficSimulation :=
  mkSim (time_step s) (network s) sg (objs s) (vehicles s)
    (next_vehicle_id s) (completed_vehicles s) (edge_vehicles s) (sim_stats s).

(** Writing the object behind [vid] back to the store. *)
Definition store (s : TrafficSimulation) (vid : nat) (v : Vehicle)
    : TrafficSimulation :=
  set_objs s (<[vid := v]> (objs s)).

(** Following a reference.  Every id held by a collection was allocated by
    [_spawn_vehicle]; [NoObject] marks a state that breaks this. *)
Definition deref (s : TrafficSimulation) (vid : nat) : result Vehicle :=
  match objs s !! vid with
  | Some v => Ok v
  | None => Raise NoObject
  end.

(** [self.edge_vehicles[edge]]: the list of the edge, [[]] by default. *)
Definition occupancy (ev : gmap Edge (list nat)) (edge : Edge) : list nat :=
  default [] (ev !! edge).

(** Reading [self.edge_vehicles[edge]] creates the entry. *)
Definition touch (ev : gmap Edge (list nat)) (edge : Edge)
    : gmap Edge (list nat) :=
  <[edge := occupancy ev edge]> ev.

(** [l.index(x) if x in l else -1]; [None] stands for [-1]. *)
Fixpoint py_index `{EqDecision A} (x : A) (l : list A) : option nat :=
  match l with
  | [] => None
  | y :: l' => if decide (x = y) then Some 0%nat else S <$> py_index x l'
  end.

(** [if x in l: l.remove(x)]: the first occurrence is removed. *)
Fixpoint py_remove `{EqDecision A} (x : A) (l : list A) : list A :=
  match l with
  | [] => []
  | y :: l' => if decide (x = y) then l' else y :: py_remove x l'
  end.

(** [self.edge_vehicles[edge].append(vid)] *)
Definition attach (ev : gmap Edge (list nat)) (edge : Edge) (vid : nat)
    : gmap Edge (list nat) :=
  <[edge := occupancy ev edge ++ [vid]]> ev.

(** [if vehicle in self.edge_vehicles[edge]: self.edge_vehicles[edge].remove(vehicle)] *)
Definition detach (ev : gmap Edge (list nat)) (edge : Edge) (vid : nat)
    : gmap Edge (list nat) :=
  <[edge := py_remove vid (occupancy ev edge)]> ev.

(** [SignalController.update_all_signals] *)
Definition update_all_signals (sigs : gmap Z TrafficSignal) (dt : Q)
    : result (gmap Z TrafficSignal) :=
  map_fold (fun k s acc => m ← acc; s' ← update s dt; Ok (<[k := s']> m))
    (Ok ∅) sigs.

(** The constructor selected by the [vehicle_type] string. *)
Definition make_vehicle (vehicle_type : string)
    : nat -> Q -> Q * Q -> Q * Q -> list Z -> Q -> Q -> Vehicle :=
  if String.eqb vehicle_type "car" then Car
  else if String.eqb vehicle_type "bus" then Bus
  else if String.eqb vehicle_type "truck" then Truck
  else if String.eqb vehicle_type "motorcycle" then Motorcycle
  else Car.

(** [self.vehicles[vehicle_id] = vehicle] on the key list. *)
Definition dict_add_key (keys : list nat) (k : nat) : list nat :=
  if decide (k ∈ keys) then keys else keys ++ [k].

(** [TrafficSimulation._spawn_vehicle]; [now] is [self.env.now], [draw_a]
    and [draw_p] the two samples consumed by the vehicle constructor. *)
Definition _spawn_vehicle (self : TrafficSimulation) (now : Q)
    (vehicle_type : string) (orig dest : Q * Q) (draw_a draw_p : Q)
    : TrafficSimulation :=
  let vehicle_id := next_vehicle_id self in
  let self := set_next_vehicle_id self (vehicle_id + 1)%nat in
  let rt := find_route (network self) orig dest in
  if (length rt <? 2)%nat then self
  else
    let vehicle := make_vehicle vehicle_type vehicle_id now orig dest rt
                     draw_a draw_p in
    let '(vehicle, self) :=
      match rt with
      | r0 :: r1 :: _ =>
          let e : Edge := (r0, r1, 0%Z) in
          (set_current_edge vehicle (Some e),
           set_edge_vehicles self (attach (edge_vehicles self) e vehicle_id))
      | _ => (vehicle, self)
      end in
    let self := store self vehicle_id vehicle in
    let self := set_vehicles self (dict_add_key (vehicles self) vehicle_id) in
    set_sim_stats self
      (let st := sim_stats self in
       mkSimStats (vehicles_spawned st + 1)%Z (vehicles_completed st)
         (total_travel_time st) (stats_total_distance st) (total_stops st)
         (congestion_events st)).

(** The route cursor of [_update_vehicle_position]:
    [route[route.index(v) + 1]] when [v] is on the route and its first
    occurrence is not the last node. *)
Definition next_on_route (rt : list Z) (v : Z) : option Z :=
  match py_index v rt with
  | Some idx =>
      if (idx <? length rt - 1)%nat then rt !! (idx + 1)%nat else None
  | None => None
  end.

(** The leader lookup of [_update_vehicle_position]: the vehicle just before
    [vid] in the occupancy list, at the placeholder distance of 50 m. *)
Definition find_leader (self : TrafficSimulation) (edge_list : list nat)
    (vid : nat) : result (option Q * option Q) :=
  match py_index vid edge_list with
  | Some (S i) =>
      match edge_list !! i with
      | Some lid => leader ← deref self lid; Ok (Some 50, Some (speed leader))
      | None => Raise IndexError
      end
  | _ => Ok (None, None)
  end.

(** [max(0.0, vehicle.speed + acceleration * self.time_step)]; a NaN
    acceleration makes the comparison false and leaves [0.0]. *)
Definition integrate_speed (v : Q) (accel : option Q) (dt : Q) : Q :=
  match accel with
  | Some a => py_max 0 (v + a * dt)
  | None => 0
  end.

(** The runtime type of that maximum: the acceleration comes out of
    [np.clip], so the second argument is a NumPy scalar, and [max] returns
    it only when it is greater than the Python float [0.0]. *)
Definition integrate_is_numpy (v : Q) (accel : option Q) (dt : Q) : bool :=
  match accel with
  | Some a => Qgtb (v + a * dt) 0
  | None => false
  end.

(** [TrafficSimulation._update_vehicle_position] *)
Definition _update_vehicle_position (self : TrafficSimulation) (vid : nat)
    : result TrafficSimulation :=
  vehicle ← deref self vid;
  if (length (route vehicle) <? 2)%nat
  then Ok (store self vid (set_completed vehicle true))
  else
    match current_edge vehicle with
    | None => Ok (store self vid (set_completed vehicle true))
    | Some cur =>
        let '(u, v, key) := cur in
        edge_info ← get_edge_info (network self) u v key;
        let speed_limit := speed_limit edge_info in
        let edge_length := edge_length edge_info in
        can_proceed ←
          match signals self !! v with
          | Some signal =>
              can_vehicle_proceed signal "north" (edge_length * (5 # 10))
                (speed vehicle)
          | None => Ok true
          end;
        let edge_list := occupancy (edge_vehicles self) cur in
        let self := set_edge_vehicles self (touch (edge_vehicles self) cur) in
        '(leader_distance, leader_speed) ← find_leader self edge_list vid;
        let desired_speed := if (can_proceed : bool) then speed_limit else 0 in
        let vehicle := set_waiting_at_signal vehicle (negb can_proceed) in
        accel ← calculate_acceleration vehicle leader_distance leader_speed
                  desired_speed;
        let new_speed := integrate_speed (speed vehicle) accel (time_step self) in
        let new_speed_is_numpy :=
          integrate_is_numpy (speed vehicle) accel (time_step self) in
        let vehicle :=
          set_acceleration (set_speed vehicle new_speed new_speed_is_numpy)
            accel in
        let distance_traveled := speed vehicle * time_step self in
        if Qgeb distance_traveled (edge_length * (5 # 10))
        then
          match next_on_route (route vehicle) v with
          | Some next_node =>
              let ev := detach (edge_vehicles self) cur vid in
              let new_edge : Edge := (v, next_node, 0%Z) in
              let vehicle := set_current_edge vehicle (Some new_edge) in
              let ev := attach ev new_edge vid in
              new_pos ← get_node_position (network self) v;
              let vehicle := update_position vehicle new_pos (time_step self) in
              Ok (store (set_edge_vehicles self ev) vid vehicle)
          | None =>
              let vehicle := set_completed vehicle true in
              let ev := detach (edge_vehicles self) cur vid in
              Ok (store (set_edge_vehicles self ev) vid vehicle)
          end
        else
          let st := stats vehicle in
          let vehicle :=
            set_stats vehicle
              (mkVehicleStats (total_distance st)
                 (total_time st + time_step self) (stops st)
                 (lane_changes st) (average_speed st) (stats_max_speed st)
                 (time_in_congestion st)) in
          Ok (store self vid vehicle)
    end.

(** The first loop of [_update_vehicles]: completed vehicles are queued for
    removal, the others are updated in dictionary order. *)
Fixpoint update_loop (ids : list nat) (self : TrafficSimulation)
    (vehicles_to_remove : list nat)
    : result (TrafficSimulation * list nat) :=
  match ids with
  | [] => Ok (self, vehicles_to_remove)
  | vehicle_id :: rest =>
      vehicle ← deref self vehicle_id;
      if completed vehicle
      then update_loop rest self (vehicles_to_remove ++ [vehicle_id])
      else
        self ← _update_vehicle_position self vehicle_id;
        update_loop rest self vehicles_to_remove
  end.

(** The second loop of [_update_vehicles]: retirement. *)
Fixpoint remove_loop (vehicles_to_remove : list nat)
    (self : TrafficSimulation) : result TrafficSimulation :=
  match vehicles_to_remove with
  | [] => Ok self
  | vehicle_id :: rest =>
      if decide (vehicle_id ∈ vehicles self)
      then
        vehicle ← deref self vehicle_id;
        let self := set_vehicles self (py_remove vehicle_id (vehicles self)) in
        let self :=
          set_completed_vehicles self (completed_vehicles self ++ [vehicle_id]) in
        let st := sim_stats self in
        let self :=
          set_sim_stats self
            (mkSimStats (vehicles_spawned st) (vehicles_completed st + 1)%Z
               (total_travel_time st + total_time (stats vehicle))
               (stats_total_distance st + total_distance (stats vehicle))
               (total_stops st + stops (stats vehicle))%Z
               (congestion_events st)) in
        remove_loop rest self
      else Raise KeyError
  end.

(** One iteration of [TrafficSimulation._update_vehicles]. *)
Definition _update_vehicles (self : TrafficSimulation)
    : result TrafficSimulation :=
  '(self, vehicles_to_remove) ← update_loop (vehicles self) self [];
  remove_loop vehicles_to_remove self.

(** [TrafficSimulation.get_congestion_level].  (The entry that the read of
    [self.edge_vehicles[edge]] creates does not change the value and is not
    recorded.) *)
Definition get_congestion_level (self : TrafficSimulation) (edge : Edge)
    : result Q :=
  let '(u, v, key) := edge in
  edge_info ← get_edge_info (network self) u v key;
  let speed_limit := speed_limit edge_info in
  let num_lanes := lanes edge_info in
  let edge_length := edge_length edge_info in
  let capacity := (edge_length / 7) * inject_Z num_lanes in
  let on_edge := occupancy (edge_vehicles self) edge in
  let occ := inject_Z (Z.of_nat (length on_edge)) in
  let density_ratio := if Qgtb capacity 0 then occ / capacity else 0 in
  speed_ratio ←
    match on_edge with
    | [] => Ok 0
    | _ =>
        speeds ← mapM (fun i => speed <$> deref self i) on_edge;
        let avg_speed := np_mean speeds in
        Ok (if Qgtb speed_limit 0 then 1 - avg_speed / speed_limit else 0)
    end;
  let congestion := (6 # 10) * density_ratio + (4 # 10) * speed_ratio in
  Ok (py_min 1 congestion).

(** ** Notions used by the statements *)

(** The successor of a sub-state in the cycle GREEN, YELLOW, RED, GREEN. *)
Definition succ_state (st : SignalState) : SignalState :=
  match st with
  | GREEN => YELLOW
  | YELLOW => RED
  | RED => GREEN
  end.

(** The time after which the sub-state of [s] is left, [p] being its
    current phase. *)
Definition threshold (s : TrafficSignal) (p : SignalPhase) : Q :=
  match current_state s with
  | GREEN => duration p
  | YELLOW => yellow_duration p
  | RED => 1
  end.

(** The phase index after a transition out of the sub-state of [s]. *)
Definition index_after (s : TrafficSignal) : nat :=
  match current_state s with
  | YELLOW => ((current_phase_index s + 1) mod length (phases s))%nat
  | _ => current_phase_index s
  end.

(** A sequence of [update] calls, one per time step; the signals reached
    after each call are collected. *)
Fixpoint run_updates (s : TrafficSignal) (dts : list Q)
    : result (list TrafficSignal) :=
  match dts with
  | [] => Ok []
  | dt :: rest =>
      s' ← update s dt;
      tr ← run_updates s' rest;
      Ok (s' :: tr)
  end.

(** One observed step of a signal: either the sub-state is kept and the
    timer accumulates the time step, or the threshold of the sub-state has
    elapsed and the signal moves to the next sub-state of the cycle with a
    fresh timer, the phase index advancing when YELLOW is left. *)
Definition cycle_step (s : TrafficSignal) (dt : Q) (s' : TrafficSignal)
    : Prop :=
  exists p, phases s !! current_phase_index s = Some p /\
    phases s' = phases s /\
    ((time_in_phase s + dt < threshold s p /\
      current_state s' = current_state s /\
      current_phase_index s' = current_phase_index s /\
      time_in_phase s' = time_in_phase s + dt)
     \/
     (threshold s p <= time_in_phase s + dt /\
      current_state s' = succ_state (current_state s) /\
      current_phase_index s' = index_after s /\
      time_in_phase s' = 0)).


(** The free-flow acceleration: the car-following law without leader term. *)
Definition free_flow (self : Vehicle) (desired_speed : Q)
    : result (option Q) :=
  ratio ← speed_div (speed self) (speed_is_numpy self) desired_speed;
  Ok (np_clip
        (xmul (xmul (Fin (max_acceleration self))
                 (xsub (Fin 1) (xpow_even ratio 4)))
           (Fin ((5 # 10) + (5 # 10) * aggressiveness self)))
        (- max_deceleration self) (max_acceleration self)).

(** The vehicle after the speed integration of [_update_vehicle_position]. *)
Definition integrated (v : Vehicle) (can_proceed : bool) (accel : option Q)
    (dt : Q) : Vehicle :=
  set_acceleration
    (set_speed (set_waiting_at_signal v (negb can_proceed))
       (integrate_speed (speed v) accel dt)
       (integrate_is_numpy (speed v) accel dt))
    accel.

(** The sum of the per-edge occupancy counts. *)
Definition total_occupancy (ev : gmap Edge (list nat)) : nat :=
  map_fold (fun _ l n => (length l + n)%nat) 0%nat ev.

(** Whether the object behind an id satisfies a test. *)
Definition obj_test (o : gmap nat Vehicle) (f : Vehicle -> bool) (i : nat)
    : bool :=
  match o !! i with
  | Some v => f v
  | None => false
  end.

(** The number of active vehicles that have a current edge. *)
Definition active_with_edge (self : TrafficSimulation) : nat :=
  length (List.filter
            (obj_test (objs self)
               (fun v => match current_edge v with Some _ => true | None => false end))
            (vehicles self)).

(** The number of active vehicles not marked completed. *)
Definition active_running (self : TrafficSimulation) : nat :=
  length (List.filter
            (obj_test (objs self) (fun v => negb (completed v)))
            (vehicles self)).

(** All the vehicles of the store have a speed that is not negative. *)
Definition speeds_nonneg (s : TrafficSimulation) : Prop :=
  forall i v, objs s !! i = Some v -> 0 <= speed v.

(** The state of a simulation that has been set up and has not started:
    [TrafficSimulation.__init__] followed by [setup], which loads the
    network and creates the signals. *)
Definition new_simulation (dt : Q) (net : BellevueRoadNetwork)
    (sigs : gmap Z TrafficSignal) : TrafficSimulation :=
  mkSim dt net sigs ∅ [] 0 [] ∅ (mkSimStats 0 0 0 0 0 0).

(** The states that a run goes through: spawns, signal updates, updates of
    vehicles that are not completed, and whole vehicle ticks. *)
Inductive reachable : TrafficSimulation -> Prop :=
| reach_new dt net sigs :
    reachable (new_simulation dt net sigs)
| reach_spawn s now vehicle_type orig dest draw_a draw_p :
    reachable s ->
    reachable (_spawn_vehicle s now vehicle_type orig dest draw_a draw_p)
| reach_signals s sigs :
    reachable s ->
    update_all_signals (signals s) (time_step s) = Ok sigs ->
    reachable (set_signals s sigs)
| reach_update s vid v s' :
    reachable s ->
    vid ∈ vehicles s ->
    objs s !! vid = Some v ->
    completed v = false ->
    _update_vehicle_position s vid = Ok s' ->
    reachable s'
| reach_tick s s' :
    reachable s ->
    _update_vehicles s = Ok s' ->
    reachable s'.

(** The occupancy property of a state: a vehicle is on at most one
    occupancy list, and at most once; an active vehicle that is not marked
    completed is on the list of its current edge; an active vehicle marked
    completed is on no list; the per-edge counts add up to the number of
    active vehicles not marked completed. *)
Definition occupancy_ok (self : TrafficSimulation) : Prop :=
  (forall i e1 e2,
      i ∈ occupancy (edge_vehicles self) e1 ->
      i ∈ occupancy (edge_vehicles self) e2 -> e1 = e2) /\
  (forall e, NoDup (occupancy (edge_vehicles self) e)) /\
  (forall i v, i ∈ vehicles self -> objs self !! i = Some v ->
      completed v = false ->
      exists e, current_edge v = Some e /\
                i ∈ occupancy (edge_vehicles self) e) /\
  (forall i v e, i ∈ vehicles self -> objs self !! i = Some v ->
      completed v = true -> i ∉ occupancy (edge_vehicles self) e) /\
  total_occupancy (edge_vehicles self) = active_running self.

(** The invariant behind it: the store is consistent with the id counter,
    every vehicle has a route of two nodes at least and a current edge, an
    occupancy list holds distinct active vehicles that are not completed and
    whose current edge is that of the list, every active vehicle that is not
    completed is on the list of its current edge, and the counts agree. *)
Record occupancy_inv (self : TrafficSimulation) : Prop := mkInv {
  inv_keys : NoDup (vehicles self);
  inv_store : forall i v, objs self !! i = Some v ->
      (i < next_vehicle_id self)%nat /\
      (2 <= length (route v))%nat /\ current_edge v <> None;
  inv_active : forall i, i ∈ vehicles self -> is_Some (objs self !! i);
  inv_lists : forall e i, i ∈ occupancy (edge_vehicles self) e ->
      i ∈ vehicles self /\
      exists v, objs self !! i = Some v /\ completed v = false /\
                current_edge v = Some e;
  inv_nodup : forall e, NoDup (occupancy (edge_vehicles self) e);
  inv_running : forall i v, i ∈ vehicles self -> objs self !! i = Some v ->
      completed v = false ->
      exists e, current_edge v = Some e /\ i ∈ occupancy (edge_vehicles self) e;
  inv_count : total_occupancy (edge_vehicles self) = active_running self
}.

(** ** Further operations of the cited modules *)

(** [a / b] on Python floats (or integers): a zero divisor raises. *)
Definition py_div (a b : Q) : result Q :=
  if Qeq_bool b 0 then Raise ZeroDivisionError else Ok (a / b).

(** *** [traffic_signals.py]: the controller *)

(** [TrafficSignal.is_green_for_approach] *)
Definition is_green_for_approach (self : TrafficSignal) (approach : string)
    : result bool :=
  state ← get_state_for_approach self approach;
  Ok (match state with GREEN => true | _ => false end).

(** [SignalController.add_signal]: the signals are keyed by their node. *)
Definition add_signal (sigs : gmap Z TrafficSignal) (signal : TrafficSignal)
    : gmap Z TrafficSignal :=
  <[node_id signal := signal]> sigs.

(** [SignalController.get_signal_at_node] *)
Definition get_signal_at_node (sigs : gmap Z TrafficSignal) (node : Z)
    : option TrafficSignal :=
  sigs !! node.

(** [SignalController.create_standard_signal]: the new controller state and
    the signal returned. *)
Definition create_standard_signal (sigs : gmap Z TrafficSignal)
    (signal_id node : Z) (position : Q * Q)
    (major_street_time minor_street_time : Q)
    : result (gmap Z TrafficSignal * TrafficSignal) :=
  let phs := standard_phases major_street_time minor_street_time in
  signal ← TrafficSignal_init signal_id node position phs false 0;
  Ok (add_signal sigs signal, signal).

(** The two phases of an arterial signal. *)
Definition arterial_phases : list SignalPhase :=
  [ mkPhase "Arterial_Green" 60 ["north"; "south"]%string 3;
    mkPhase "Cross_Green" 30 ["east"; "west"]%string 3 ].

(** The loop of [SignalController.create_arterial_signals] over
    [enumerate(zip(nodes, positions))], from index [i]. *)
Fixpoint arterial_loop (i : nat) (pairs : list (Z * (Q * Q)))
    (green_wave_speed spacing : Q)
    (sigs : gmap Z TrafficSignal) (signals : list TrafficSignal)
    : result (gmap Z TrafficSignal * list TrafficSignal) :=
  match pairs with
  | [] => Ok (sigs, signals)
  | (node, position) :: rest =>
      off ← py_div (inject_Z (Z.of_nat i) * spacing) green_wave_speed;
      signal ← TrafficSignal_init (Z.of_nat i) node position arterial_phases
                 true off;
      arterial_loop (S i) rest green_wave_speed spacing
        (add_signal sigs signal) (signals ++ [signal])
  end.

(** [SignalController.create_arterial_signals] *)
Definition create_arterial_signals (sigs : gmap Z TrafficSignal)
    (nodes : list Z) (positions : list (Q * Q))
    (green_wave_speed spacing : Q)
    : result (gmap Z TrafficSignal * list TrafficSignal) :=
  arterial_loop 0 (zip nodes positions) green_wave_speed spacing sigs [].

(** *** [simulation.py]: signal placement *)

(** The second loop of [TrafficSimulation._setup_signals], from index [i]:
    a major timing on even indices, a minor one on odd indices. *)
Fixpoint place_signals (net : BellevueRoadNetwork) (i : nat)
    (signal_nodes : list Z) (sigs : gmap Z TrafficSignal)
    : result (gmap Z TrafficSignal) :=
  match signal_nodes with
  | [] => Ok sigs
  | node :: rest =>
      position ← get_node_position net node;
      '(sigs, _) ←
        (if (i mod 2 =? 0)%nat
         then create_standard_signal sigs (Z.of_nat i) node position 60 30
         else create_standard_signal sigs (Z.of_nat i) node position 45 25);
      place_signals net (S i) rest sigs
  end.

(** The first loop of [_setup_signals]: the nodes whose index in the
    iteration order of the graph is a multiple of 5. *)
Fixpoint every_fifth (i : nat) (nodes : list Z) : list Z :=
  match nodes with
  | [] => []
  | node :: rest =>
      if (i mod 5 =? 0)%nat then node :: every_fifth (S i) rest
      else every_fifth (S i) rest
  end.

(** [TrafficSimulation._setup_signals]; [graph_node_order] is the iteration
    order of [self.network.graph.nodes()]. *)
Definition _setup_signals (self : TrafficSimulation)
    (graph_node_order : list Z) : result TrafficSimulation :=
  let signal_nodes := every_fifth 0 graph_node_order in
  sigs ← place_signals (network self) 0 (take 20 signal_nodes) (signals self);
  Ok (set_signals self sigs).

(** The ['completion_rate'] entry of [TrafficAnalytics._get_general_stats]
    ([analytics.py]). *)
Definition completion_rate (st : SimStats) : Q :=
  inject_Z (vehicles_completed st)
  / inject_Z (if (vehicles_spawned st <? 1)%Z then 1 else vehicles_spawned st).

Section Rounding.

(** *** Floating-point arithmetic

    The timing utilities and the demand patterns below test computed values
    against zero and against fixed bounds, so rounding matters there.  [fl]
    rounds a number to the nearest [float]; an operation on floats is the
    exact operation followed by [fl] (overflow is not modelled). *)
Variable fl : Q -> Q.

Definition fadd (a b : Q) : Q := fl (a + b).
Definition fsub (a b : Q) : Q := fl (a - b).
Definition fmul (a b : Q) : Q := fl (a * b).
Definition fdiv (a b : Q) : Q := fl (a / b).

(** A decimal literal denotes the float nearest to it; literals with an
    integer value are written as they are. *)
Definition lit (q : Q) : Q := fl q.

(** [a / b] on Python floats (or integers): a zero divisor raises. *)
Definition py_fdiv (a b : Q) : result Q :=
  if Qeq_bool b 0 then Raise ZeroDivisionError else Ok (fdiv a b).

(** Python's [sum] on floats: a left fold of the addition from 0. *)
Definition py_fsum (l : list Q) : Q := fold_left fadd l 0.

(** The unit roundoff of binary64, [2^-53], and its smallest positive
    normal number, [2^-1022]. *)
Definition unit_roundoff : Q := 1 # 9007199254740992.

Definition min_normal : Q := 2 ^ (-1022).

(** What the statements below assume of the rounding, each where it needs
    it: rounding is monotone, leaves the integers up to [2^53] alone, and
    has a relative error of at most the unit roundoff on the numbers that
    are not below the normal range. *)
Definition fl_monotone : Prop :=
  forall x y, x <= y -> fl x <= fl y.

Definition fl_exact_on_integers : Prop :=
  forall n : Z, (Z.abs n <= 2 ^ 53)%Z -> fl (inject_Z n) == inject_Z n.

Definition fl_relative_error : Prop :=
  forall x, min_normal <= Qabs x ->
    Qabs (fl x - x) <= unit_roundoff * Qabs x.

(** *** [traffic_signals.py]: signal timing *)

(** [SignalTiming.calculate_cycle_length]; the arguments are Python floats,
    the result of [np.clip] is a NumPy scalar. *)
Definition calculate_cycle_length (critical_volumes : list Q)
    (lost_time_per_phase target_vc_ratio : Q) : result Q :=
  let total_lost_time :=
    fmul (inject_Z (Z.of_nat (length critical_volumes)))
      lost_time_per_phase in
  let sum_critical_ratios := py_fsum critical_volumes in
  ratio ← py_fdiv sum_critical_ratios target_vc_ratio;
  cycle ← py_fdiv (fadd (fmul (lit (15 # 10)) total_lost_time) 5)
            (fsub 1 ratio);
  Ok (clipQ cycle 60 180).

(** [SignalTiming.split_green_time].  [cycle_is_numpy] tells whether the
    cycle length is a NumPy scalar, as a result of [calculate_cycle_length]
    is, or a Python float: with no phase the equal split divides the
    available green by the integer [0], which raises on a Python float
    and gives an infinity or a NaN on a NumPy scalar, a value that is then
    repeated zero times. *)
Definition split_green_time (cycle : Q) (cycle_is_numpy : bool)
    (phase_volumes : list Q) (yellow_time all_red_time : Q)
    : result (list Q) :=
  let num_phases := length phase_volumes in
  let lost_time :=
    fmul (inject_Z (Z.of_nat num_phases)) (fadd yellow_time all_red_time) in
  let available_green := fsub cycle lost_time in
  let total_volume := py_fsum phase_volumes in
  if Qeq_bool total_volume 0
  then
    match num_phases with
    | O => if cycle_is_numpy then Ok [] else Raise ZeroDivisionError
    | S _ =>
        Ok (replicate num_phases
              (fdiv available_green (inject_Z (Z.of_nat num_phases))))
    end
  else
    let green_times :=
      List.map (fun volume => fmul (fdiv volume total_volume) available_green)
        phase_volumes in
    let min_green := 7 in
    Ok (List.map (fun g => py_max g min_green) green_times).

(** *** [traffic_patterns.py]: demand by time of day *)

Inductive TimeOfDay : Type :=
| EARLY_MORNING | MORNING_RUSH | MIDDAY | EVENING_RUSH | EVENING | NIGHT.

Inductive DayOfWeek : Type := WEEKDAY | SATURDAY | SUNDAY.

Record TrafficDemand : Type := mkDemand {
  base_flow_rate : Q;
  truck_percentage : Q;
  bus_percentage : Q;
  trip_purposes : list (string * Q)
}.

(** [lo <= hour < hi] *)
Definition in_hours (lo hi hour : Q) : bool :=
  Qle_bool lo hour && Qltb hour hi.

(** [TrafficPatternGenerator.get_time_period] *)
Definition get_time_period (hour : Q) : TimeOfDay :=
  if in_hours 5 7 hour then EARLY_MORNING
  else if in_hours 7 9 hour then MORNING_RUSH
  else if in_hours 9 16 hour then MIDDAY
  else if in_hours 16 19 hour then EVENING_RUSH
  else if in_hours 19 22 hour then EVENING
  else NIGHT.

(** [TrafficPatternGenerator.get_demand_multiplier] *)
Definition get_demand_multiplier (time_period : TimeOfDay) (day : DayOfWeek)
    : Q :=
  let time_multiplier :=
    match time_period with
    | EARLY_MORNING => lit (3 # 10)
    | MORNING_RUSH => lit (18 # 10)
    | MIDDAY => lit (8 # 10)
    | EVENING_RUSH => 2
    | EVENING => lit (6 # 10)
    | NIGHT => lit (1 # 10)
    end in
  let day_multiplier :=
    match day with
    | WEEKDAY => 1
    | SATURDAY => lit (6 # 10)
    | SUNDAY => lit (4 # 10)
    end in
  fmul time_multiplier day_multiplier.

(** [TrafficPatternGenerator.get_traffic_demand] *)
Definition get_traffic_demand (hour : Q) (day : DayOfWeek) : TrafficDemand :=
  let time_period := get_time_period hour in
  let multiplier := get_demand_multiplier time_period day in
  let base_flow := fmul 2000 multiplier in
  let truck_pct :=
    match time_period with
    | NIGHT | EARLY_MORNING => lit (15 # 100)
    | MIDDAY => lit (10 # 100)
    | _ => lit (5 # 100)
    end in
  let bus_pct :=
    match day with
    | WEEKDAY => lit (3 # 100)
    | _ => lit (1 # 100)
    end in
  let purposes :=
    match time_period with
    | MORNING_RUSH =>
        [ ("commute_to_work", lit (70 # 100)); ("school", lit (15 # 100));
          ("shopping", lit (5 # 100)); ("other", lit (10 # 100)) ]
    | EVENING_RUSH =>
        [ ("commute_from_work", lit (60 # 100)); ("shopping", lit (15 # 100));
          ("recreation", lit (15 # 100)); ("other", lit (10 # 100)) ]
    | MIDDAY =>
        [ ("shopping", lit (30 # 100)); ("business", lit (25 # 100));
          ("personal", lit (25 # 100)); ("other", lit (20 # 100)) ]
    | _ =>
        [ ("other", lit (60 # 100)); ("shopping", lit (20 # 100));
          ("recreation", lit (20 # 100)) ]
    end%string in
  mkDemand base_flow truck_pct bus_pct purposes.

(** [TrafficPatternGenerator.get_spawn_rate] (vehicles per minute) *)
Definition get_spawn_rate (hour : Q) (day : DayOfWeek) : Q :=
  fdiv (base_flow_rate (get_traffic_demand hour day)) 60.

(** [TrafficPatternGenerator.get_vehicle_mix]: the dictionary in insertion
    order. *)
Definition get_vehicle_mix (hour : Q) (day : DayOfWeek) : list (string * Q) :=
  let demand := get_traffic_demand hour day in
  let car_pct :=
    fsub (fsub 1 (truck_percentage demand)) (bus_percentage demand) in
  let motorcycle_pct := lit (2 # 100) in
  let car_pct := fsub car_pct motorcycle_pct in
  [ ("car", car_pct); ("truck", truck_percentage demand);
    ("bus", bus_percentage demand); ("motorcycle", motorcycle_pct) ]%string.

(** The mean inter-arrival time that [_vehicle_generator] passes to
    [np.random.exponential]: [60.0 / spawn_rate] at the current hour
    [(start_hour + now / 3600) % 24]. *)
Definition inter_arrival_mean (current_hour : Q) (day : DayOfWeek)
    : result Q :=
  py_fdiv 60 (get_spawn_rate current_hour day).

End Rounding.

(** *** Notions used by the further properties *)

(** The counters agree with the collections. *)
Definition counts_ok (s : TrafficSimulation) : Prop :=
  vehicles_spawned (sim_stats s)
    = Z.of_nat (length (vehicles s) + length (completed_vehicles s)) /\
  vehicles_completed (sim_stats s)
    = Z.of_nat (length (completed_vehicles s)).

(** The active set is in ascending id order, no vehicle is retired twice
    or both active and retired, and every id is below the id counter. *)
Definition ids_ok (s : TrafficSimulation) : Prop :=
  StronglySorted lt (vehicles s) /\
  NoDup (completed_vehicles s) /\
  (forall i, i ∈ vehicles s \/ i ∈ completed_vehicles s ->
     (i < next_vehicle_id s)%nat) /\
  (forall i, i ∈ completed_vehicles s -> i ∉ vehicles s).

(** The runtime type of every speed in the store: a NumPy scalar exactly
    when the speed is positive, the Python float [0.0] otherwise. *)
Definition speed_types_ok (s : TrafficSimulation) : Prop :=
  forall i v, objs s !! i = Some v ->
    speed_is_numpy v = Qgtb (speed v) 0.

(** Whether the vehicle behind an id is marked completed in a state. *)
Definition is_done (s : TrafficSimulation) (i : nat) : bool :=
  obj_test (objs s) completed i.

(** ** Concrete scenarios *)

(** A rational square root, exact on the squares of multiples of [10^-6],
    used to run the model on concrete inputs. *)
Definition sqrt_approx (q : Q) : Q :=
  Z.sqrt (Qnum q * 10 ^ 12 / Zpos (Qden q)) # 10 ^ 6.

(** A signal as built by [create_standard_signal]: 60 s and 30 s of green,
    3 s of yellow each. *)
Definition standard_signal : TrafficSignal :=
  mkSignal 0 5 (0, 0) (standard_phases 60 30) false 0 0 RED 0 96 0 0.

(** The same signal 59 s into the green of its first phase. *)
Definition late_green_signal : TrafficSignal :=
  mkSignal 0 5 (0, 0) (standard_phases 60 30) false 0 0 GREEN 59 96 0 0.

(** A road [0 -> 1 -> 2] given by its two edge lengths and the speed limit
    of the first edge (in m/s); node positions are 5 units apart. *)
Definition two_edge_road (len01 len12 limit01 : Q) (rt : list Z)
    : BellevueRoadNetwork :=
  {| speed_limits := {[ (0, 1, 0)%Z := limit01 ]};
     lane_counts := ∅;
     road_types := ∅;
     graph_edges := {[ (0, 1, 0)%Z := Some len01; (1, 2, 0)%Z := Some len12 ]};
     graph_nodes := {[ 0%Z := (0, 0); 1%Z := (3, 4); 2%Z := (6, 8) ]};
     shortest_route := fun _ _ => rt |}.

(** A car spawned on a 10 m edge followed by a 300 m edge, default time
    step of 1 s, speed limit 50 km/h. *)
Definition short_edge_sim : TrafficSimulation :=
  _spawn_vehicle
    (new_simulation 1 (two_edge_road 10 300 (50 / (36 # 10)) [0; 1; 2]%Z) ∅)
    0 "car" (0, 0) (6, 8) (5 # 10) (5 # 10).

(** A car spawned on a 2 m edge followed by a 300 m edge. *)
Definition tiny_edge_sim : TrafficSimulation :=
  _spawn_vehicle
    (new_simulation 1 (two_edge_road 2 300 (50 / (36 # 10)) [0; 1; 2]%Z) ∅)
    0 "car" (0, 0) (6, 8) (5 # 10) (5 # 10).

(** A car spawned on a route made of a single 2 m edge. *)
Definition last_edge_sim : TrafficSimulation :=
  _spawn_vehicle
    (new_simulation 1 (two_edge_road 2 300 (50 / (36 # 10)) [0; 1]%Z) ∅)
    0 "car" (0, 0) (3, 4) (5 # 10) (5 # 10).

(** A simulation whose network finds no path. *)
Definition no_path_sim : TrafficSimulation :=
  new_simulation 1 (two_edge_road 300 300 (50 / (36 # 10)) []) ∅.

(** A bus (maximum speed 90 km/h = 25 m/s) driving at 25 m/s on a 300 m
    motorway edge whose limit is 100 km/h. *)
Definition bus_on_motorway : TrafficSimulation :=
  let s :=
    _spawn_vehicle
      (new_simulation 1 (two_edge_road 300 300 (100 / (36 # 10)) [0; 1; 2]%Z) ∅)
      0 "bus" (0, 0) (6, 8) (3 # 10) (7 # 10) in
  match objs s !! 0%nat with
  | Some bus => store s 0 (set_speed bus 25 true)
  | None => s
  end.

(** A car driving at 100 km/h on a 700 m edge with one lane and a limit of
    50 km/h, which it has entered from a faster road. *)
Definition speeding_car_sim : TrafficSimulation :=
  let s :=
    _spawn_vehicle
      (new_simulation 1 (two_edge_road 700 300 (50 / (36 # 10)) [0; 1; 2]%Z) ∅)
      0 "car" (0, 0) (6, 8) (5 # 10) (5 # 10) in
  match objs s !! 0%nat with
  | Some car => store s 0 (set_speed car (100 / (36 # 10)) true)
  | None => s
  end.

(** A car at 10 m/s, of average aggressiveness. *)
Definition car_at_10 : Vehicle :=
  set_speed (Car 0 0 (0, 0) (6, 8) [0; 1; 2]%Z (5 # 10) (5 # 10)) 10 true.

(** The standard signal 1 s into the yellow of its first phase. *)
Definition yellow_signal : TrafficSignal :=
  mkSignal 0 5 (0, 0) (standard_phases 60 30) false 0 0 YELLOW 1 96 0 0.

(** A signal built with an empty phase list. *)
Definition zero_phase_signal : TrafficSignal :=
  mkSignal 0 5 (0, 0) [] false 0 0 RED 0 0 0 0.

(** A car spawned at rest on a 300 m edge whose downstream node 1 carries a
    freshly built standard signal, which starts RED. *)
Definition red_light_sim : TrafficSimulation :=
  _spawn_vehicle
    (new_simulation 1 (two_edge_road 300 300 (50 / (36 # 10)) [0; 1; 2]%Z)
       {[ 1%Z := mkSignal 0 1 (3, 4) (standard_phases 60 30) false 0 0 RED 0
                   96 0 0 ]})
    0 "car" (0, 0) (6, 8) (5 # 10) (5 # 10).

(** Arithmetic without rounding, used to run the timing utilities and the
    demand patterns on concrete inputs. *)
Definition exact_rounding (q : Q) : Q := q.

(** * Properties *)

(** ** Comparisons and clamps *)

Lemma Qltb_lt (a b : Q) : Qltb a b = true <-> a < b.
Proof.
  unfold Qltb. rewrite negb_true_iff.
  destruct (Qle_bool b a) eqn:E.
  - apply Qle_bool_iff in E. split; [discriminate | intros H; exfalso; lra].
  - split; [intros _ | reflexivity].
    destruct (Qlt_le_dec a b) as [H | H]; [exact H |].
    apply Qle_bool_iff in H. congruence.
Qed.

Lemma Qltb_ge (a b : Q) : Qltb a b = false <-> b <= a.
Proof.
  unfold Qltb. rewrite negb_false_iff. apply Qle_bool_iff.
Qed.

Lemma Qgtb_gt (a b : Q) : Qgtb a b = true <-> b < a.
Proof. apply Qltb_lt. Qed.

Lemma Qgtb_le (a b : Q) : Qgtb a b = false <-> a <= b.
Proof. apply Qltb_ge. Qed.

Lemma Qgeb_ge (a b : Q) : Qgeb a b = true <-> b <= a.
Proof. apply Qle_bool_iff. Qed.

Lemma Qgeb_lt (a b : Q) : Qgeb a b = false <-> a < b.
Proof.
  unfold Qgeb. rewrite <- negb_true_iff. apply Qltb_lt.
Qed.

Lemma py_max_lower (a b : Q) : a <= py_max a b.
Proof.
  unfold py_max. destruct (Qgtb b a) eqn:E.
  - apply Qgtb_gt in E. lra.
  - lra.
Qed.

Lemma py_min_upper (a b : Q) : py_min a b <= a.
Proof.
  unfold py_min. destruct (Qltb b a) eqn:E.
  - apply Qltb_lt in E. lra.
  - lra.
Qed.


(** ** The signal state machine *)

(** [update], unfolded for a signal whose phase index is valid. *)
Lemma update_step (s : TrafficSignal) (dt : Q) (p : SignalPhase) :
  phases s !! current_phase_index s = Some p ->
  update s dt =
    Ok (if Qgeb (time_in_phase s + dt) (threshold s p)
        then switch_to (set_timer s (time_in_phase s + dt))
               (succ_state (current_state s)) (index_after s)
        else set_timer s (time_in_phase s + dt)).
Proof.
  intros Hp. unfold update, get_current_phase, threshold, index_after.
  cbn [set_timer phases current_phase_index current_state time_in_phase].
  rewrite Hp. cbn.
  destruct (current_state s); cbn;
    match goal with |- context [Qgeb ?a ?b] => destruct (Qgeb a b) end;
    reflexivity.
Qed.

(** A signal without phase at its index cannot be updated. *)
Lemma update_no_phase (s : TrafficSignal) (dt : Q) :
  phases s !! current_phase_index s = None ->
  update s dt = Raise IndexError.
Proof.
  intros Hp. unfold update, get_current_phase.
  cbn [set_timer phases current_phase_index]. rewrite Hp. reflexivity.
Qed.

Lemma index_after_valid (s : TrafficSignal) :
  (current_phase_index s < length (phases s))%nat ->
  (index_after s < length (phases s))%nat.
Proof.
  intros H. unfold index_after. destruct (current_state s); try exact H.
  apply Nat.mod_upper_bound. lia.
Qed.

(** [update] keeps the phase list and a valid phase index. *)
Lemma update_valid (s s' : TrafficSignal) (dt : Q) :
  (current_phase_index s < length (phases s))%nat ->
  update s dt = Ok s' ->
  phases s' = phases s /\
  (current_phase_index s' < length (phases s'))%nat.
Proof.
  intros Hidx Hup.
  destruct (lookup_lt_is_Some_2 _ _ Hidx) as [p Hp].
  rewrite (update_step s dt p Hp) in Hup.
  pose proof (index_after_valid s Hidx) as Hia.
  destruct (Qgeb _ _); inversion Hup; subst; cbn; auto.
Qed.

(** On a signal with a valid index, [update] performs a [cycle_step]. *)
Lemma update_cycle_step (s : TrafficSignal) (dt : Q) :
  (current_phase_index s < length (phases s))%nat ->
  exists s', update s dt = Ok s' /\ cycle_step s dt s'.
Proof.
  intros Hidx.
  destruct (lookup_lt_is_Some_2 _ _ Hidx) as [p Hp].
  rewrite (update_step s dt p Hp).
  eexists. split; [reflexivity |].
  exists p. split; [exact Hp |].
  destruct (Qgeb (time_in_phase s + dt) (threshold s p)) eqn:E.
  - apply Qgeb_ge in E. split; [reflexivity |]. right. cbn. auto.
  - apply Qgeb_lt in E. split; [reflexivity |]. left. cbn. auto.
Qed.

(** ** The error monad *)

Lemma bind_Ok {A B : Type} (r : result A) (k : A -> result B) (b : B) :
  r ≫= k = Ok b -> exists a, r = Ok a /\ k a = Ok b.
Proof.
  destruct r as [a | e]; cbn; intros H; [eauto | discriminate].
Qed.

Ltac inv_bind H :=
  let a := fresh "a" in
  let Ha := fresh "Hbind" in
  apply bind_Ok in H; destruct H as (a & Ha & H).

(** ** The car-following law *)

Lemma integrate_speed_nonneg (v : Q) (accel : option Q) (dt : Q) :
  0 <= integrate_speed v accel dt.
Proof.
  destruct accel as [a |]; cbn; [apply py_max_lower | lra].
Qed.

Lemma calculate_acceleration_no_leader (self : Vehicle) (ls : option Q)
    (v0 : Q) :
  calculate_acceleration self None ls v0 = free_flow self v0.
Proof. reflexivity. Qed.

Lemma speed_div_ok (v : Q) (np : bool) (v0 : Q) :
  ~ (v0 == 0 /\ np = false) -> exists r, speed_div v np v0 = Ok r.
Proof.
  intros H. unfold speed_div.
  destruct (Qeq_bool v0 0) eqn:E0; [| eauto].
  destruct np; [eauto |].
  apply Qeq_bool_iff in E0. tauto.
Qed.

Lemma speed_div_Raise (v : Q) (np : bool) (v0 : Q) :
  v0 == 0 -> np = false -> speed_div v np v0 = Raise ZeroDivisionError.
Proof.
  intros H ->. unfold speed_div. apply Qeq_bool_iff in H. now rewrite H.
Qed.

(** ** The per-vehicle update, case by case *)

(** The outcomes of a successful [_update_vehicle_position]. *)
Lemma update_vehicle_cases (self s' : TrafficSimulation) (vid : nat) :
  _update_vehicle_position self vid = Ok s' ->
  exists v, objs self !! vid = Some v /\
  (((length (route v) < 2)%nat \/ current_edge v = None) /\
    s' = store self vid (set_completed v true)
   \/
   (2 <= length (route v))%nat /\
   exists u w key info can accel,
     let cur : Edge := (u, w, key) in
     let ev := touch (edge_vehicles self) cur in
     let v1 := integrated v can accel (time_step self) in
     current_edge v = Some cur /\
     get_edge_info (network self) u w key = Ok info /\
     (exists ld ls,
        calculate_acceleration (set_waiting_at_signal v (negb can)) ld ls
          (if can then speed_limit info else 0) = Ok accel) /\
     (Qgeb (speed v1 * time_step self) (edge_length info * (5 # 10)) = false /\
      s' = store (set_edge_vehicles self ev) vid
             (set_stats v1
                (mkVehicleStats (total_distance (stats v1))
                   (total_time (stats v1) + time_step self) (stops (stats v1))
                   (lane_changes (stats v1)) (average_speed (stats v1))
                   (stats_max_speed (stats v1))
                   (time_in_congestion (stats v1))))
      \/
      Qgeb (speed v1 * time_step self) (edge_length info * (5 # 10)) = true /\
      ((exists n pos,
          next_on_route (route v) w = Some n /\
          get_node_position (network self) w = Ok pos /\
          s' = store
                 (set_edge_vehicles self
                    (attach (detach ev cur vid) (w, n, 0%Z) vid))
                 vid
                 (update_position
                    (set_current_edge v1 (Some (w, n, 0%Z))) pos
                    (time_step self)))
       \/
       next_on_route (route v) w = None /\
       s' = store (set_edge_vehicles self (detach ev cur vid)) vid
              (set_completed v1 true)))).
Proof.
  unfold _update_vehicle_position. intros H.
  inv_bind H. unfold deref in Hbind.
  destruct (objs self !! vid) as [v |] eqn:Hv; [| discriminate].
  inversion Hbind; subst a; clear Hbind.
  exists v. split; [reflexivity |].
  destruct (length (route v) <? 2)%nat eqn:Hlen.
  { left. apply Nat.ltb_lt in Hlen. inversion H; auto. }
  apply Nat.ltb_ge in Hlen.
  destruct (current_edge v) as [[[u w] key] |] eqn:Hcur.
  2:{ left. inversion H; auto. }
  right. split; [exact Hlen |].
  inv_bind H. rename a into info.
  inv_bind H. rename a into can.
  inv_bind H. destruct a as [ld ls].
  inv_bind H. rename a into accel.
  exists u, w, key, info, can, accel. cbn zeta.
  split; [reflexivity |]. split; [assumption |].
  split; [exists ld, ls; assumption |].
  change (set_acceleration
            (set_speed (set_waiting_at_signal v (negb can))
               (integrate_speed
                  (speed (set_waiting_at_signal v (negb can))) accel
                  (time_step
                     (set_edge_vehicles self
                        (touch (edge_vehicles self) (u, w, key)))))
               (integrate_is_numpy
                  (speed (set_waiting_at_signal v (negb can))) accel
                  (time_step
                     (set_edge_vehicles self
                        (touch (edge_vehicles self) (u, w, key))))))
            accel)
    with (integrated v can accel (time_step self)) in H.
  cbn [time_step set_edge_vehicles network edge_vehicles] in H.
  destruct (Qgeb _ _) eqn:Hreach.
  - right. split; [reflexivity |].
    change (route (integrated v can accel (time_step self)))
      with (route v) in H.
    destruct (next_on_route (route v) w) as [n |] eqn:Hnext.
    + left. inv_bind H. inversion H; subst s'.
      exists n, a. auto.
    + right. inversion H; auto.
  - left. split; [reflexivity |]. inversion H; auto.
Qed.

(** The speed written by a successful per-vehicle update. *)
Lemma update_vehicle_speed (self s' : TrafficSimulation) (vid : nat)
    (v : Vehicle) :
  objs self !! vid = Some v ->
  0 <= speed v ->
  _update_vehicle_position self vid = Ok s' ->
  exists v', objs s' !! vid = Some v' /\
    0 <= speed v' /\
    ((2 <= length (route v))%nat -> current_edge v <> None ->
     speed v' = integrate_speed (speed v) (acceleration v') (time_step self)).
Proof.
  intros Hv Hpos Hup.
  destruct (update_vehicle_cases _ _ _ Hup) as (v0 & Hv0 & Hcases).
  rewrite Hv in Hv0. inversion Hv0; subst v0; clear Hv0.
  destruct Hcases as [[Hearly ->] | (Hlen & u & w & key & info & can & accel & Hc)].
  - eexists. split; [apply lookup_insert_eq |]. split; [exact Hpos |].
    intros Hl Hn. destruct Hearly; [lia | contradiction].
  - cbn zeta in Hc.
    destruct Hc as (Hcur & Hinfo & _ & [[_ ->] | [_ [(n & pos & _ & _ & ->) | [_ ->]]]]);
      (eexists; split; [apply lookup_insert_eq |]);
      (split; [apply integrate_speed_nonneg | reflexivity]).
Qed.

(** ** Python list operations *)

Lemma py_remove_subseteq (i x : nat) (l : list nat) :
  x ∈ py_remove i l -> x ∈ l.
Proof.
  induction l as [| y l IH]; cbn; [auto |].
  destruct (decide (i = y)).
  - intros H. now apply elem_of_cons; right.
  - rewrite !elem_of_cons. intros [-> | H]; auto.
Qed.

Lemma py_remove_NoDup (i : nat) (l : list nat) :
  NoDup l -> NoDup (py_remove i l).
Proof.
  induction 1 as [| y l Hy Hl IH]; cbn; [constructor |].
  destruct (decide (i = y)); [assumption |].
  constructor; [| assumption].
  intros H. apply Hy. eapply py_remove_subseteq, H.
Qed.

Lemma py_remove_not_elem (i : nat) (l : list nat) :
  NoDup l -> i ∉ py_remove i l.
Proof.
  induction 1 as [| y l Hy Hl IH]; cbn; [apply not_elem_of_nil |].
  destruct (decide (i = y)) as [-> | Hne]; [assumption |].
  rewrite elem_of_cons. intros [? | ?]; [congruence | contradiction].
Qed.

Lemma py_remove_other (i x : nat) (l : list nat) :
  x <> i -> x ∈ l -> x ∈ py_remove i l.
Proof.
  intros Hne. induction l as [| y l IH]; cbn; [auto |].
  rewrite elem_of_cons. destruct (decide (i = y)) as [-> | Hiy].
  - intros [-> | H]; [contradiction | assumption].
  - rewrite elem_of_cons. intros [-> | H]; auto.
Qed.

Lemma py_remove_length (i : nat) (l : list nat) :
  i ∈ l -> S (length (py_remove i l)) = length l.
Proof.
  induction l as [| y l IH]; cbn.
  - intros H. now apply not_elem_of_nil in H.
  - destruct (decide (i = y)) as [-> | Hiy]; [reflexivity |].
    rewrite elem_of_cons. intros [? | H]; [contradiction |].
    cbn. now rewrite IH.
Qed.

Lemma py_remove_absent (i : nat) (l : list nat) :
  i ∉ l -> py_remove i l = l.
Proof.
  induction l as [| y l IH]; cbn; [reflexivity |].
  rewrite not_elem_of_cons. intros [Hne Hl].
  destruct (decide (i = y)); [contradiction |]. now rewrite IH.
Qed.

Lemma py_index_Some_elem `{EqDecision A} (x : A) (l : list A) (n : nat) :
  py_index x l = Some n -> l !! n = Some x.
Proof.
  revert n. induction l as [| y l IH]; cbn; intros n; [discriminate |].
  destruct (decide (x = y)) as [-> | Hne].
  - intros [= <-]. reflexivity.
  - destruct (py_index x l) as [m |]; cbn; [| discriminate].
    intros [= <-]. cbn. now apply IH.
Qed.

Lemma py_index_None `{EqDecision A} (x : A) (l : list A) :
  py_index x l = None <-> x ∉ l.
Proof.
  induction l as [| y l IH]; cbn.
  - split; [intros _; apply not_elem_of_nil | reflexivity].
  - rewrite not_elem_of_cons. destruct (decide (x = y)) as [-> | Hne].
    + split; [discriminate | intros [? _]; contradiction].
    + destruct (py_index x l) as [m |]; cbn.
      * split; [discriminate |]. intros [_ H]. apply IH in H. discriminate.
      * split; [| reflexivity]. intros _. split; [assumption |].
        now apply IH.
Qed.

Lemma py_index_first `{EqDecision A} (x : A) (pre post : list A) :
  x ∉ pre -> py_index x (pre ++ x :: post) = Some (length pre).
Proof.
  induction pre as [| y pre IH]; cbn.
  - intros _. now rewrite decide_True.
  - rewrite not_elem_of_cons. intros [Hne Hpre].
    rewrite decide_False by assumption. now rewrite IH.
Qed.

(** ** The route cursor *)

(** On a route [pre ++ w :: n :: post] that does not visit [w] before, the
    node after [w] is [n]. *)
Lemma next_on_route_step (pre post : list Z) (w n : Z) :
  w ∉ pre -> next_on_route (pre ++ w :: n :: post) w = Some n.
Proof.
  intros Hpre. unfold next_on_route. rewrite py_index_first by assumption.
  rewrite length_app. cbn [length].
  destruct (_ <? _)%nat eqn:E.
  - replace (length pre + 1)%nat with (length pre + 1 + 0)%nat by lia.
    rewrite <- Nat.add_assoc. rewrite lookup_app_r by lia.
    replace (length pre + (1 + 0) - length pre)%nat with 1%nat by lia.
    reflexivity.
  - apply Nat.ltb_ge in E. lia.
Qed.

(** When the first occurrence of [w] is the last node of the route, there
    is no next node. *)
Lemma next_on_route_last (pre : list Z) (w : Z) :
  w ∉ pre -> next_on_route (pre ++ [w]) w = None.
Proof.
  intros Hpre. unfold next_on_route. rewrite py_index_first by assumption.
  rewrite length_app. cbn [length].
  destruct (_ <? _)%nat eqn:E; [| reflexivity].
  apply Nat.ltb_lt in E. lia.
Qed.

(** ** Occupancy lists *)

Lemma occupancy_insert_eq (ev : gmap Edge (list nat)) (e : Edge)
    (l : list nat) :
  occupancy (<[e := l]> ev) e = l.
Proof. unfold occupancy. now rewrite lookup_insert_eq. Qed.

Lemma occupancy_insert_ne (ev : gmap Edge (list nat)) (e e' : Edge)
    (l : list nat) :
  e <> e' -> occupancy (<[e := l]> ev) e' = occupancy ev e'.
Proof. intros H. unfold occupancy. now rewrite lookup_insert_ne. Qed.

Lemma occupancy_touch (ev : gmap Edge (list nat)) (e e' : Edge) :
  occupancy (touch ev e) e' = occupancy ev e'.
Proof.
  unfold touch. destruct (decide (e = e')) as [-> | Hne].
  - apply occupancy_insert_eq.
  - now apply occupancy_insert_ne.
Qed.

Lemma occupancy_attach_eq (ev : gmap Edge (list nat)) (e : Edge) (i : nat) :
  occupancy (attach ev e i) e = occupancy ev e ++ [i].
Proof. apply occupancy_insert_eq. Qed.

Lemma occupancy_attach_ne (ev : gmap Edge (list nat)) (e e' : Edge)
    (i : nat) :
  e <> e' -> occupancy (attach ev e i) e' = occupancy ev e'.
Proof. apply occupancy_insert_ne. Qed.

Lemma occupancy_detach_eq (ev : gmap Edge (list nat)) (e : Edge) (i : nat) :
  occupancy (detach ev e i) e = py_remove i (occupancy ev e).
Proof. apply occupancy_insert_eq. Qed.

Lemma occupancy_detach_ne (ev : gmap Edge (list nat)) (e e' : Edge)
    (i : nat) :
  e <> e' -> occupancy (detach ev e i) e' = occupancy ev e'.
Proof. apply occupancy_insert_ne. Qed.

Lemma total_occupancy_fresh (ev : gmap Edge (list nat)) (e : Edge)
    (l : list nat) :
  ev !! e = None ->
  total_occupancy (<[e := l]> ev) = (length l + total_occupancy ev)%nat.
Proof.
  intros H. unfold total_occupancy.
  apply (map_fold_insert_L (fun _ l n => (length l + n)%nat)); [| exact H].
  intros. lia.
Qed.

(** Replacing the list of an edge changes the total by the difference of
    the lengths. *)
Lemma total_occupancy_insert (ev : gmap Edge (list nat)) (e : Edge)
    (l : list nat) :
  (total_occupancy (<[e := l]> ev) + length (occupancy ev e))%nat
  = (total_occupancy ev + length l)%nat.
Proof.
  unfold occupancy. destruct (ev !! e) as [l0 |] eqn:He; cbn.
  - rewrite <- (insert_delete_eq ev e l).
    rewrite total_occupancy_fresh by apply lookup_delete_eq.
    rewrite <- (insert_delete_id ev e l0 He) at 2.
    rewrite total_occupancy_fresh by apply lookup_delete_eq. lia.
  - rewrite total_occupancy_fresh by assumption. lia.
Qed.

Lemma total_occupancy_touch (ev : gmap Edge (list nat)) (e : Edge) :
  total_occupancy (touch ev e) = total_occupancy ev.
Proof.
  pose proof (total_occupancy_insert ev e (occupancy ev e)) as H.
  unfold touch. lia.
Qed.

(** ** Counting the running vehicles *)

Lemma filter_length_ext (f g : nat -> bool) (l : list nat) :
  (forall i, i ∈ l -> f i = g i) ->
  length (List.filter f l) = length (List.filter g l).
Proof.
  induction l as [| x l IH]; cbn; [reflexivity |].
  intros H. rewrite (H x) by (apply elem_of_cons; now left).
  assert (Hl : forall i, i ∈ l -> f i = g i).
  { intros i Hi. apply H. apply elem_of_cons. now right. }
  specialize (IH Hl). destruct (g x); cbn; lia.
Qed.

(** One element of a duplicate-free list stops passing the test. *)
Lemma filter_length_flip (f g : nat -> bool) (l : list nat) (i : nat) :
  NoDup l -> i ∈ l -> f i = true -> g i = false ->
  (forall j, j <> i -> g j = f j) ->
  S (length (List.filter g l)) = length (List.filter f l).
Proof.
  intros Hnd Hi Hf Hg Hother.
  induction Hnd as [| x l Hx Hnd IH]; [now apply not_elem_of_nil in Hi |].
  apply elem_of_cons in Hi. cbn. destruct Hi as [<- | Hi].
  - rewrite Hf, Hg. cbn. f_equal. apply filter_length_ext.
    intros j Hj. apply Hother. intros ->. contradiction.
  - assert (Hne : x <> i) by (intros ->; contradiction).
    rewrite (Hother x Hne). specialize (IH Hi).
    destruct (f x); cbn; lia.
Qed.

Lemma filter_py_remove (f : nat -> bool) (l : list nat) (i : nat) :
  f i = false -> List.filter f (py_remove i l) = List.filter f l.
Proof.
  intros Hf. induction l as [| x l IH]; cbn; [reflexivity |].
  destruct (decide (i = x)) as [<- | Hne].
  - now rewrite Hf.
  - cbn. now rewrite IH.
Qed.

Lemma filter_length_snoc (f : nat -> bool) (l : list nat) (i : nat) :
  length (List.filter f (l ++ [i]))
  = (length (List.filter f l) + if f i then 1 else 0)%nat.
Proof.
  rewrite List.filter_app, length_app. cbn. destruct (f i); reflexivity.
Qed.

Lemma obj_test_insert_eq (o : gmap nat Vehicle) (f : Vehicle -> bool)
    (i : nat) (v : Vehicle) :
  obj_test (<[i := v]> o) f i = f v.
Proof. unfold obj_test. now rewrite lookup_insert_eq. Qed.

Lemma obj_test_insert_ne (o : gmap nat Vehicle) (f : Vehicle -> bool)
    (i j : nat) (v : Vehicle) :
  i <> j -> obj_test (<[i := v]> o) f j = obj_test o f j.
Proof. intros H. unfold obj_test. now rewrite lookup_insert_ne. Qed.

(** ** Vehicle constructors *)

Lemma make_vehicle_fields (ty : string) (i : nat) (t : Q) (o d : Q * Q)
    (rt : list Z) (a p : Q) :
  route (make_vehicle ty i t o d rt a p) = rt /\
  completed (make_vehicle ty i t o d rt a p) = false /\
  speed (make_vehicle ty i t o d rt a p) = 0.
Proof.
  unfold make_vehicle.
  repeat match goal with |- context [String.eqb ?a ?b] =>
    destruct (String.eqb a b) end; repeat split; reflexivity.
Qed.

(** ** The occupancy invariant *)

Lemma occupancy_empty (e : Edge) : occupancy ∅ e = [].
Proof. unfold occupancy. now rewrite lookup_empty. Qed.

Lemma inv_new (dt : Q) (net : BellevueRoadNetwork)
    (sigs : gmap Z TrafficSignal) :
  occupancy_inv (new_simulation dt net sigs).
Proof.
  constructor; cbn.
  - constructor.
  - intros i v H. now rewrite lookup_empty in H.
  - intros i H. now apply not_elem_of_nil in H.
  - intros e i H. rewrite occupancy_empty in H. now apply not_elem_of_nil in H.
  - intros e. rewrite occupancy_empty. constructor.
  - intros i v H. now apply not_elem_of_nil in H.
  - reflexivity.
Qed.

(** The invariant gives the occupancy property. *)
Lemma inv_occupancy_ok (self : TrafficSimulation) :
  occupancy_inv self -> occupancy_ok self.
Proof.
  intros I. repeat split.
  - intros i e1 e2 H1 H2.
    destruct (inv_lists _ I _ _ H1) as (_ & v1 & Hv1 & _ & Hc1).
    destruct (inv_lists _ I _ _ H2) as (_ & v2 & Hv2 & _ & Hc2).
    congruence.
  - apply (inv_nodup _ I).
  - apply (inv_running _ I).
  - intros i v e _ Hv Hc Hin.
    destruct (inv_lists _ I _ _ Hin) as (_ & v' & Hv' & Hc' & _).
    congruence.
  - apply (inv_count _ I).
Qed.

(** One vehicle that is not completed is rewritten and the occupancy lists
    change for that vehicle only. *)
Lemma inv_step (self : TrafficSimulation) (vid : nat) (v v' : Vehicle)
    (ev' : gmap Edge (list nat)) :
  occupancy_inv self ->
  vid ∈ vehicles self ->
  objs self !! vid = Some v ->
  completed v = false ->
  length (route v') = length (route v) ->
  current_edge v' <> None ->
  (forall e, NoDup (occupancy ev' e)) ->
  (forall e i, i <> vid ->
     (i ∈ occupancy ev' e <-> i ∈ occupancy (edge_vehicles self) e)) ->
  (forall e, vid ∈ occupancy ev' e <->
     completed v' = false /\ current_edge v' = Some e) ->
  (total_occupancy ev' + (if completed v' then 1 else 0))%nat
    = total_occupancy (edge_vehicles self) ->
  occupancy_inv (store (set_edge_vehicles self ev') vid v').
Proof.
  intros I Hact Hv Hrun Hroute Hedge Hnd Hother Hvid Htot.
  constructor; cbn [store set_objs set_edge_vehicles vehicles objs
                    edge_vehicles next_vehicle_id].
  - apply (inv_keys _ I).
  - intros i x. rewrite lookup_insert. case_decide as Hi.
    + intros [= <-]. subst i.
      destruct (inv_store _ I _ _ Hv) as (Hlt & Hlen & _).
      repeat split; [assumption | lia | assumption].
    + apply (inv_store _ I).
  - intros i Hi. rewrite lookup_insert. case_decide; [eauto |].
    now apply (inv_active _ I).
  - intros e i Hi. destruct (decide (i = vid)) as [-> | Hne].
    + apply Hvid in Hi. destruct Hi as [Hc He].
      split; [assumption |]. exists v'. now rewrite lookup_insert_eq.
    + apply Hother in Hi; [| assumption].
      destruct (inv_lists _ I _ _ Hi) as (Hin & x & Hx & Hcx & Hex).
      split; [assumption |]. exists x. now rewrite lookup_insert_ne.
  - apply Hnd.
  - intros i x Hi. rewrite lookup_insert. case_decide as Hvi.
    + intros [= <-] Hc. subst i.
      destruct (current_edge v') as [e |] eqn:He; [| contradiction].
      exists e. split; [reflexivity |]. apply Hvid. auto.
    + intros Hx Hc.
      destruct (inv_running _ I _ _ Hi Hx Hc) as (e & He & Hin).
      exists e. split; [assumption |]. apply Hother; auto.
  - unfold active_running.
    cbn [store set_objs set_edge_vehicles vehicles objs].
    pose proof (inv_count _ I) as Hcount. unfold active_running in Hcount.
    destruct (completed v') eqn:Hc'.
    + assert (S (length (List.filter
                 (obj_test (<[vid := v']> (objs self))
                    (fun x => negb (completed x))) (vehicles self)))
              = length (List.filter
                 (obj_test (objs self) (fun x => negb (completed x)))
                 (vehicles self))) as Hflip.
      { apply (filter_length_flip _ _ _ vid); [apply (inv_keys _ I) | assumption | | |].
        - unfold obj_test. now rewrite Hv, Hrun.
        - rewrite obj_test_insert_eq. now rewrite Hc'.
        - intros j Hj. now apply obj_test_insert_ne. }
      lia.
    + rewrite Nat.add_0_r in Htot. rewrite Htot, Hcount.
      apply filter_length_ext. intros i _.
      destruct (decide (vid = i)) as [<- | Hne].
      * rewrite obj_test_insert_eq. unfold obj_test. now rewrite Hv, Hrun, Hc'.
      * symmetry. now apply obj_test_insert_ne.
Qed.

(** The per-vehicle update writes one object and no key of the active set. *)
Lemma update_vehicle_frame (self s' : TrafficSimulation) (vid : nat) :
  _update_vehicle_position self vid = Ok s' ->
  vehicles s' = vehicles self /\
  next_vehicle_id s' = next_vehicle_id self /\
  (forall j, j <> vid -> objs s' !! j = objs self !! j).
Proof.
  intros Hup.
  destruct (update_vehicle_cases _ _ _ Hup) as (v & Hv & Hcases).
  assert (Hstore : forall s x, vehicles (store s vid x) = vehicles s /\
            next_vehicle_id (store s vid x) = next_vehicle_id s /\
            (forall j, j <> vid -> objs (store s vid x) !! j = objs s !! j)).
  { intros s x. repeat split. intros j Hj. cbn. now apply lookup_insert_ne. }
  destruct Hcases as [[_ ->] | (_ & u & w & key & info & can & accel & Hc)].
  - apply Hstore.
  - cbn zeta in Hc.
    destruct Hc as (_ & _ & _ & [[_ ->] | [_ [(n & pos & _ & _ & ->) | [_ ->]]]]);
      match goal with |- context [store ?s vid ?x] => apply (Hstore s x) end.
Qed.

(** [_update_vehicle_position] on an active vehicle that is not completed
    preserves the invariant. *)
Lemma inv_update (self s' : TrafficSimulation) (vid : nat) (v : Vehicle) :
  occupancy_inv self ->
  vid ∈ vehicles self ->
  objs self !! vid = Some v ->
  completed v = false ->
  _update_vehicle_position self vid = Ok s' ->
  occupancy_inv s'.
Proof.
  intros I Hact Hv Hrun Hup.
  destruct (update_vehicle_cases _ _ _ Hup) as (v0 & Hv0 & Hcases).
  rewrite Hv in Hv0. inversion Hv0; subst v0; clear Hv0.
  destruct (inv_store _ I _ _ Hv) as (_ & Hlen & Hedge).
  destruct Hcases as [[Hearly _] | (_ & u & w & key & info & can & accel & Hc)].
  { destruct Hearly; [lia | contradiction]. }
  cbn zeta in Hc. destruct Hc as (Hcur & _ & _ & Hout).
  set (cur := (u, w, key)) in *.
  (* the lists of the vehicle before the update *)
  assert (Hon : vid ∈ occupancy (edge_vehicles self) cur).
  { destruct (inv_running _ I _ _ Hact Hv Hrun) as (e & He & Hin). congruence. }
  assert (Honly : forall e, vid ∈ occupancy (edge_vehicles self) e -> e = cur).
  { intros e Hin. destruct (inv_lists _ I _ _ Hin) as (_ & x & Hx & _ & Hex).
    congruence. }
  pose proof (inv_nodup _ I) as Hnd.
  (* the lists after the vehicle has been detached *)
  assert (Hdet_nd : forall e,
    NoDup (occupancy (detach (touch (edge_vehicles self) cur) cur vid) e)).
  { intros e. destruct (decide (cur = e)) as [<- | Hne].
    - rewrite occupancy_detach_eq, occupancy_touch. apply py_remove_NoDup, Hnd.
    - rewrite occupancy_detach_ne, occupancy_touch by assumption. apply Hnd. }
  assert (Hdet_other : forall e i, i <> vid ->
    (i ∈ occupancy (detach (touch (edge_vehicles self) cur) cur vid) e
     <-> i ∈ occupancy (edge_vehicles self) e)).
  { intros e i Hi. destruct (decide (cur = e)) as [<- | Hne].
    - rewrite occupancy_detach_eq, occupancy_touch. split.
      + apply py_remove_subseteq.
      + now apply py_remove_other.
    - now rewrite occupancy_detach_ne, occupancy_touch by assumption. }
  assert (Hdet_vid : forall e,
    vid ∉ occupancy (detach (touch (edge_vehicles self) cur) cur vid) e).
  { intros e. destruct (decide (cur = e)) as [<- | Hne].
    - rewrite occupancy_detach_eq, occupancy_touch. apply py_remove_not_elem, Hnd.
    - rewrite occupancy_detach_ne, occupancy_touch by assumption.
      intros Hin. apply Honly in Hin. congruence. }
  assert (Hdet_tot :
    S (total_occupancy (detach (touch (edge_vehicles self) cur) cur vid))
    = total_occupancy (edge_vehicles self)).
  { pose proof (total_occupancy_insert (touch (edge_vehicles self) cur) cur
                  (py_remove vid (occupancy (touch (edge_vehicles self) cur) cur)))
      as Hins.
    rewrite occupancy_touch in Hins. rewrite total_occupancy_touch in Hins.
    pose proof (py_remove_length vid _ Hon) as Hrem.
    unfold detach. rewrite occupancy_touch. lia. }
  destruct Hout as [[_ ->] | [_ [(n & pos & _ & _ & ->) | [_ ->]]]].
  - (* the vehicle stays on its edge *)
    apply (inv_step self vid v); try assumption; try reflexivity.
    + intros e. rewrite occupancy_touch. apply Hnd.
    + intros e i _. now rewrite occupancy_touch.
    + intros e. rewrite occupancy_touch. cbn. rewrite Hrun, Hcur. split.
      * intros Hin. apply Honly in Hin. subst e. auto.
      * intros [_ [= <-]]. exact Hon.
    + change (completed (set_stats _ _)) with (completed v).
      rewrite Hrun, total_occupancy_touch. lia.
  - (* the vehicle moves to the next edge of its route *)
    apply (inv_step self vid v); try assumption; try reflexivity.
    + cbn. discriminate.
    + intros e. destruct (decide ((w, n, 0%Z) = e)) as [<- | Hne].
      * rewrite occupancy_attach_eq. apply NoDup_app.
        split; [apply Hdet_nd |]. split; [| apply NoDup_singleton].
        intros x Hx Hx'. apply list_elem_of_singleton in Hx'. subst x.
        now apply Hdet_vid in Hx.
      * rewrite occupancy_attach_ne by assumption. apply Hdet_nd.
    + intros e i Hi. rewrite <- Hdet_other by assumption.
      destruct (decide ((w, n, 0%Z) = e)) as [<- | Hne].
      * rewrite occupancy_attach_eq, elem_of_app, list_elem_of_singleton. tauto.
      * now rewrite occupancy_attach_ne by assumption.
    + intros e.
      change (completed (update_position _ _ _)) with (completed v).
      change (current_edge (update_position _ _ _)) with (Some (w, n, 0%Z)).
      rewrite Hrun.
      destruct (decide ((w, n, 0%Z) = e)) as [<- | Hne].
      * rewrite occupancy_attach_eq, elem_of_app, list_elem_of_singleton. tauto.
      * rewrite occupancy_attach_ne by assumption. split.
        -- intros Hin. now apply Hdet_vid in Hin.
        -- intros [_ [= He]]. contradiction.
    + change (completed (update_position _ _ _)) with (completed v).
      rewrite Hrun, Nat.add_0_r.
      pose proof (total_occupancy_insert
                    (detach (touch (edge_vehicles self) cur) cur vid)
                    (w, n, 0%Z)
                    (occupancy (detach (touch (edge_vehicles self) cur) cur vid)
                       (w, n, 0%Z) ++ [vid])) as Hins.
      rewrite length_app in Hins. cbn [length] in Hins.
      unfold attach. lia.
  - (* the vehicle completes its route *)
    apply (inv_step self vid v); try assumption; try reflexivity.
    + intros e. change (completed (set_completed _ true)) with true. split.
      * intros Hin. now apply Hdet_vid in Hin.
      * intros [[=] _].
    + change (completed (set_completed _ true)) with true. cbv iota. lia.
Qed.

(** Ids of the active set and of the occupancy lists are below the id
    counter. *)
Lemma inv_active_below (self : TrafficSimulation) (i : nat) :
  occupancy_inv self -> i ∈ vehicles self -> (i < next_vehicle_id self)%nat.
Proof.
  intros I Hi. destruct (inv_active _ I _ Hi) as [v Hv].
  now destruct (inv_store _ I _ _ Hv).
Qed.

(** [_spawn_vehicle] preserves the invariant. *)
Lemma inv_spawn (self : TrafficSimulation) (now : Q) (vehicle_type : string)
    (orig dest : Q * Q) (draw_a draw_p : Q) :
  occupancy_inv self ->
  occupancy_inv (_spawn_vehicle self now vehicle_type orig dest draw_a draw_p).
Proof.
  intros I. unfold _spawn_vehicle.
  cbn [network set_next_vehicle_id next_vehicle_id].
  set (n := next_vehicle_id self).
  set (rt := find_route (network self) orig dest).
  assert (Hfresh : n ∉ vehicles self).
  { intros Hin. apply (inv_active_below _ _ I) in Hin. subst n. lia. }
  assert (Hnone : objs self !! n = None).
  { destruct (objs self !! n) as [x |] eqn:Hx; [| reflexivity].
    destruct (inv_store _ I _ _ Hx). subst n. lia. }
  assert (Hoff : forall e, n ∉ occupancy (edge_vehicles self) e).
  { intros e Hin. now destruct (inv_lists _ I _ _ Hin). }
  destruct (length rt <? 2)%nat eqn:Hlen.
  { (* dropped: only the id counter moves *)
    destruct I. constructor; cbn; try assumption.
    intros i v Hv. destruct (inv_store0 i v Hv) as (? & ? & ?).
    repeat split; try assumption. fold n. lia. }
  apply Nat.ltb_ge in Hlen.
  destruct rt as [| r0 [| r1 rest]] eqn:Hrt; cbn [length] in Hlen; try lia.
  destruct (make_vehicle_fields vehicle_type n now orig dest rt draw_a draw_p)
    as (Hroute & Hcompl & _).
  rewrite Hrt in Hroute, Hcompl.
  set (mv := make_vehicle vehicle_type n now orig dest (r0 :: r1 :: rest)
               draw_a draw_p) in *.
  set (e0 := (r0, r1, 0%Z) : Edge).
  unfold dict_add_key. cbn [vehicles set_objs store set_edge_vehicles].
  rewrite decide_False by assumption.
  constructor;
    cbn [set_sim_stats set_vehicles store set_objs set_edge_vehicles vehicles
         objs edge_vehicles next_vehicle_id set_next_vehicle_id].
  - apply NoDup_app. split; [apply (inv_keys _ I) |].
    split; [| apply NoDup_singleton].
    intros x Hx Hx'. apply list_elem_of_singleton in Hx'. now subst x.
  - intros i v. rewrite lookup_insert. case_decide as Hi.
    + intros [= <-]. subst i. repeat split.
      * lia.
      * change (route (set_current_edge mv (Some e0))) with (route mv).
        rewrite Hroute. cbn. lia.
      * discriminate.
    + intros Hv. destruct (inv_store _ I _ _ Hv) as (? & ? & ?).
      repeat split; try assumption. fold n. lia.
  - intros i. rewrite elem_of_app, list_elem_of_singleton, lookup_insert.
    case_decide; [eauto |]. intros [Hi | ->]; [| contradiction].
    now apply (inv_active _ I).
  - intros e i Hi.
    assert (Hcases : (e = e0 /\ i = n) \/ i ∈ occupancy (edge_vehicles self) e).
    { destruct (decide (e0 = e)) as [<- | Hne].
      - rewrite occupancy_attach_eq, elem_of_app, list_elem_of_singleton in Hi.
        tauto.
      - rewrite occupancy_attach_ne in Hi by assumption. now right. }
    destruct Hcases as [[-> ->] | Hold].
    + split; [apply elem_of_app; right; now apply list_elem_of_singleton |].
      eexists. rewrite lookup_insert_eq. split; [reflexivity |].
      split; [exact Hcompl | reflexivity].
    + destruct (inv_lists _ I _ _ Hold) as (Hin & x & Hx & Hcx & Hex).
      split; [apply elem_of_app; now left |].
      exists x. rewrite lookup_insert_ne; [auto |].
      intros <-. contradiction.
  - intros e. destruct (decide (e0 = e)) as [<- | Hne].
    + rewrite occupancy_attach_eq. apply NoDup_app.
      split; [apply (inv_nodup _ I) |]. split; [| apply NoDup_singleton].
      intros x Hx Hx'. apply list_elem_of_singleton in Hx'. subst x.
      now apply Hoff in Hx.
    + rewrite occupancy_attach_ne by assumption. apply (inv_nodup _ I).
  - intros i v. rewrite elem_of_app, list_elem_of_singleton, lookup_insert.
    case_decide as Hi.
    + intros _ [= <-] _. exists e0. split; [reflexivity |].
      rewrite occupancy_attach_eq. apply elem_of_app. right.
      now apply list_elem_of_singleton.
    + intros [Hin | ->] Hv Hc; [| contradiction].
      destruct (inv_running _ I _ _ Hin Hv Hc) as (e & He & Hon).
      exists e. split; [assumption |].
      destruct (decide (e0 = e)) as [<- | Hne].
      * rewrite occupancy_attach_eq. apply elem_of_app. now left.
      * now rewrite occupancy_attach_ne by assumption.
  - unfold active_running.
    cbn [set_sim_stats set_vehicles store set_objs set_edge_vehicles vehicles
         objs set_next_vehicle_id].
    rewrite filter_length_snoc, obj_test_insert_eq.
    change (completed (set_current_edge mv (Some e0))) with (completed mv).
    rewrite Hcompl. cbn [negb].
    pose proof (total_occupancy_insert (edge_vehicles self) e0
                  (occupancy (edge_vehicles self) e0 ++ [n])) as Hins.
    rewrite length_app in Hins. cbn [length] in Hins.
    pose proof (inv_count _ I) as Hcount. unfold active_running in Hcount.
    assert (Hsame :
      length (List.filter
                (obj_test (<[n := set_current_edge mv (Some e0)]> (objs self))
                   (fun v => negb (completed v))) (vehicles self))
      = length (List.filter
                  (obj_test (objs self) (fun v => negb (completed v)))
                  (vehicles self))).
    { apply filter_length_ext. intros i Hi. apply obj_test_insert_ne.
      intros <-. contradiction. }
    unfold attach. lia.
Qed.

(** Updating the signals does not touch the vehicles. *)
Lemma inv_set_signals (self : TrafficSimulation)
    (sigs : gmap Z TrafficSignal) :
  occupancy_inv self -> occupancy_inv (set_signals self sigs).
Proof. intros []. constructor; assumption. Qed.

(** Retiring a completed vehicle preserves the invariant. *)
Lemma inv_retire (self : TrafficSimulation) (i : nat) (l : list nat)
    (st : SimStats) :
  occupancy_inv self ->
  obj_test (objs self) completed i = true ->
  occupancy_inv
    (set_sim_stats
       (set_completed_vehicles
          (set_vehicles self (py_remove i (vehicles self))) l) st).
Proof.
  intros I Hdone.
  assert (Hkeep : forall j, j ∈ vehicles self ->
            obj_test (objs self) completed j = false ->
            j ∈ py_remove i (vehicles self)).
  { intros j Hj Hcj. apply py_remove_other; [| assumption].
    intros ->. congruence. }
  constructor;
    cbn [set_sim_stats set_completed_vehicles set_vehicles vehicles objs
         edge_vehicles next_vehicle_id].
  - apply py_remove_NoDup, (inv_keys _ I).
  - apply (inv_store _ I).
  - intros j Hj. apply (inv_active _ I). eapply py_remove_subseteq, Hj.
  - intros e j Hj. destruct (inv_lists _ I _ _ Hj) as (Hin & x & Hx & Hcx & Hex).
    split; [| eauto]. apply Hkeep; [assumption |].
    unfold obj_test. now rewrite Hx.
  - apply (inv_nodup _ I).
  - intros j x Hj. apply (inv_running _ I). eapply py_remove_subseteq, Hj.
  - unfold active_running.
    cbn [set_sim_stats set_completed_vehicles set_vehicles vehicles objs].
    rewrite filter_py_remove.
    + apply (inv_count _ I).
    + unfold obj_test in *. destruct (objs self !! i); [| reflexivity].
      now rewrite Hdone.
Qed.

(** The first loop of a vehicle tick keeps the invariant and the active
    set, and queues completed active vehicles only. *)
Lemma update_loop_inv (ids : list nat) :
  forall (self s' : TrafficSimulation) (rem rem' : list nat),
    occupancy_inv self ->
    (forall i, i ∈ ids -> i ∈ vehicles self) ->
    (forall i, i ∈ rem -> obj_test (objs self) completed i = true) ->
    update_loop ids self rem = Ok (s', rem') ->
    occupancy_inv s' /\
    (forall i, i ∈ rem' -> obj_test (objs s') completed i = true).
Proof.
  induction ids as [| vid ids IH]; intros self s' rem rem' I Hids Hrem Hloop.
  - cbn in Hloop. inversion Hloop; subst. auto.
  - cbn [update_loop] in Hloop. inv_bind Hloop. rename a into v.
    unfold deref in Hbind.
    destruct (objs self !! vid) as [v0 |] eqn:Hv; [| discriminate].
    inversion Hbind; subst v0; clear Hbind.
    assert (Hvid : vid ∈ vehicles self).
    { apply Hids. apply elem_of_cons. now left. }
    assert (Hrest : forall i, i ∈ ids -> i ∈ vehicles self).
    { intros i Hi. apply Hids. apply elem_of_cons. now right. }
    destruct (completed v) eqn:Hc.
    + apply (IH self s' (rem ++ [vid]) rem'); try assumption.
      intros i. rewrite elem_of_app, list_elem_of_singleton.
      intros [Hi | ->]; [now apply Hrem |].
      unfold obj_test. now rewrite Hv.
    + inv_bind Hloop. rename a into s1.
      destruct (update_vehicle_frame _ _ _ Hbind) as (Hveh & _ & Hframe).
      apply (IH s1 s' rem rem'); try assumption.
      * eapply inv_update; eassumption.
      * rewrite Hveh. exact Hrest.
      * intros i Hi. specialize (Hrem i Hi).
        unfold obj_test in *. rewrite Hframe; [assumption |].
        intros ->. rewrite Hv, Hc in Hrem. discriminate.
Qed.

(** The second loop of a vehicle tick keeps the invariant. *)
Lemma remove_loop_inv (rem : list nat) :
  forall (self s' : TrafficSimulation),
    occupancy_inv self ->
    (forall i, i ∈ rem -> obj_test (objs self) completed i = true) ->
    remove_loop rem self = Ok s' ->
    occupancy_inv s'.
Proof.
  induction rem as [| vid rem IH]; intros self s' I Hrem Hloop.
  - cbn in Hloop. inversion Hloop; subst. assumption.
  - cbn [remove_loop] in Hloop.
    destruct (decide (vid ∈ vehicles self)) as [Hin |]; [| discriminate].
    inv_bind Hloop. rename a into v.
    eapply IH; [| | exact Hloop].
    + apply inv_retire; [assumption |].
      apply Hrem. apply elem_of_cons. now left.
    + intros i Hi. cbn. apply Hrem. apply elem_of_cons. now right.
Qed.

(** A whole vehicle tick keeps the invariant. *)
Lemma inv_tick (self s' : TrafficSimulation) :
  occupancy_inv self -> _update_vehicles self = Ok s' -> occupancy_inv s'.
Proof.
  intros I Htick. unfold _update_vehicles in Htick.
  inv_bind Htick. destruct a as [s1 rem].
  destruct (update_loop_inv _ _ _ _ _ I (fun i H => H)
              (fun i H => False_ind _ (not_elem_of_nil i H)) Hbind)
    as [I1 Hrem].
  eapply remove_loop_inv; eassumption.
Qed.

(** Every state of a run satisfies the invariant. *)
Lemma reachable_inv (s : TrafficSimulation) :
  reachable s -> occupancy_inv s.
Proof.
  induction 1 as [dt net sigs | s now ty o d a p _ IH | s sigs _ IH _
                 | s vid v s' _ IH Hin Hv Hc Hup | s s' _ IH Htick].
  - apply inv_new.
  - now apply inv_spawn.
  - now apply inv_set_signals.
  - eapply inv_update; eassumption.
  - eapply inv_tick; eassumption.
Qed.

(** ** The congestion level *)

(** The congestion level never exceeds 1. *)
Lemma congestion_upper_bound (self : TrafficSimulation) (edge : Edge) (c : Q) :
  get_congestion_level self edge = Ok c -> c <= 1.
Proof.
  unfold get_congestion_level. destruct edge as [[u v] key]. intros H.
  inv_bind H. inv_bind H. inversion H; subst c. apply py_min_upper.
Qed.

(** ** Speeds along a run *)

Lemma speeds_nonneg_update (self s' : TrafficSimulation) (vid : nat) :
  speeds_nonneg self ->
  _update_vehicle_position self vid = Ok s' ->
  speeds_nonneg s'.
Proof.
  intros Hs Hup i x Hx.
  destruct (update_vehicle_cases _ _ _ Hup) as (v & Hv & _).
  destruct (update_vehicle_speed _ _ _ _ Hv (Hs _ _ Hv) Hup)
    as (v' & Hv' & Hpos & _).
  destruct (decide (i = vid)) as [-> | Hne].
  - congruence.
  - destruct (update_vehicle_frame _ _ _ Hup) as (_ & _ & Hframe).
    rewrite Hframe in Hx by assumption. eapply Hs, Hx.
Qed.

Lemma speeds_nonneg_update_loop (ids : list nat) :
  forall (self s' : TrafficSimulation) (rem rem' : list nat),
    speeds_nonneg self ->
    update_loop ids self rem = Ok (s', rem') ->
    speeds_nonneg s'.
Proof.
  induction ids as [| vid ids IH]; intros self s' rem rem' Hs Hloop.
  - cbn in Hloop. inversion Hloop; subst. assumption.
  - cbn [update_loop] in Hloop. inv_bind Hloop.
    destruct (completed a).
    + eapply IH; eassumption.
    + inv_bind Hloop. eapply IH; [| exact Hloop].
      eapply speeds_nonneg_update; eassumption.
Qed.

Lemma remove_loop_objs (rem : list nat) :
  forall (self s' : TrafficSimulation),
    remove_loop rem self = Ok s' -> objs s' = objs self.
Proof.
  induction rem as [| vid rem IH]; intros self s' Hloop.
  - cbn in Hloop. now inversion Hloop.
  - cbn [remove_loop] in Hloop.
    destruct (decide (vid ∈ vehicles self)); [| discriminate].
    inv_bind Hloop. apply IH in Hloop. exact Hloop.
Qed.

(** In every state of a run, no vehicle has a negative speed. *)
Lemma reachable_speeds_nonneg (s : TrafficSimulation) :
  reachable s -> speeds_nonneg s.
Proof.
  induction 1 as [dt net sigs | s now ty o d a p _ IH | s sigs _ IH _
                 | s vid v s' _ IH Hin Hv Hc Hup | s s' _ IH Htick].
  - intros i v H. cbn in H. now rewrite lookup_empty in H.
  - intros i v. unfold _spawn_vehicle.
    cbn [network set_next_vehicle_id next_vehicle_id].
    destruct (_ <? 2)%nat; [apply IH |].
    destruct (find_route (network s) o d) as [| r0 [| r1 rest]];
      cbn [store set_objs set_sim_stats set_vehicles set_edge_vehicles objs
           set_next_vehicle_id];
      rewrite lookup_insert; case_decide; try apply IH;
      intros [= <-];
      (change (speed (set_current_edge ?x _)) with (speed x) || idtac);
      match goal with |- 0 <= speed (make_vehicle ?t ?i ?n ?o ?d ?r ?a ?p) =>
        destruct (make_vehicle_fields t i n o d r a p) as (_ & _ & ->)
      end; apply Qle_refl.
  - exact IH.
  - eapply speeds_nonneg_update; eassumption.
  - unfold _update_vehicles in Htick. inv_bind Htick. destruct a as [s1 rem].
    apply remove_loop_objs in Htick.
    intros i v. rewrite Htick. eapply speeds_nonneg_update_loop; eassumption.
Qed.

Lemma mapM_Ok {A B : Type} (f : A -> result B) (l : list A) (ys : list B) :
  mapM f l = Ok ys -> Forall2 (fun x y => f x = Ok y) l ys.
Proof.
  revert ys. induction l as [| x l IH]; intros ys H.
  - cbn in H. inversion H. constructor.
  - cbn in H. inv_bind H. inv_bind H. inversion H; subst ys.
    constructor; [assumption | now apply IH].
Qed.

Lemma sum_Q_upper (l : list Q) (b : Q) :
  Forall (fun x => x <= b) l ->
  sum_Q l <= b * inject_Z (Z.of_nat (length l)).
Proof.
  induction 1 as [| x l Hx Hl IH]; cbn [sum_Q fold_right length].
  - change (inject_Z (Z.of_nat 0)) with 0. lra.
  - rewrite Nat2Z.inj_succ, <- Z.add_1_r, inject_Z_plus.
    change (inject_Z 1) with 1. unfold sum_Q in IH. lra.
Qed.

Lemma np_mean_upper (l : list Q) (b : Q) :
  l <> [] -> Forall (fun x => x <= b) l -> np_mean l <= b.
Proof.
  intros Hne Hall. unfold np_mean.
  assert (Hpos : 0 < inject_Z (Z.of_nat (length l))).
  { destruct l; [contradiction |]. cbn [length].
    change 0 with (inject_Z 0). rewrite <- Zlt_Qlt. lia. }
  apply Qle_shift_div_r; [exact Hpos |]. now apply sum_Q_upper.
Qed.

(** When no vehicle of the edge drives faster than the speed limit, the
    congestion level lies in [[0, 1]]. *)
Lemma congestion_unit_interval (self : TrafficSimulation) (u v key : Z)
    (info : EdgeInfo) (c : Q) :
  get_edge_info (network self) u v key = Ok info ->
  (forall i x, i ∈ occupancy (edge_vehicles self) (u, v, key) ->
     objs self !! i = Some x -> speed x <= speed_limit info) ->
  get_congestion_level self (u, v, key) = Ok c ->
  0 <= c <= 1.
Proof.
  intros Hinfo Hslow Hc.
  split; [| eapply congestion_upper_bound, Hc].
  unfold get_congestion_level in Hc. rewrite Hinfo in Hc. cbn in Hc.
  inv_bind Hc. rename a into sr. inversion Hc; subst c; clear Hc.
  assert (Hd : 0 <= (if Qgtb (edge_length info / 7 * inject_Z (lanes info)) 0
                     then inject_Z (Z.of_nat (length
                            (occupancy (edge_vehicles self) (u, v, key))))
                          / (edge_length info / 7 * inject_Z (lanes info))
                     else 0)).
  { destruct (Qgtb (edge_length info / 7 * inject_Z (lanes info)) 0) eqn:E;
      [| apply Qle_refl].
    apply Qgtb_gt in E. apply Qle_shift_div_l; [exact E |].
    rewrite Qmult_0_l. change 0 with (inject_Z 0). rewrite <- Zle_Qle. lia. }
  assert (Hs : 0 <= sr).
  { destruct (occupancy (edge_vehicles self) (u, v, key)) as [| i0 l0] eqn:Hocc.
    - inversion Hbind. lra.
    - inv_bind Hbind. rename a into speeds.
      inversion Hbind; subst sr; clear Hbind.
      destruct (Qgtb (speed_limit info) 0) eqn:E; [| apply Qle_refl].
      apply Qgtb_gt in E.
      assert (Hmean : np_mean speeds <= speed_limit info).
      { apply mapM_Ok in Hbind0. apply np_mean_upper.
        - inversion Hbind0; discriminate.
        - clear Hocc. revert Hslow Hbind0.
          generalize (i0 :: l0). intros l Hslow HF.
          induction HF as [| i q l qs Hq HF IH]; constructor.
          + unfold deref in Hq.
            destruct (objs self !! i) as [x |] eqn:Hx; [| discriminate].
            inversion Hq; subst q. eapply Hslow; [| exact Hx].
            apply elem_of_cons. now left.
          + apply IH. intros j x Hj. apply Hslow. apply elem_of_cons. now right. }
      assert (Hratio : np_mean speeds / speed_limit info <= 1).
      { apply Qle_shift_div_r; [exact E | lra]. }
      lra. }
  unfold py_min.
  match goal with |- context [Qltb ?a ?b] => destruct (Qltb a b) end; lra.
Qed.

(** ** Further properties: helper lemmas *)

Lemma update_Raise (s : TrafficSignal) (dt : Q) (e : exn) :
  update s dt = Raise e ->
  e = IndexError /\ phases s !! current_phase_index s = None.
Proof.
  intros H. destruct (phases s !! current_phase_index s) as [p |] eqn:Hp.
  - rewrite (update_step s dt p Hp) in H. discriminate.
  - rewrite (update_no_phase s dt Hp) in H. inversion H. auto.
Qed.

(** What [update_all_signals] returns, whatever the order in which the
    dictionary is traversed. *)
Lemma update_all_signals_spec (sigs : gmap Z TrafficSignal) (dt : Q) :
  match update_all_signals sigs dt with
  | Ok sigs' =>
      (forall k s, sigs !! k = Some s ->
         exists s', update s dt = Ok s' /\ sigs' !! k = Some s') /\
      (forall k, sigs !! k = None -> sigs' !! k = None)
  | Raise e =>
      e = IndexError /\
      exists k s, sigs !! k = Some s /\
                  phases s !! current_phase_index s = None
  end.
Proof.
  unfold update_all_signals.
  apply (map_fold_weak_ind (fun r (m : gmap Z TrafficSignal) =>
    match r with
    | Ok sigs' =>
        (forall k s, m !! k = Some s ->
           exists s', update s dt = Ok s' /\ sigs' !! k = Some s') /\
        (forall k, m !! k = None -> sigs' !! k = None)
    | Raise e =>
        e = IndexError /\
        exists k s, m !! k = Some s /\
                    phases s !! current_phase_index s = None
    end)).
  - split.
    + intros k s H. now rewrite lookup_empty in H.
    + intros k _. apply lookup_empty.
  - intros i x m r Hi Hr. destruct r as [acc | e]; cbn.
    + destruct Hr as [Hsome Hnone].
      destruct (update x dt) as [x' | e] eqn:Hx; cbn.
      * split.
        -- intros k s. rewrite !lookup_insert. case_decide.
           ++ intros [= <-]. eauto.
           ++ apply Hsome.
        -- intros k. rewrite !lookup_insert. case_decide; [discriminate |].
           apply Hnone.
      * apply update_Raise in Hx. destruct Hx as [-> Hx].
        split; [reflexivity |]. exists i, x. now rewrite lookup_insert_eq.
    + destruct Hr as (-> & k & s & Hk & Hs). split; [reflexivity |].
      exists k, s. split; [| assumption].
      rewrite lookup_insert_ne; [assumption |]. intros <-. congruence.
Qed.

Lemma get_state_for_approach_eq (s : TrafficSignal) (p : SignalPhase)
    (approach : string) :
  phases s !! current_phase_index s = Some p ->
  get_state_for_approach s approach
  = Ok (if in_str approach (green_approaches p) then current_state s else RED).
Proof.
  intros Hp. unfold get_state_for_approach, get_current_phase.
  rewrite Hp. cbn. now destruct (in_str _ _).
Qed.

Lemma Qsquare_le (a b : Q) : 0 <= a -> a <= b -> a * a <= b * b.
Proof. intros Ha Hab. nra. Qed.

(** Every run of updates from a signal with a valid phase index succeeds. *)
Lemma run_updates_ok (dts : list Q) :
  forall s, (current_phase_index s < length (phases s))%nat ->
            exists tr, run_updates s dts = Ok tr.
Proof.
  induction dts as [| dt dts IH]; intros s Hidx; [eexists; reflexivity |].
  destruct (update_cycle_step s dt Hidx) as (s' & Hup & _).
  destruct (update_valid s s' dt Hidx Hup) as [_ Hidx'].
  destruct (IH s' Hidx') as (tr & Htr).
  exists (s' :: tr). cbn [run_updates]. rewrite Hup. cbn. now rewrite Htr.
Qed.

Lemma py_div_Ok (a b : Q) : ~ b == 0 -> py_div a b = Ok (a / b).
Proof.
  intros Hb. unfold py_div. destruct (Qeq_bool b 0) eqn:E; [| reflexivity].
  apply Qeq_bool_iff in E. contradiction.
Qed.

Lemma py_div_Raise (a b : Q) : b == 0 -> py_div a b = Raise ZeroDivisionError.
Proof.
  intros Hb. unfold py_div. apply Qeq_bool_iff in Hb. now rewrite Hb.
Qed.

Lemma clipQ_bounds (x lo hi : Q) : lo <= hi -> lo <= clipQ x lo hi <= hi.
Proof.
  intros Hlh. unfold clipQ.
  destruct (Qltb x lo) eqn:E1.
  - destruct (Qltb hi lo) eqn:E2.
    + apply Qltb_lt in E2. lra.
    + lra.
  - apply Qltb_ge in E1. destruct (Qltb hi x) eqn:E2.
    + lra.
    + apply Qltb_ge in E2. lra.
Qed.

Lemma clipQ_mono (x y lo hi : Q) :
  x <= y -> clipQ x lo hi <= clipQ y lo hi.
Proof.
  intros Hxy. unfold clipQ.
  destruct (Qltb x lo) eqn:E1; destruct (Qltb y lo) eqn:E2;
    try apply Qltb_lt in E1; try apply Qltb_ge in E1;
    try apply Qltb_lt in E2; try apply Qltb_ge in E2;
    repeat match goal with
    | |- context [Qltb ?a ?b] =>
        let E := fresh "E" in
        destruct (Qltb a b) eqn:E;
        [apply Qltb_lt in E | apply Qltb_ge in E]
    end; lra.
Qed.

Lemma clipQ_below (x lo hi : Q) : lo <= hi -> x <= lo -> clipQ x lo hi == lo.
Proof.
  intros Hlh Hx. unfold clipQ.
  destruct (Qltb x lo) eqn:E1;
    [apply Qltb_lt in E1 | apply Qltb_ge in E1];
    match goal with
    | |- context [Qltb ?a ?b] =>
        let E := fresh "E" in
        destruct (Qltb a b) eqn:E;
        [apply Qltb_lt in E | apply Qltb_ge in E]
    end; lra.
Qed.

Lemma py_max_ge_r (a b : Q) : b <= py_max a b.
Proof.
  unfold py_max. destruct (Qgtb b a) eqn:E.
  - lra.
  - apply Qgtb_le in E. lra.
Qed.

(** The loop of [create_arterial_signals] with a non-zero speed. *)
Lemma arterial_loop_ok (green_wave_speed spacing : Q)
    (pairs : list (Z * (Q * Q))) :
  ~ green_wave_speed == 0 ->
  forall (i : nat) (sigs : gmap Z TrafficSignal) (acc : list TrafficSignal),
  exists sigs' new,
    arterial_loop i pairs green_wave_speed spacing sigs acc
      = Ok (sigs', acc ++ new) /\
    length new = length pairs /\
    forall j s, new !! j = Some s ->
      sig_id s = Z.of_nat (i + j) /\
      coordinated s = true /\
      offset s = inject_Z (Z.of_nat (i + j)) * spacing / green_wave_speed /\
      current_state s = RED /\
      phases s = arterial_phases /\
      exists pos, pairs !! j = Some (node_id s, pos) /\ sig_position s = pos.
Proof.
  intros Hspeed. induction pairs as [| [node pos] rest IH]; intros i sigs acc.
  - exists sigs, []. cbn. rewrite app_nil_r.
    split; [reflexivity |]. split; [reflexivity |].
    intros j s H. now rewrite lookup_nil in H.
  - cbn [arterial_loop]. rewrite py_div_Ok by assumption.
    cbn [mbind result_bind TrafficSignal_init].
    match goal with |- context [arterial_loop _ _ _ _ (add_signal _ ?x) _] =>
      set (sig0 := x)
    end.
    destruct (IH (S i) (add_signal sigs sig0) (acc ++ [sig0]))
      as (sigs' & new & Hloop & Hlen & Hnew).
    exists sigs', (sig0 :: new). split; [| split].
    + rewrite Hloop. f_equal. f_equal. now rewrite <- app_assoc.
    + cbn. now rewrite Hlen.
    + intros [| j] s Hs; cbn in Hs.
      * inversion Hs; subst s. rewrite Nat.add_0_r. cbn.
        repeat split. exists pos. auto.
      * destruct (Hnew j s Hs) as (H1 & H2 & H3 & H4 & H5 & p & H6 & H7).
        replace (i + S j)%nat with (S i + j)%nat by lia.
        repeat split; try assumption. exists p. auto.
Qed.

(** *** Signal placement *)

Lemma every_fifth_subseteq (nodes : list Z) :
  forall i k, k ∈ every_fifth i nodes -> k ∈ nodes.
Proof.
  induction nodes as [| n nodes IH]; intros i k; cbn [every_fifth]; [auto |].
  destruct (i mod 5 =? 0)%nat.
  - intros H. apply elem_of_cons in H. apply elem_of_cons.
    destruct H as [-> | H]; [now left | right; eapply IH, H].
  - intros H. apply elem_of_cons. right. eapply IH, H.
Qed.

Lemma take_subseteq_elem {A : Type} (n : nat) (l : list A) (x : A) :
  x ∈ take n l -> x ∈ l.
Proof.
  rewrite elem_of_take. intros (i & Hi & _). eapply list_elem_of_lookup_2, Hi.
Qed.

(** The signals after [place_signals]: the old ones, and at most one new
    signal per node of the list, each freshly built. *)
Lemma place_signals_spec (net : BellevueRoadNetwork) (nodes : list Z) :
  (forall n, n ∈ nodes -> is_Some (graph_nodes net !! n)) ->
  forall (i : nat) (sigs : gmap Z TrafficSignal),
  exists sigs',
    place_signals net i nodes sigs = Ok sigs' /\
    (size sigs' <= size sigs + length nodes)%nat /\
    (forall k, is_Some (sigs !! k) \/ k ∈ nodes -> is_Some (sigs' !! k)) /\
    forall k sg, sigs' !! k = Some sg ->
      sigs !! k = Some sg \/
      (k ∈ nodes /\ node_id sg = k /\ current_state sg = RED /\
       current_phase_index sg = 0%nat /\ length (phases sg) = 2%nat).
Proof.
  induction nodes as [| n nodes IH]; intros Hpos i sigs.
  - exists sigs. cbn. split; [reflexivity |]. split; [lia |].
    split; [| auto].
    intros k [H | H]; [assumption | now apply not_elem_of_nil in H].
  - destruct (Hpos n) as [pos Hn]; [apply elem_of_cons; now left |].
    assert (Hrest : forall m, m ∈ nodes -> is_Some (graph_nodes net !! m)).
    { intros m Hm. apply Hpos. apply elem_of_cons. now right. }
    cbn [place_signals]. unfold get_node_position. rewrite Hn.
    cbn [mbind result_bind].
    assert (Hmk : exists sg0,
      (if (i mod 2 =? 0)%nat
       then create_standard_signal sigs (Z.of_nat i) n pos 60 30
       else create_standard_signal sigs (Z.of_nat i) n pos 45 25)
      = Ok (<[n := sg0]> sigs, sg0) /\
      node_id sg0 = n /\ current_state sg0 = RED /\
      current_phase_index sg0 = 0%nat /\ length (phases sg0) = 2%nat).
    { destruct (i mod 2 =? 0)%nat; eexists; (split; [reflexivity |]);
        repeat split. }
    destruct Hmk as (sg0 & -> & Hnode & Hred & Hidx & Hlen).
    cbn [mbind result_bind].
    destruct (IH Hrest (S i) (<[n := sg0]> sigs))
      as (sigs' & Hloop & Hsize & Hdom & Hsigs).
    exists sigs'. split; [exact Hloop |]. split; [| split].
    + pose proof (map_size_insert n sg0 sigs) as Hins.
      destruct (sigs !! n); unfold Datatypes.id in Hins; cbn [length]; lia.
    + intros k Hk. apply Hdom.
      destruct (decide (n = k)) as [<- | Hne].
      * left. rewrite lookup_insert_eq. eauto.
      * rewrite lookup_insert_ne by assumption.
        destruct Hk as [Hk | Hk]; [now left |].
        apply elem_of_cons in Hk. destruct Hk as [-> | Hk];
          [contradiction | now right].
    + intros k sg Hk. destruct (Hsigs k sg Hk) as [Hold | (Hin & H1 & H2 & H3 & H4)].
      * rewrite lookup_insert in Hold. case_decide as Hnk.
        -- inversion Hold; subst sg k. right.
           split; [apply elem_of_cons; now left | auto].
        -- now left.
      * right. split; [apply elem_of_cons; now right | auto].
Qed.

(** *** Extended values in the car-following law *)

Lemma clipQ_id (x lo hi : Q) : lo <= x -> x <= hi -> clipQ x lo hi = x.
Proof.
  intros Hlo Hhi. unfold clipQ.
  apply Qltb_ge in Hlo. rewrite Hlo. apply Qltb_ge in Hhi. now rewrite Hhi.
Qed.

Lemma np_clip_bounds (x : xfloat) (lo hi a : Q) :
  lo <= hi -> np_clip x lo hi = Some a -> lo <= a <= hi.
Proof.
  intros Hlh. destruct x as [q | | |]; cbn; intros H; inversion H; subst a.
  - now apply clipQ_bounds.
  - lra.
  - destruct (Qltb hi lo) eqn:E; [apply Qltb_lt in E |]; lra.
Qed.

Lemma Qcompare_pos (q : Q) : 0 < q -> (q ?= 0) = Gt.
Proof. intros H. now apply Qgt_alt. Qed.

Lemma Qeq_bool_pos (q : Q) : 0 < q -> Qeq_bool q 0 = false.
Proof.
  intros H. destruct (Qeq_bool q 0) eqn:E; [| reflexivity].
  apply Qeq_bool_iff in E. lra.
Qed.

(** The desired spacing is finite or [+inf]. *)
Lemma spacing_shape (a b : Q) (d : xfloat) :
  (exists s, xadd (Fin a) (xpy_max (Fin 0) (xadd (Fin b) d)) = Fin s) \/
  xadd (Fin a) (xpy_max (Fin 0) (xadd (Fin b) d)) = PInf.
Proof.
  destruct d as [q | | |]; cbn; unfold xpy_max; cbn.
  - destruct (Qltb 0 (b + q)); cbn; eauto.
  - now right.
  - eauto.
  - eauto.
Qed.

(** The leader term of the car-following law, for a positive gap and a
    non-negative maximum acceleration. *)
Lemma leader_term_shape (self : Vehicle) (ls ld : Q) :
  0 < ld -> 0 <= max_acceleration self ->
  let T := xmul (Fin (max_acceleration self))
             (xpow_even (xdiv (desired_spacing self ls) (Fin ld)) 2) in
  (exists t, T = Fin t /\ 0 <= t) \/
  (T = PInf /\ 0 < max_acceleration self) \/
  (T = NaN /\ max_acceleration self == 0).
Proof.
  intros Hld Hacc T. subst T. unfold desired_spacing.
  match goal with |- context [xadd (Fin ?a) (xpy_max (Fin 0) (xadd (Fin ?b) ?d))] =>
    destruct (spacing_shape a b d) as [[s ->] | ->]
  end.
  - left. cbn. rewrite (Qeq_bool_pos ld Hld). cbn. eexists.
    split; [reflexivity |].
    change ((s / ld) ^ 2) with ((s / ld) * (s / ld)).
    nra.
  - cbn. rewrite (Qeq_bool_pos ld Hld), (Qcompare_pos ld Hld). cbn.
    destruct (Qlt_le_dec 0 (max_acceleration self)) as [Hpos | Hle].
    + right. left. rewrite (Qcompare_pos _ Hpos). cbn. auto.
    + right. right. assert (Hz : max_acceleration self == 0) by lra.
      split; [| exact Hz]. apply Qeq_alt in Hz. now rewrite Hz.
Qed.

Lemma Qpower_4 (r : Q) : r ^ 4 = (r * r) * (r * r).
Proof. reflexivity. Qed.

Lemma pow4_le_1 (r : Q) : 0 <= r -> r <= 1 -> r ^ 4 <= 1.
Proof.
  intros H0 H1. rewrite Qpower_4.
  assert (Ha : 0 <= r * r) by nra. assert (Hb : r * r <= 1) by nra.
  nra.
Qed.

Lemma pow4_ge_1 (r : Q) : 1 <= r -> 1 <= r ^ 4.
Proof.
  intros H1. rewrite Qpower_4.
  assert (Ha : 1 <= r * r) by nra. nra.
Qed.

Lemma py_index_lt `{EqDecision A} (x : A) (l : list A) (n : nat) :
  py_index x l = Some n -> (n < length l)%nat.
Proof.
  intros H. apply py_index_Some_elem in H. eapply lookup_lt_Some, H.
Qed.

(** In a state that satisfies the occupancy invariant the leader lookup
    finds its object. *)
Lemma find_leader_ok (self : TrafficSimulation) (e : Edge) (vid : nat) :
  occupancy_inv self ->
  exists l,
    find_leader (set_edge_vehicles self (touch (edge_vehicles self) e))
      (occupancy (edge_vehicles self) e) vid = Ok l.
Proof.
  intros I. unfold find_leader.
  destruct (py_index vid (occupancy (edge_vehicles self) e)) as [[| i] |] eqn:Hi;
    [eauto | | eauto].
  apply py_index_lt in Hi.
  destruct (lookup_lt_is_Some_2 (occupancy (edge_vehicles self) e) i)
    as [lid Hlid]; [lia |].
  rewrite Hlid.
  assert (Hin : lid ∈ occupancy (edge_vehicles self) e).
  { eapply list_elem_of_lookup_2, Hlid. }
  destruct (inv_lists _ I _ _ Hin) as (_ & x & Hx & _).
  unfold deref. cbn [objs set_edge_vehicles]. rewrite Hx. cbn. eauto.
Qed.

Lemma spawned_params_aux (ty : string) (i : nat) (t : Q) (o d : Q * Q)
    (rt : list Z) (a p : Q) :
  id (make_vehicle ty i t o d rt a p) = i /\
  route (make_vehicle ty i t o d rt a p) = rt /\
  speed (make_vehicle ty i t o d rt a p) = 0 /\
  completed (make_vehicle ty i t o d rt a p) = false /\
  position (make_vehicle ty i t o d rt a p) = o.
Proof.
  unfold make_vehicle.
  repeat match goal with |- context [String.eqb ?a ?b] =>
    destruct (String.eqb a b) end; repeat split; reflexivity.
Qed.

(** *** Frames of the vehicle tick *)

Lemma update_vehicle_frame_stats (self s' : TrafficSimulation) (vid : nat) :
  _update_vehicle_position self vid = Ok s' ->
  sim_stats s' = sim_stats self /\
  completed_vehicles s' = completed_vehicles self /\
  signals s' = signals self /\ network s' = network self /\
  time_step s' = time_step self.
Proof.
  intros Hup.
  destruct (update_vehicle_cases _ _ _ Hup) as (v & Hv & Hcases).
  destruct Hcases as [[_ ->] | (_ & u & w & key & info & can & accel & Hc)].
  - repeat split.
  - cbn zeta in Hc.
    destruct Hc as (_ & _ & _ & [[_ ->] | [_ [(n & pos & _ & _ & ->) | [_ ->]]]]);
      repeat split.
Qed.

(** The first loop of a tick: what it keeps and what it queues. *)
Lemma update_loop_spec (ids : list nat) :
  forall (s s1 : TrafficSimulation) (rem rem1 : list nat),
    NoDup ids ->
    update_loop ids s rem = Ok (s1, rem1) ->
    vehicles s1 = vehicles s /\
    next_vehicle_id s1 = next_vehicle_id s /\
    sim_stats s1 = sim_stats s /\
    completed_vehicles s1 = completed_vehicles s /\
    rem1 = rem ++ List.filter (is_done s) ids /\
    (forall i, is_done s i = true -> objs s1 !! i = objs s !! i) /\
    (forall i, i ∉ ids -> objs s1 !! i = objs s !! i).
Proof.
  induction ids as [| vid ids IH]; intros s s1 rem rem1 Hnd Hloop.
  - cbn in Hloop. inversion Hloop; subst. cbn. rewrite app_nil_r.
    repeat split.
  - apply NoDup_cons in Hnd. destruct Hnd as [Hvid Hnd].
    cbn [update_loop] in Hloop. inv_bind Hloop. rename a into v.
    unfold deref in Hbind.
    destruct (objs s !! vid) as [v0 |] eqn:Hv; [| discriminate].
    inversion Hbind; subst v0; clear Hbind.
    assert (Hdone : is_done s vid = completed v).
    { unfold is_done, obj_test. now rewrite Hv. }
    cbn [List.filter]. rewrite Hdone.
    destruct (completed v) eqn:Hc.
    + destruct (IH s s1 (rem ++ [vid]) rem1 Hnd Hloop)
        as (H1 & H2 & H3 & H4 & H5 & H6 & H7).
      repeat split; try assumption.
      * rewrite H5. now rewrite <- app_assoc.
      * intros i Hi. apply H7. apply not_elem_of_cons in Hi. tauto.
    + inv_bind Hloop. rename a into s2.
      destruct (update_vehicle_frame _ _ _ Hbind) as (F1 & F2 & F3).
      destruct (update_vehicle_frame_stats _ _ _ Hbind) as (F4 & F5 & _).
      destruct (IH s2 s1 rem rem1 Hnd Hloop)
        as (H1 & H2 & H3 & H4 & H5 & H6 & H7).
      assert (Hsame : forall i, i <> vid -> is_done s2 i = is_done s i).
      { intros i Hi. unfold is_done, obj_test. now rewrite F3. }
      repeat split; try congruence.
      * rewrite H5. f_equal. apply List.filter_ext_in.
        intros i Hi. apply list_elem_of_In in Hi. apply Hsame.
        intros ->. contradiction.
      * intros i Hi.
        assert (Hne : i <> vid).
        { intros ->. congruence. }
        rewrite H6; [now apply F3 |]. now rewrite Hsame.
      * intros i Hi. apply not_elem_of_cons in Hi. destruct Hi as [Hne Hi].
        rewrite H7 by assumption. now apply F3.
Qed.

(** The second loop of a tick. *)
Lemma remove_loop_spec (rem : list nat) :
  forall (s s' : TrafficSimulation),
    remove_loop rem s = Ok s' ->
    objs s' = objs s /\
    next_vehicle_id s' = next_vehicle_id s /\
    edge_vehicles s' = edge_vehicles s /\
    vehicles s' = foldl (fun l i => py_remove i l) (vehicles s) rem /\
    completed_vehicles s' = completed_vehicles s ++ rem /\
    (length (vehicles s') + length rem)%nat = length (vehicles s) /\
    vehicles_spawned (sim_stats s') = vehicles_spawned (sim_stats s) /\
    vehicles_completed (sim_stats s')
      = (vehicles_completed (sim_stats s) + Z.of_nat (length rem))%Z.
Proof.
  induction rem as [| vid rem IH]; intros s s' Hloop.
  - cbn in Hloop. inversion Hloop; subst. cbn. rewrite app_nil_r.
    repeat split; lia.
  - cbn [remove_loop] in Hloop.
    destruct (decide (vid ∈ vehicles s)) as [Hin |]; [| discriminate].
    inv_bind Hloop. apply IH in Hloop.
    cbn [set_sim_stats set_completed_vehicles set_vehicles objs vehicles
         next_vehicle_id completed_vehicles sim_stats edge_vehicles
         vehicles_spawned vehicles_completed] in Hloop.
    destruct Hloop as (H1 & H2 & H3 & H4 & H5 & H6 & H7 & H8).
    pose proof (py_remove_length vid _ Hin) as Hlen.
    repeat split; try assumption.
    + rewrite H5. now rewrite <- app_assoc.
    + cbn [length]. lia.
    + rewrite H8. cbn [length]. lia.
Qed.

Lemma tick_spec (self s' : TrafficSimulation) :
  NoDup (vehicles self) ->
  _update_vehicles self = Ok s' ->
  let rem := List.filter (is_done self) (vehicles self) in
  next_vehicle_id s' = next_vehicle_id self /\
  vehicles s' = foldl (fun l i => py_remove i l) (vehicles self) rem /\
  completed_vehicles s' = completed_vehicles self ++ rem /\
  (length (vehicles s') + length rem)%nat = length (vehicles self) /\
  vehicles_spawned (sim_stats s') = vehicles_spawned (sim_stats self) /\
  vehicles_completed (sim_stats s')
    = (vehicles_completed (sim_stats self) + Z.of_nat (length rem))%Z /\
  (forall i, is_done self i = true -> objs s' !! i = objs self !! i) /\
  (forall i, i ∉ vehicles self -> objs s' !! i = objs self !! i).
Proof.
  intros Hnd Htick rem. unfold _update_vehicles in Htick.
  inv_bind Htick. destruct a as [s1 rem1].
  destruct (update_loop_spec _ _ _ _ _ Hnd Hbind)
    as (H1 & H2 & H3 & H4 & H5 & H6 & H7).
  cbn [app] in H5. fold rem in H5. subst rem1.
  destruct (remove_loop_spec _ _ _ Htick)
    as (R1 & R2 & _ & R4 & R5 & R6 & R7 & R8).
  split; [congruence |].
  split; [now rewrite R4, H1 |].
  split; [now rewrite R5, H4 |].
  split; [now rewrite <- H1 |].
  split; [now rewrite R7, H3 |].
  split; [now rewrite R8, H3 |].
  rewrite R1. split; assumption.
Qed.

(** *** Removal as a filter *)

Lemma filter_all_true {A : Type} (f : A -> bool) (l : list A) :
  (forall x, x ∈ l -> f x = true) -> List.filter f l = l.
Proof.
  induction l as [| x l IH]; intros H; cbn; [reflexivity |].
  rewrite (H x) by (apply elem_of_cons; now left).
  f_equal. apply IH. intros y Hy. apply H. apply elem_of_cons. now right.
Qed.

Lemma filter_filter {A : Type} (f g : A -> bool) (l : list A) :
  List.filter f (List.filter g l) = List.filter (fun x => g x && f x) l.
Proof.
  induction l as [| x l IH]; cbn; [reflexivity |].
  destruct (g x); cbn; [destruct (f x) |]; now rewrite IH.
Qed.

Lemma py_remove_filter (i : nat) (l : list nat) :
  NoDup l -> py_remove i l = List.filter (fun j => negb (Nat.eqb j i)) l.
Proof.
  induction 1 as [| y l Hy Hnd IH]; cbn; [reflexivity |].
  destruct (decide (i = y)) as [-> | Hne].
  - rewrite Nat.eqb_refl. cbn. symmetry. apply filter_all_true.
    intros x Hx. apply negb_true_iff, Nat.eqb_neq. intros ->. contradiction.
  - assert (E : Nat.eqb y i = false) by (apply Nat.eqb_neq; congruence).
    rewrite E. cbn. now rewrite IH.
Qed.

Lemma foldl_py_remove_filter (rem : list nat) :
  forall l : list nat, NoDup l ->
    foldl (fun l i => py_remove i l) l rem
    = List.filter (fun j => negb (existsb (Nat.eqb j) rem)) l.
Proof.
  induction rem as [| r rem IH]; intros l Hnd; cbn.
  - symmetry. now apply filter_all_true.
  - rewrite IH by now apply py_remove_NoDup.
    rewrite py_remove_filter by assumption. rewrite filter_filter.
    apply List.filter_ext. intros j. now rewrite negb_orb.
Qed.

Lemma existsb_eqb_filter (f : nat -> bool) (l : list nat) (j : nat) :
  j ∈ l -> existsb (Nat.eqb j) (List.filter f l) = f j.
Proof.
  intros Hj. destruct (f j) eqn:Hf.
  - apply existsb_exists. exists j. split; [| apply Nat.eqb_refl].
    apply List.filter_In. split; [now apply list_elem_of_In | exact Hf].
  - destruct (existsb _ _) eqn:E; [| reflexivity].
    apply existsb_exists in E. destruct E as (x & Hx & Heq).
    apply Nat.eqb_eq in Heq. subst x.
    apply List.filter_In in Hx. destruct Hx as [_ Hx]. congruence.
Qed.

(** *** Counters and ids along a run *)

Lemma StronglySorted_snoc (l : list nat) (x : nat) :
  StronglySorted lt l -> (forall y, y ∈ l -> (y < x)%nat) ->
  StronglySorted lt (l ++ [x]).
Proof.
  induction 1 as [| y l Hs IH Hall]; intros Hlt; cbn.
  - constructor; constructor.
  - constructor.
    + apply IH. intros z Hz. apply Hlt. apply elem_of_cons. now right.
    + apply Forall_app. split; [exact Hall |].
      constructor; [| constructor]. apply Hlt. apply elem_of_cons. now left.
Qed.

Lemma StronglySorted_filter (f : nat -> bool) (l : list nat) :
  StronglySorted lt l -> StronglySorted lt (List.filter f l).
Proof.
  induction 1 as [| y l Hs IH Hall]; cbn; [constructor |].
  destruct (f y); [| assumption].
  constructor; [assumption |].
  rewrite List.Forall_forall in *. intros x Hx.
  apply Hall. apply List.filter_In in Hx. tauto.
Qed.

Lemma StronglySorted_lt_NoDup (l : list nat) :
  StronglySorted lt l -> NoDup l.
Proof.
  induction 1 as [| y l Hs IH Hall]; constructor; [| assumption].
  intros Hy. rewrite List.Forall_forall in Hall.
  apply list_elem_of_In in Hy. apply Hall in Hy. lia.
Qed.

Lemma tick_vehicles_filter (self s' : TrafficSimulation) :
  NoDup (vehicles self) ->
  _update_vehicles self = Ok s' ->
  vehicles s'
  = List.filter (fun i => negb (is_done self i)) (vehicles self).
Proof.
  intros Hnd Htick.
  destruct (tick_spec _ _ Hnd Htick) as (_ & Hveh & _).
  rewrite Hveh, foldl_py_remove_filter by assumption.
  apply List.filter_ext_in. intros j Hj. apply list_elem_of_In in Hj.
  now rewrite existsb_eqb_filter.
Qed.

(** The counters and the ids along a run. *)
Lemma reachable_counts_ids (s : TrafficSimulation) :
  reachable s -> counts_ok s /\ ids_ok s.
Proof.
  induction 1 as [dt net sigs | s now ty o d a p _ IH | s sigs _ IH _
                 | s vid v s' _ IH Hin Hv Hc Hup | s s' _ IH Htick].
  - split; [split; reflexivity |]. cbn.
    split; [constructor |]. split; [constructor |].
    split; intros i; [intros [H | H] | intros H];
      now apply not_elem_of_nil in H.
  - destruct IH as [[Hsp Hco] (Hsort & Hnd & Hbound & Hdisj)].
    set (n := next_vehicle_id s) in *.
    assert (Hfresh : n ∉ vehicles s).
    { intros Hn. specialize (Hbound n (or_introl Hn)). lia. }
    unfold _spawn_vehicle. cbn [network set_next_vehicle_id next_vehicle_id].
    fold n.
    destruct (_ <? 2)%nat eqn:Hlen.
    { split; [split; assumption |].
      split; [assumption |]. split; [assumption |].
      split; [| assumption].
      intros i Hi. cbn. specialize (Hbound i Hi). lia. }
    apply Nat.ltb_ge in Hlen.
    destruct (find_route (network s) o d) as [| r0 [| r1 rest]];
      cbn [length] in Hlen; try lia.
    unfold counts_ok, ids_ok, dict_add_key.
    cbn [set_sim_stats set_vehicles store set_objs set_edge_vehicles vehicles
         objs edge_vehicles next_vehicle_id set_next_vehicle_id sim_stats
         completed_vehicles vehicles_spawned vehicles_completed].
    rewrite decide_False by exact Hfresh.
    split; [split |].
    + rewrite Hsp, length_app. cbn [length]. lia.
    + exact Hco.
    + split; [| split; [exact Hnd | split]].
      * apply StronglySorted_snoc; [exact Hsort |].
        intros y Hy. apply (Hbound y). now left.
      * intros i. rewrite elem_of_app, list_elem_of_singleton.
        intros [[Hi | ->] | Hi]; [| lia |].
        -- specialize (Hbound i (or_introl Hi)). lia.
        -- specialize (Hbound i (or_intror Hi)). lia.
      * intros i Hi. rewrite elem_of_app, list_elem_of_singleton.
        intros [Hv | ->]; [now apply (Hdisj i) |].
        specialize (Hbound n (or_intror Hi)). lia.
  - exact IH.
  - destruct (update_vehicle_frame _ _ _ Hup) as (F1 & F2 & _).
    destruct (update_vehicle_frame_stats _ _ _ Hup) as (F3 & F4 & _).
    unfold counts_ok, ids_ok in *. rewrite F1, F2, F3, F4. exact IH.
  - destruct IH as [[Hsp Hco] (Hsort & Hnd & Hbound & Hdisj)].
    pose proof (StronglySorted_lt_NoDup _ Hsort) as Hnd_v.
    pose proof (tick_vehicles_filter _ _ Hnd_v Htick) as Hveh.
    destruct (tick_spec _ _ Hnd_v Htick)
      as (T1 & _ & T3 & T4 & T5 & T6 & _).
    cbn zeta in T3, T4, T6.
    set (rem := List.filter (is_done s) (vehicles s)) in *.
    assert (Hrem : forall i, i ∈ rem -> i ∈ vehicles s /\ is_done s i = true).
    { intros i Hi. apply list_elem_of_In, List.filter_In in Hi.
      now rewrite <- list_elem_of_In in Hi. }
    assert (Hkeep : forall i, i ∈ vehicles s' ->
              i ∈ vehicles s /\ is_done s i = false).
    { intros i Hi. rewrite Hveh in Hi.
      apply list_elem_of_In, List.filter_In in Hi.
      rewrite <- list_elem_of_In, negb_true_iff in Hi. exact Hi. }
    split; [split |].
    + rewrite T5, Hsp, T3, length_app. lia.
    + rewrite T6, Hco, T3, length_app. lia.
    + unfold ids_ok. rewrite T1, T3. split; [| split; [| split]].
      * rewrite Hveh. now apply StronglySorted_filter.
      * apply NoDup_app. split; [exact Hnd |]. split.
        -- intros i Hi Hr. apply Hrem in Hr. now apply (Hdisj i).
        -- subst rem. now apply StronglySorted_lt_NoDup, StronglySorted_filter.
      * intros i. rewrite elem_of_app. intros [Hi | [Hi | Hi]].
        -- apply Hbound. left. now apply Hkeep.
        -- apply Hbound. now right.
        -- apply Hbound. left. now apply Hrem.
      * intros i. rewrite elem_of_app. intros [Hi | Hi] Hv'.
        -- apply (Hdisj i Hi). now apply Hkeep.
        -- apply Hrem in Hi. apply Hkeep in Hv'. destruct Hi, Hv'. congruence.
Qed.

(** ** The runtime type of the speeds along a run *)

Lemma integrate_type (v : Q) (accel : option Q) (dt : Q) :
  integrate_is_numpy v accel dt = Qgtb (integrate_speed v accel dt) 0.
Proof.
  destruct accel as [a |]; cbn [integrate_is_numpy integrate_speed];
    [| reflexivity].
  unfold py_max. destruct (Qgtb (v + a * dt) 0) eqn:E; [now rewrite E |].
  reflexivity.
Qed.

Lemma speed_types_update (self s' : TrafficSimulation) (vid : nat) :
  speed_types_ok self ->
  _update_vehicle_position self vid = Ok s' ->
  speed_types_ok s'.
Proof.
  intros Hs Hup i x Hx.
  destruct (decide (i = vid)) as [-> | Hne].
  2:{ destruct (update_vehicle_frame _ _ _ Hup) as (_ & _ & Hframe).
      rewrite Hframe in Hx by assumption. eapply Hs, Hx. }
  destruct (update_vehicle_cases _ _ _ Hup) as (v & Hv & Hcases).
  destruct Hcases as [[_ ->] | (_ & u & w & key & info & can & accel & Hc)].
  - cbn [store objs set_objs] in Hx. rewrite lookup_insert_eq in Hx.
    inversion Hx; subst x. apply (Hs _ _ Hv).
  - cbn zeta in Hc.
    destruct Hc as (_ & _ & _ & [[_ ->] | [_ [(n & pos & _ & _ & ->) | [_ ->]]]]);
      cbn [store objs set_objs set_edge_vehicles] in Hx;
      rewrite lookup_insert_eq in Hx; inversion Hx; subst x;
      apply integrate_type.
Qed.

Lemma speed_types_update_loop (ids : list nat) :
  forall (self s' : TrafficSimulation) (rem rem' : list nat),
    speed_types_ok self ->
    update_loop ids self rem = Ok (s', rem') ->
    speed_types_ok s'.
Proof.
  induction ids as [| vid ids IH]; intros self s' rem rem' Hs Hloop.
  - cbn in Hloop. inversion Hloop; subst. assumption.
  - cbn [update_loop] in Hloop. inv_bind Hloop.
    destruct (completed a).
    + eapply IH; eassumption.
    + inv_bind Hloop. eapply IH; [| exact Hloop].
      eapply speed_types_update; eassumption.
Qed.

(** In every state of a run, a speed is a NumPy scalar exactly when it is
    positive. *)
Lemma reachable_speed_types (s : TrafficSimulation) :
  reachable s -> speed_types_ok s.
Proof.
  induction 1 as [dt net sigs | s now ty o d a p _ IH | s sigs _ IH _
                 | s vid v s' _ IH Hin Hv Hc Hup | s s' _ IH Htick].
  - intros i v H. cbn in H. now rewrite lookup_empty in H.
  - intros i v. unfold _spawn_vehicle.
    cbn [network set_next_vehicle_id next_vehicle_id].
    destruct (_ <? 2)%nat; [apply IH |].
    destruct (find_route (network s) o d) as [| r0 [| r1 rest]];
      cbn [store set_objs set_sim_stats set_vehicles set_edge_vehicles objs
           set_next_vehicle_id];
      rewrite lookup_insert; case_decide; try apply IH;
      intros [= <-];
      unfold make_vehicle;
      repeat (destruct (String.eqb _ _); try reflexivity).
  - exact IH.
  - eapply speed_types_update; eassumption.
  - unfold _update_vehicles in Htick. inv_bind Htick. destruct a as [s1 rem].
    apply remove_loop_objs in Htick.
    intros i v. rewrite Htick. eapply speed_types_update_loop; eassumption.
Qed.

(** *** Rounding *)

Section RoundingLemmas.

Variable fl : Q -> Q.

Lemma fl_proper (x y : Q) : fl_monotone fl -> x == y -> fl x == fl y.
Proof.
  intros Hm H. apply Qle_antisym; apply Hm; rewrite H; apply Qle_refl.
Qed.

Lemma fl_zero : fl_exact_on_integers fl -> fl 0 == 0.
Proof. intros H. apply (H 0%Z). vm_compute. discriminate. Qed.

Lemma fl_one : fl_exact_on_integers fl -> fl 1 == 1.
Proof. intros H. apply (H 1%Z). vm_compute. discriminate. Qed.

Lemma fl_five : fl_exact_on_integers fl -> fl 5 == 5.
Proof. intros H. apply (H 5%Z). vm_compute. discriminate. Qed.

Lemma fl_nonneg (x : Q) :
  fl_monotone fl -> fl_exact_on_integers fl -> 0 <= x -> 0 <= fl x.
Proof.
  intros Hm Hi Hx. rewrite <- (fl_zero Hi). now apply Hm.
Qed.

Lemma fl_nonpos (x : Q) :
  fl_monotone fl -> fl_exact_on_integers fl -> x <= 0 -> fl x <= 0.
Proof.
  intros Hm Hi Hx. rewrite <- (fl_zero Hi). now apply Hm.
Qed.

(** Interval bounds through a rounded operation. *)
Lemma min_normal_pos : 0 < min_normal.
Proof. reflexivity. Qed.

Lemma fl_within (lo hi x : Q) :
  fl_relative_error fl ->
  lo <= x <= hi -> min_normal <= lo ->
  lo * (1 - unit_roundoff) <= fl x <= hi * (1 + unit_roundoff).
Proof.
  intros Herr [Hlo Hhi] Hmin. specialize (Herr x).
  pose proof min_normal_pos as Hpos.
  assert (H0 : 0 <= lo) by (apply Qlt_le_weak, Qlt_le_trans with min_normal;
                            assumption).
  assert (Hx : 0 <= x) by (apply Qle_trans with lo; assumption).
  rewrite (Qabs_pos x Hx) in Herr.
  specialize (Herr (Qle_trans _ _ _ Hmin Hlo)).
  apply Qabs_Qle_condition in Herr. destruct Herr as [H1 H2].
  unfold unit_roundoff in *. split; lra.
Qed.

Lemma add_within (a b c d x y : Q) :
  a <= x <= b -> c <= y <= d -> a + c <= x + y <= b + d.
Proof. intros [? ?] [? ?]. split; lra. Qed.

Lemma sub_within (a b c d x y : Q) :
  a <= x <= b -> c <= y <= d -> a - d <= x - y <= b - c.
Proof. intros [? ?] [? ?]. split; lra. Qed.

Lemma mul_within (a b c d x y : Q) :
  a <= x <= b -> c <= y <= d -> 0 <= a -> 0 <= c ->
  a * c <= x * y <= b * d.
Proof. intros [? ?] [? ?] ? ?. split; nra. Qed.

Lemma div_within (a b c d x y : Q) :
  a <= x <= b -> c <= y <= d -> 0 <= a -> 0 < c ->
  a / d <= x / y <= b / c.
Proof.
  intros [Ha Hb] [Hc Hd] H0 Hpos.
  assert (Hy : 0 < y) by lra. assert (Hdp : 0 < d) by lra.
  split.
  - apply Qle_shift_div_l; [exact Hy |].
    assert (E : a / d * y == a * (y / d)) by (field; lra).
    rewrite E.
    assert (Hyd : y / d <= 1) by (apply Qle_shift_div_r; lra).
    assert (0 <= y / d) by (apply Qle_shift_div_l; lra).
    nra.
  - apply Qle_shift_div_r; [exact Hy |].
    assert (E : b / c * y == b * (y / c)) by (field; lra).
    rewrite E.
    assert (Hyc : 1 <= y / c) by (apply Qle_shift_div_l; lra).
    nra.
Qed.

Lemma pos_from_bounds (lo hi x : Q) : lo <= x <= hi -> 0 < lo -> 0 < x.
Proof. intros [? ?] ?. lra. Qed.

Lemma ge_from_bounds (lo hi x c : Q) : lo <= x <= hi -> c <= lo -> c <= x.
Proof. intros [? ?] ?. lra. Qed.

Lemma within_from_bounds (lo hi x a b : Q) :
  lo <= x <= hi -> a <= lo -> hi <= b -> a <= x <= b.
Proof. intros [? ?] ? ?. split; lra. Qed.

(** A rounded division by a positive divisor returns. *)
Lemma py_fdiv_within (n r lo hi a b : Q) :
  fl_relative_error fl ->
  lo <= r <= hi -> 0 < lo -> 0 <= n -> min_normal <= n / hi ->
  a <= n / hi * (1 - unit_roundoff) ->
  n / lo * (1 + unit_roundoff) <= b ->
  exists m, py_fdiv fl n r = Ok m /\ a <= m <= b.
Proof.
  intros Herr Hr Hlo Hn H0 Ha Hb. unfold py_fdiv, fdiv.
  rewrite Qeq_bool_pos by (destruct Hr; lra).
  eexists. split; [reflexivity |].
  assert (Hq : n / hi <= n / r <= n / lo).
  { apply div_within; [split; apply Qle_refl | exact Hr | exact Hn | exact Hlo]. }
  destruct (fl_within _ _ _ Herr Hq H0). split; lra.
Qed.

End RoundingLemmas.

(** Closed inequalities between rational constants. *)
Ltac closed_le := vm_compute; discriminate.
Ltac closed_lt := vm_compute; reflexivity.

(** Bounds of an expression built from constants by rounded operations. *)
Ltac bound fl Herr :=
  lazymatch goal with
  | |- _ <= fl ?x /\ fl ?x <= _ =>
      eapply (fl_within fl _ _ x Herr); [bound fl Herr | closed_le]
  | |- _ <= ?x + ?y /\ ?x + ?y <= _ =>
      eapply add_within; [bound fl Herr | bound fl Herr]
  | |- _ <= ?x - ?y /\ ?x - ?y <= _ =>
      eapply sub_within; [bound fl Herr | bound fl Herr]
  | |- _ <= ?x * ?y /\ ?x * ?y <= _ =>
      eapply mul_within; [bound fl Herr | bound fl Herr | closed_le | closed_le]
  | |- _ <= ?x / ?y /\ ?x / ?y <= _ =>
      eapply div_within; [bound fl Herr | bound fl Herr | closed_le | closed_lt]
  | |- _ <= ?c /\ ?c <= _ =>
      exact (conj (Qle_refl c) (Qle_refl c))
  end.

(** Exact arithmetic meets the three assumptions on the rounding. *)
Lemma exact_rounding_monotone : fl_monotone exact_rounding.
Proof. intros x y H. exact H. Qed.

Lemma exact_rounding_integers : fl_exact_on_integers exact_rounding.
Proof. intros n _. apply Qeq_refl. Qed.

Lemma exact_rounding_error : fl_relative_error exact_rounding.
Proof.
  intros x _. unfold exact_rounding.
  assert (E : x - x == 0) by ring. rewrite E.
  change (Qabs 0) with 0.
  apply Qmult_le_0_compat; [discriminate | apply Qabs_nonneg].
Qed.

(** ** Claims on the traffic signals *)

(** C6 (as amended).  Constructing a signal with zero phases is not
    rejected: the constructor returns a signal in sub-state RED with phase
    index 0, and the configuration error is deferred to the first use, where
    [update] and [get_state_for_approach] raise [IndexError]. *)
Theorem zero_phase_signal_constructed (signal_id node : Z) (pos : Q * Q)
    (coord : bool) (off : Q) :
  exists s,
    TrafficSignal_init signal_id node pos [] coord off = Ok s /\
    current_state s = RED /\ current_phase_index s = 0%nat /\
    phases s = [] /\
    (forall dt, update s dt = Raise IndexError) /\
    (forall approach, get_state_for_approach s approach = Raise IndexError).
Proof.
  eexists. split; [reflexivity |]. cbn. repeat split; reflexivity.
Qed.


(** C10.  A single call to [update] (on a signal with a valid phase index)
    succeeds and performs at most one sub-state transition: the resulting
    sub-state is the old one, with the time step added to the timer, or its
    successor in the cycle, with the timer exactly 0 whatever the excess
    over the threshold; it is never the sub-state two transitions ahead. *)
Theorem update_single_transition (s : TrafficSignal) (dt : Q) :
  (current_phase_index s < length (phases s))%nat ->
  exists s', update s dt = Ok s' /\
    ((current_state s' = current_state s /\
      time_in_phase s' = time_in_phase s + dt)
     \/
     (current_state s' = succ_state (current_state s) /\
      time_in_phase s' = 0)) /\
    current_state s' <> succ_state (succ_state (current_state s)).
Proof.
  intros Hidx.
  destruct (lookup_lt_is_Some_2 _ _ Hidx) as [p Hp].
  rewrite (update_step s dt p Hp).
  eexists. split; [reflexivity |].
  destruct (Qgeb _ _); cbn.
  - split; [right; auto |]. destruct (current_state s); discriminate.
  - split; [left; auto |]. destruct (current_state s); discriminate.
Qed.

(** ** Claims on the vehicle kinematics *)

(** C4 (as amended).  When a leader exists at a gap [s <= 0], the leader
    term is skipped: the acceleration is the one computed without leader,
    that is the free-flow acceleration scaled by the aggressiveness factor
    and clamped to [[-max_deceleration, max_acceleration]] (not
    [-max_deceleration] in general).  The gap is never a divisor, and the
    call fails exactly where the leaderless call fails: with
    [ZeroDivisionError] when the desired speed is zero and the speed is a
    Python float, whatever its value; with a NumPy speed or a non-zero
    desired speed it returns. *)
Theorem nonpositive_gap_is_ignored (self : Vehicle) (s vl v0 : Q) :
  s <= 0 ->
  calculate_acceleration self (Some s) (Some vl) v0
    = calculate_acceleration self None None v0 /\
  calculate_acceleration self (Some s) (Some vl) v0 = free_flow self v0 /\
  (v0 == 0 /\ speed_is_numpy self = false ->
   calculate_acceleration self (Some s) (Some vl) v0
   = Raise ZeroDivisionError) /\
  (~ (v0 == 0 /\ speed_is_numpy self = false) ->
   exists a, calculate_acceleration self (Some s) (Some vl) v0 = Ok a).
Proof.
  intros Hs.
  assert (Heq : calculate_acceleration self (Some s) (Some vl) v0
                = free_flow self v0).
  { unfold calculate_acceleration, free_flow.
    apply Qgtb_le in Hs. rewrite Hs. reflexivity. }
  split; [rewrite Heq; reflexivity |]. split; [exact Heq |].
  rewrite Heq. unfold free_flow. split.
  - intros [Hz Hpy]. now rewrite (speed_div_Raise _ _ _ Hz Hpy).
  - intros Hnz.
    destruct (speed_div_ok (speed self) _ _ Hnz) as [r Hr]. rewrite Hr.
    cbn. eauto.
Qed.

(** C1 (as amended).  A successful per-tick update leaves the vehicle in
    the store with a speed that is never negative; when the vehicle has a
    route and a current edge, the new speed is
    [max(0, v + accel * time_step)], where [accel] is the acceleration
    recorded by the update.  No upper clamp at the maximum speed of the
    vehicle class is applied. *)
Theorem speed_nonnegative_after_update (self s' : TrafficSimulation)
    (vid : nat) (v : Vehicle) :
  objs self !! vid = Some v ->
  0 <= speed v ->
  _update_vehicle_position self vid = Ok s' ->
  exists v', objs s' !! vid = Some v' /\
    0 <= speed v' /\
    ((2 <= length (route v))%nat -> current_edge v <> None ->
     speed v' = integrate_speed (speed v) (acceleration v') (time_step self)).
Proof. apply update_vehicle_speed. Qed.

(** ** Claims on spawning *)

(** C3 (as amended).  When the route of a spawn intent has fewer than two
    nodes, [_spawn_vehicle] returns normally and changes nothing but the id
    counter, which advances by one: the [vehicles_spawned] statistic is not
    incremented, no vehicle is created, the active set and the occupancy
    lists are unchanged, and no trace of the intent is kept for a retry. *)
Theorem unroutable_spawn_dropped (self : TrafficSimulation) (now : Q)
    (vehicle_type : string) (orig dest : Q * Q) (draw_a draw_p : Q) :
  (length (find_route (network self) orig dest) < 2)%nat ->
  let s' := _spawn_vehicle self now vehicle_type orig dest draw_a draw_p in
  s' = set_next_vehicle_id self (next_vehicle_id self + 1) /\
  next_vehicle_id s' = (next_vehicle_id self + 1)%nat /\
  vehicles_spawned (sim_stats s') = vehicles_spawned (sim_stats self) /\
  sim_stats s' = sim_stats self /\
  vehicles s' = vehicles self /\
  objs s' = objs self /\
  edge_vehicles s' = edge_vehicles self /\
  completed_vehicles s' = completed_vehicles self.
Proof.
  intros Hlen s'.
  assert (Heq : s' = set_next_vehicle_id self (next_vehicle_id self + 1)).
  { subst s'. unfold _spawn_vehicle.
    cbn [network set_next_vehicle_id].
    apply Nat.ltb_lt in Hlen. rewrite Hlen. reflexivity. }
  rewrite Heq. repeat split; reflexivity.
Qed.

(** ** Claims on edge transitions *)


(** ** Claims on the edge occupancy *)

(** C8 (as amended).  In every state of a run, between any two of its
    operations (spawn, signal update, update of one vehicle with or without
    edge transition or completion, whole vehicle tick with retirement): a
    vehicle is on at most one occupancy list and at most once on it; an
    active vehicle that is not marked completed is on the list of its
    current edge; a vehicle marked completed, which stays in the active set
    with its last edge until the next tick retires it, is on no list; and
    the per-edge occupancy counts add up to the number of active vehicles
    not marked completed. *)
Theorem occupancy_consistent (s : TrafficSimulation) :
  reachable s -> occupancy_ok s.
Proof.
  intros H. apply inv_occupancy_ok, reachable_inv, H.
Qed.

(** ** Claims on the congestion level *)

(** C5.  The congestion level is clamped from above only.  For a car that
    drives at 100 km/h on a 700 m single-lane edge limited to 50 km/h, the
    occupancy ratio is 1/100 and the speed ratio is -1, and
    [get_congestion_level] returns [0.6 * 0.01 + 0.4 * (-1) = -0.394], which
    lies outside [[0, 1]]. *)
Theorem congestion_negative_for_speeding_car :
  exists c, get_congestion_level speeding_car_sim (0, 1, 0)%Z = Ok c /\
            c == - (197 # 500) /\ c < 0.
Proof.
  eexists. split; [vm_compute; reflexivity |]. split; reflexivity.
Qed.

(** * Further properties of the code *)

(** ** Signals and their controller *)

(** X1.  A successful [update] changes nothing but the sub-state, the
    timer and the phase index: the identity, node, position, phases,
    coordination data, cycle length and counters of the signal are kept, and
    the phase index stays within the phase list. *)
Theorem update_keeps_configuration (s s' : TrafficSignal) (dt : Q) :
  update s dt = Ok s' ->
  sig_id s' = sig_id s /\ node_id s' = node_id s /\
  sig_position s' = sig_position s /\ phases s' = phases s /\
  coordinated s' = coordinated s /\ offset s' = offset s /\
  cycle_length s' = cycle_length s /\
  vehicles_served s' = vehicles_served s /\ total_delay s' = total_delay s /\
  (current_phase_index s' < length (phases s'))%nat.
Proof.
  intros Hup.
  destruct (phases s !! current_phase_index s) as [p |] eqn:Hp.
  - assert (Hidx : (current_phase_index s < length (phases s))%nat).
    { eapply lookup_lt_Some, Hp. }
    pose proof (index_after_valid s Hidx) as Hia.
    rewrite (update_step s dt p Hp) in Hup.
    destruct (Qgeb _ _); inversion Hup; subst s'; cbn; repeat split;
      assumption.
  - rewrite (update_no_phase s dt Hp) in Hup. discriminate.
Qed.

(** X2.  An approach outside the green set of the current phase is red
    whatever the sub-state of the signal: it is never green and a vehicle on
    it may never proceed, at any distance and speed. *)
Theorem approach_outside_phase_is_red (s : TrafficSignal) (p : SignalPhase)
    (approach : string) (distance v : Q) :
  phases s !! current_phase_index s = Some p ->
  in_str approach (green_approaches p) = false ->
  get_state_for_approach s approach = Ok RED /\
  is_green_for_approach s approach = Ok false /\
  can_vehicle_proceed s approach distance v = Ok false.
Proof.
  intros Hp Hout.
  assert (Hst : get_state_for_approach s approach = Ok RED).
  { rewrite (get_state_for_approach_eq s p approach Hp). now rewrite Hout. }
  unfold is_green_for_approach, can_vehicle_proceed. rewrite Hst. auto.
Qed.

(** X3.  The dilemma-zone rule on YELLOW, for an approach of the current
    phase: a vehicle at rest in front of the signal does not proceed, and
    whenever a vehicle may proceed, so may any vehicle that is at least as
    fast and at most as far from the signal. *)
Theorem yellow_rule_monotone (s : TrafficSignal) (p : SignalPhase)
    (approach : string) :
  phases s !! current_phase_index s = Some p ->
  in_str approach (green_approaches p) = true ->
  current_state s = YELLOW ->
  (forall d, 0 <= d -> can_vehicle_proceed s approach d 0 = Ok false) /\
  (forall d v d' v',
      can_vehicle_proceed s approach d v = Ok true ->
      d' <= d -> 0 <= v -> v <= v' ->
      can_vehicle_proceed s approach d' v' = Ok true).
Proof.
  intros Hp Hin Hy.
  assert (Hcan : forall d v,
            can_vehicle_proceed s approach d v
            = Ok (Qltb d (v ^ 2 / (2 * (45 # 10))))).
  { intros d v. unfold can_vehicle_proceed.
    rewrite (get_state_for_approach_eq s p approach Hp), Hin, Hy.
    reflexivity. }
  split.
  - intros d Hd. rewrite Hcan. f_equal. apply Qltb_ge.
    change (0 ^ 2) with (0 * 0). unfold Qdiv. lra.
  - intros d v d' v' H Hd Hv Hvv. rewrite Hcan in H. rewrite Hcan.
    inversion H as [Hlt]. rewrite Hlt. f_equal.
    apply Qltb_lt in Hlt. apply Qltb_lt.
    change (v ^ 2) with (v * v) in Hlt. change (v' ^ 2) with (v' * v').
    pose proof (Qsquare_le v v' Hv Hvv) as Hsq.
    unfold Qdiv in *.
    set (k := / (2 * (45 # 10))) in *.
    assert (Hk : 0 < k) by (subst k; reflexivity).
    nra.
Qed.

(** X4.  When every signal of the controller has a phase at its index,
    [update_all_signals] succeeds, keeps the set of signalled nodes and
    replaces each signal by its own update. *)
Theorem update_all_signals_pointwise (sigs : gmap Z TrafficSignal) (dt : Q) :
  (forall k s, sigs !! k = Some s ->
     (current_phase_index s < length (phases s))%nat) ->
  exists sigs',
    update_all_signals sigs dt = Ok sigs' /\
    (forall k s, sigs !! k = Some s ->
       exists s', update s dt = Ok s' /\ sigs' !! k = Some s') /\
    (forall k, sigs !! k = None -> sigs' !! k = None).
Proof.
  intros Hvalid. pose proof (update_all_signals_spec sigs dt) as Hspec.
  destruct (update_all_signals sigs dt) as [sigs' | e].
  - exists sigs'. split; [reflexivity | exact Hspec].
  - destruct Hspec as (_ & k & s & Hk & Hs).
    apply Hvalid in Hk. apply lookup_ge_None in Hs. lia.
Qed.

(** X5.  A single signal without a phase at its index (a signal built with
    zero phases) makes the update of the whole controller fail with
    [IndexError]. *)
Theorem update_all_signals_zero_phase (sigs : gmap Z TrafficSignal) (dt : Q)
    (k : Z) (s : TrafficSignal) :
  sigs !! k = Some s ->
  phases s !! current_phase_index s = None ->
  update_all_signals sigs dt = Raise IndexError.
Proof.
  intros Hk Hs. pose proof (update_all_signals_spec sigs dt) as Hspec.
  destruct (update_all_signals sigs dt) as [sigs' | e].
  - destruct Hspec as [Hsome _].
    destruct (Hsome k s Hk) as (s' & Hup & _).
    rewrite (update_no_phase s dt Hs) in Hup. discriminate.
  - destruct Hspec as [-> _]. reflexivity.
Qed.

(** X6.  [create_standard_signal] registers the new signal at its node,
    replacing any signal that was there and leaving the other nodes alone.
    The signal starts RED in its first phase, its cycle length is the two
    green times plus 6 s of yellow (the all-red seconds are not counted),
    and every sequence of updates on it succeeds. *)
Theorem create_standard_signal_ready (sigs : gmap Z TrafficSignal)
    (signal_id node : Z) (position : Q * Q) (major minor : Q) :
  exists sigs' s,
    create_standard_signal sigs signal_id node position major minor
      = Ok (sigs', s) /\
    get_signal_at_node sigs' node = Some s /\
    (forall n, n <> node ->
       get_signal_at_node sigs' n = get_signal_at_node sigs n) /\
    node_id s = node /\
    current_state s = RED /\ current_phase_index s = 0%nat /\
    cycle_length s == major + minor + 6 /\
    forall dts, exists tr, run_updates s dts = Ok tr.
Proof.
  do 2 eexists. split; [reflexivity |]. unfold get_signal_at_node, add_signal.
  cbn [node_id]. split; [apply lookup_insert_eq |].
  split; [intros n Hn; now apply lookup_insert_ne |].
  split; [reflexivity |]. split; [reflexivity |]. split; [reflexivity |].
  split; [cbn; ring |].
  intros dts. apply run_updates_ok. cbn. lia.
Qed.

(** X7.  With a non-zero progression speed, [create_arterial_signals]
    returns one coordinated signal per pair of [zip(nodes, positions)] (the
    longer list is cut), in order, the [i]-th at node [nodes[i]] with id [i]
    and offset [i * spacing / green_wave_speed]. *)
Theorem create_arterial_signals_offsets (sigs : gmap Z TrafficSignal)
    (nodes : list Z) (positions : list (Q * Q))
    (green_wave_speed spacing : Q) :
  ~ green_wave_speed == 0 ->
  exists sigs' l,
    create_arterial_signals sigs nodes positions green_wave_speed spacing
      = Ok (sigs', l) /\
    length l = Nat.min (length nodes) (length positions) /\
    forall i s, l !! i = Some s ->
      sig_id s = Z.of_nat i /\
      nodes !! i = Some (node_id s) /\
      positions !! i = Some (sig_position s) /\
      coordinated s = true /\
      offset s = inject_Z (Z.of_nat i) * spacing / green_wave_speed.
Proof.
  intros Hspeed. unfold create_arterial_signals.
  destruct (arterial_loop_ok green_wave_speed spacing (zip nodes positions)
              Hspeed 0 sigs []) as (sigs' & new & Hloop & Hlen & Hnew).
  exists sigs', new. split; [exact Hloop |].
  split; [now rewrite Hlen, length_zip |].
  intros i s Hs.
  destruct (Hnew i s Hs) as (H1 & H2 & H3 & _ & _ & pos & Hzip & Hpos).
  cbn in H1, H3.
  apply lookup_zip_with_Some in Hzip.
  destruct Hzip as (n & p & Heq & Hn & Hp). inversion Heq; subst n p.
  repeat split; try assumption. now rewrite Hpos.
Qed.

(** X8.  With a progression speed of zero, [create_arterial_signals]
    raises [ZeroDivisionError] as soon as there is one node with a position;
    without any, it returns no signal and keeps the controller. *)
Theorem create_arterial_signals_zero_speed (sigs : gmap Z TrafficSignal)
    (nodes : list Z) (positions : list (Q * Q))
    (green_wave_speed spacing : Q) :
  green_wave_speed == 0 ->
  create_arterial_signals sigs nodes positions green_wave_speed spacing
  = match zip nodes positions with
    | [] => Ok (sigs, [])
    | _ :: _ => Raise ZeroDivisionError
    end.
Proof.
  intros Hspeed. unfold create_arterial_signals.
  destruct (zip nodes positions) as [| [node pos] rest]; [reflexivity |].
  cbn [arterial_loop]. now rewrite py_div_Raise.
Qed.

(** X9.  Whenever [calculate_cycle_length] returns, the cycle length lies
    between 60 s and 180 s. *)
Theorem cycle_length_within_bounds (fl : Q -> Q)
    (critical_volumes : list Q) (lost target c : Q) :
  calculate_cycle_length fl critical_volumes lost target = Ok c ->
  60 <= c <= 180.
Proof.
  unfold calculate_cycle_length. intros H.
  inv_bind H. inv_bind H. inversion H; subst c.
  apply clipQ_bounds. discriminate.
Qed.

(** X10.  [calculate_cycle_length] raises [ZeroDivisionError] when the
    target ratio is zero and when the sum of the critical volumes, as
    computed, equals the target ratio; it raises no other exception.  (The
    condition is not necessary: a sum that differs from the target can
    still give a ratio that rounds to 1.) *)
Theorem cycle_length_zero_division (fl : Q -> Q)
    (critical_volumes : list Q) (lost target : Q) :
  fl_monotone fl -> fl_exact_on_integers fl ->
  (target == 0 \/ py_fsum fl critical_volumes == target ->
   calculate_cycle_length fl critical_volumes lost target
   = Raise ZeroDivisionError) /\
  (forall e,
     calculate_cycle_length fl critical_volumes lost target = Raise e ->
     e = ZeroDivisionError).
Proof.
  intros Hm Hi. unfold calculate_cycle_length, py_fdiv. split.
  - intros H.
    destruct (Qeq_bool target 0) eqn:Et; [reflexivity |].
    apply Qeq_bool_neq in Et. destruct H as [H | H]; [contradiction |].
    cbn [mbind result_bind].
    assert (Hr : fdiv fl (py_fsum fl critical_volumes) target == 1).
    { unfold fdiv. rewrite <- (fl_one fl Hi). apply (fl_proper fl _ _ Hm).
      rewrite H. field. exact Et. }
    assert (Hd : fsub fl 1 (fdiv fl (py_fsum fl critical_volumes) target)
                 == 0).
    { unfold fsub. rewrite <- (fl_zero fl Hi). apply (fl_proper fl _ _ Hm).
      rewrite Hr. ring. }
    apply Qeq_bool_iff in Hd. now rewrite Hd.
  - intros e.
    destruct (Qeq_bool target 0); cbn [mbind result_bind];
      [now intros [= <-] |].
    destruct (Qeq_bool _ 0); cbn [mbind result_bind];
      [now intros [= <-] | discriminate].
Qed.

(** X11.  For an over-saturated intersection (the computed sum of the
    critical volumes above a positive target ratio, non-negative lost
    time), [calculate_cycle_length] never returns anything but the minimum
    cycle of 60 s: the formula is not positive, or its denominator rounds
    to zero and the call raises [ZeroDivisionError]. *)
Theorem cycle_length_oversaturated (fl : Q -> Q)
    (critical_volumes : list Q) (lost target : Q) :
  fl_monotone fl -> fl_exact_on_integers fl ->
  0 < target -> target < py_fsum fl critical_volumes -> 0 <= lost ->
  match calculate_cycle_length fl critical_volumes lost target with
  | Ok c => c == 60
  | Raise e => e = ZeroDivisionError
  end.
Proof.
  intros Hm Hi Ht Hsum Hlost. unfold calculate_cycle_length, py_fdiv.
  rewrite (Qeq_bool_pos _ Ht). cbn [mbind result_bind].
  set (ratio := fdiv fl (py_fsum fl critical_volumes) target).
  assert (Hratio : 1 <= ratio).
  { subst ratio. unfold fdiv. rewrite <- (fl_one fl Hi). apply Hm.
    apply Qle_shift_div_l; [exact Ht | lra]. }
  assert (Hden : fsub fl 1 ratio <= 0).
  { unfold fsub. apply (fl_nonpos fl _ Hm Hi). lra. }
  destruct (Qeq_bool (fsub fl 1 ratio) 0) eqn:Ed; cbn [mbind result_bind];
    [reflexivity |].
  apply Qeq_bool_neq in Ed.
  apply clipQ_below; [discriminate |].
  set (num := fadd fl (fmul fl (lit fl (15 # 10))
                         (fmul fl
                            (inject_Z (Z.of_nat (length critical_volumes)))
                            lost)) 5).
  assert (Hnum : 0 <= num).
  { subst num. unfold fadd, fmul, lit.
    assert (Hn : 0 <= inject_Z (Z.of_nat (length critical_volumes))).
    { change 0 with (inject_Z 0). rewrite <- Zle_Qle. lia. }
    assert (H1 : 0 <= fl (inject_Z (Z.of_nat (length critical_volumes)) * lost)).
    { apply (fl_nonneg fl _ Hm Hi). nra. }
    assert (H2 : 0 <= fl (15 # 10)).
    { apply (fl_nonneg fl _ Hm Hi). discriminate. }
    assert (H3 : 0 <= fl (fl (15 # 10)
                          * fl (inject_Z (Z.of_nat (length critical_volumes))
                                * lost))).
    { apply (fl_nonneg fl _ Hm Hi). nra. }
    apply (fl_nonneg fl _ Hm Hi). lra. }
  set (den := fsub fl 1 ratio) in *.
  assert (Hneg : num / den <= 0).
  { assert (Hflip : num / den == - (num / - den)) by (field; lra).
    assert (Hpos : 0 <= num / - den).
    { apply Qle_shift_div_l; lra. }
    lra. }
  unfold fdiv.
  apply Qle_trans with 0; [| discriminate].
  now apply (fl_nonpos fl _ Hm Hi).
Qed.

(** X12.  With no phase, [split_green_time] raises [ZeroDivisionError] on
    a Python-float cycle length and returns the empty list on a NumPy
    cycle length, such as a result of [calculate_cycle_length]; with
    phases it returns one green time per phase. *)
Theorem split_green_time_length (fl : Q -> Q) (cycle : Q)
    (cycle_is_numpy : bool) (phase_volumes : list Q)
    (yellow_time all_red_time : Q) :
  match phase_volumes with
  | [] =>
      split_green_time fl cycle cycle_is_numpy phase_volumes yellow_time
        all_red_time
      = if cycle_is_numpy then Ok [] else Raise ZeroDivisionError
  | _ :: _ =>
      exists l,
        split_green_time fl cycle cycle_is_numpy phase_volumes yellow_time
          all_red_time = Ok l /\
        length l = length phase_volumes
  end.
Proof.
  destruct phase_volumes as [| v vols]; [reflexivity |].
  unfold split_green_time.
  destruct (Qeq_bool (py_fsum fl (v :: vols)) 0); cbn [length].
  - eexists. split; [reflexivity |]. apply length_replicate.
  - eexists. split; [reflexivity |]. now rewrite !length_map.
Qed.

(** X13.  When the phase volumes add up to something else than zero,
    every green time returned by [split_green_time] is at least the
    minimum green of 7 s.  When they add up to zero, the minimum is not
    applied: every phase gets the same share, the available green time
    divided by the number of phases, however small. *)
Theorem split_green_time_minimum (fl : Q -> Q) (cycle : Q)
    (cycle_is_numpy : bool) (phase_volumes l : list Q)
    (yellow_time all_red_time : Q) :
  split_green_time fl cycle cycle_is_numpy phase_volumes yellow_time
    all_red_time = Ok l ->
  let n := inject_Z (Z.of_nat (length phase_volumes)) in
  let available :=
    fsub fl cycle (fmul fl n (fadd fl yellow_time all_red_time)) in
  (~ py_fsum fl phase_volumes == 0 -> forall g, g ∈ l -> 7 <= g) /\
  (py_fsum fl phase_volumes == 0 ->
   forall g, g ∈ l -> g = fdiv fl available n).
Proof.
  intros Hsplit n available. unfold split_green_time in Hsplit.
  fold n in Hsplit. fold available in Hsplit.
  destruct (Qeq_bool (py_fsum fl phase_volumes) 0) eqn:E.
  - apply Qeq_bool_iff in E. split; [intros Hne; contradiction |].
    intros _ g Hg.
    destruct (length phase_volumes) eqn:Hlen.
    + destruct cycle_is_numpy; [| discriminate].
      inversion Hsplit; subst l. now apply not_elem_of_nil in Hg.
    + inversion Hsplit; subst l.
      change (g ∈ replicate (S n0) (fdiv fl available n)) in Hg.
      now apply elem_of_replicate in Hg as [-> _].
  - apply Qeq_bool_neq in E. split; [| intros Hz; contradiction].
    intros _ g Hg. inversion Hsplit; subst l.
    apply list_elem_of_In, List.in_map_iff in Hg as (x & <- & _).
    apply py_max_ge_r.
Qed.

(** X14.  [_setup_signals] on a simulation without signals, every node of
    the graph having a position: it succeeds, touches nothing but the
    signals, places at most 20 of them, each on a node of the graph, RED in
    the first of its two phases, the first node of the graph getting one;
    and the controller it leaves can always be updated. *)
Theorem setup_signals_ready (self : TrafficSimulation)
    (graph_node_order : list Z) :
  signals self = ∅ ->
  (forall n, n ∈ graph_node_order ->
     is_Some (graph_nodes (network self) !! n)) ->
  exists sigs,
    _setup_signals self graph_node_order = Ok (set_signals self sigs) /\
    (size sigs <= 20)%nat /\
    (forall k sg, sigs !! k = Some sg ->
       k ∈ graph_node_order /\ node_id sg = k /\ current_state sg = RED /\
       current_phase_index sg = 0%nat /\ length (phases sg) = 2%nat) /\
    (forall n, head graph_node_order = Some n -> is_Some (sigs !! n)) /\
    (forall dt, exists sigs', update_all_signals sigs dt = Ok sigs').
Proof.
  intros Hempty Hpos. unfold _setup_signals.
  set (nodes := take 20 (every_fifth 0 graph_node_order)).
  assert (Hsub : forall n, n ∈ nodes -> n ∈ graph_node_order).
  { intros n Hn. eapply every_fifth_subseteq, take_subseteq_elem, Hn. }
  destruct (place_signals_spec (network self) nodes
              (fun n Hn => Hpos n (Hsub n Hn)) 0 (signals self))
    as (sigs & Hplace & Hsize & Hdom & Hsigs).
  exists sigs. rewrite Hplace. split; [reflexivity |].
  rewrite Hempty in Hsize, Hsigs. rewrite map_size_empty in Hsize.
  assert (Hnew : forall k sg, sigs !! k = Some sg ->
            k ∈ graph_node_order /\ node_id sg = k /\ current_state sg = RED /\
            current_phase_index sg = 0%nat /\ length (phases sg) = 2%nat).
  { intros k sg Hk. destruct (Hsigs k sg Hk) as [Hold | (Hin & H)].
    - now rewrite lookup_empty in Hold.
    - split; [now apply Hsub | exact H]. }
  split; [| split; [exact Hnew | split]].
  - subst nodes. rewrite length_take in Hsize. lia.
  - intros n Hn. apply Hdom. right. subst nodes.
    destruct graph_node_order as [| n0 rest]; [discriminate |].
    inversion Hn; subst n0. cbn. apply elem_of_cons. now left.
  - intros dt. pose proof (update_all_signals_spec sigs dt) as Hspec.
    destruct (update_all_signals sigs dt) as [sigs' | e]; [eauto |].
    destruct Hspec as (_ & k & sg & Hk & Hnone).
    destruct (Hnew k sg Hk) as (_ & _ & _ & Hidx & Hlen).
    apply lookup_ge_None in Hnone. lia.
Qed.

(** ** Vehicles *)

(** X15.  Whatever the leader and the desired speed, a finite acceleration
    returned by [calculate_acceleration] lies between [-max_deceleration]
    and [max_acceleration]. *)
Theorem acceleration_within_limits (self : Vehicle)
    (leader_distance leader_speed : option Q) (desired_speed a : Q) :
  - max_deceleration self <= max_acceleration self ->
  calculate_acceleration self leader_distance leader_speed desired_speed
    = Ok (Some a) ->
  - max_deceleration self <= a <= max_acceleration self.
Proof.
  intros Hlh H. unfold calculate_acceleration in H. inv_bind H.
  inversion H as [Hclip]. eapply np_clip_bounds; eassumption.
Qed.

(** X16.  In a state of a run, updating a vehicle that is at rest on an
    edge whose downstream signal does not let it proceed raises
    [ZeroDivisionError]: the desired speed is [0.0] and the car-following
    law divides the speed [0.0] by it. *)
Theorem vehicle_at_rest_before_red_raises (self : TrafficSimulation)
    (vid : nat) (v : Vehicle) (u w key : Z) (info : EdgeInfo)
    (sg : TrafficSignal) :
  reachable self ->
  objs self !! vid = Some v ->
  current_edge v = Some (u, w, key) ->
  speed v == 0 ->
  get_edge_info (network self) u w key = Ok info ->
  signals self !! w = Some sg ->
  can_vehicle_proceed sg "north" (edge_length info * (5 # 10)) (speed v)
    = Ok false ->
  _update_vehicle_position self vid = Raise ZeroDivisionError.
Proof.
  intros Hreach Hv Hcur Hrest Hinfo Hsig Hcan.
  pose proof (reachable_inv _ Hreach) as I.
  destruct (inv_store _ I _ _ Hv) as (_ & Hlen & _).
  unfold _update_vehicle_position, deref. rewrite Hv.
  cbn [mbind result_bind].
  apply Nat.ltb_ge in Hlen. rewrite Hlen, Hcur, Hinfo.
  cbn [mbind result_bind]. rewrite Hsig, Hcan. cbn [mbind result_bind].
  destruct (find_leader_ok self (u, w, key) vid I) as ([ld ls] & ->).
  cbn [mbind result_bind negb].
  assert (Hpy : speed_is_numpy v = false).
  { rewrite (reachable_speed_types _ Hreach _ _ Hv).
    apply Qgtb_le. rewrite Hrest. apply Qle_refl. }
  unfold calculate_acceleration.
  change (speed_is_numpy (set_waiting_at_signal v true))
    with (speed_is_numpy v).
  rewrite speed_div_Raise; [reflexivity | reflexivity | exact Hpy].
Qed.

(** X17.  A moving vehicle whose desired speed is zero (it is held by a
    signal), with or without leader.  When its speed is a NumPy scalar, as
    every positive speed computed by an update is, the speed ratio is
    infinite and the clamp brings the acceleration back to
    [-max_deceleration]: the vehicle brakes at its maximum deceleration.
    When its speed is a Python float, the division raises
    [ZeroDivisionError]. *)
Theorem moving_vehicle_brakes_at_zero_desired_speed (self : Vehicle)
    (leader_distance leader_speed : option Q) (desired_speed : Q) :
  0 < speed self ->
  desired_speed == 0 ->
  0 < max_acceleration self ->
  0 <= max_deceleration self ->
  - (1) < aggressiveness self ->
  calculate_acceleration self leader_distance leader_speed desired_speed
    = if speed_is_numpy self
      then Ok (Some (- max_deceleration self))
      else Raise ZeroDivisionError.
Proof.
  intros Hv Hd Hacc Hdec Hagg.
  unfold calculate_acceleration, speed_div.
  apply Qeq_bool_iff in Hd. rewrite Hd.
  destruct (speed_is_numpy self); [| reflexivity].
  cbn [mbind result_bind].
  assert (Hfree :
    xmul (Fin (max_acceleration self))
      (xsub (Fin 1)
         (xpow_even (xdiv (Fin (speed self)) (Fin desired_speed)) 4)) = NInf).
  { unfold xdiv. rewrite Hd, (Qcompare_pos _ Hv). cbn.
    now rewrite (Qcompare_pos _ Hacc). }
  rewrite Hfree.
  assert (Hlead :
    match leader_distance, leader_speed with
    | Some ld, Some ls =>
        if Qgtb ld 0
        then xsub NInf
               (xmul (Fin (max_acceleration self))
                  (xpow_even (xdiv (desired_spacing self ls) (Fin ld)) 2))
        else NInf
    | _, _ => NInf
    end = NInf).
  { destruct leader_distance as [ld |]; [| reflexivity].
    destruct leader_speed as [ls |]; [| reflexivity].
    destruct (Qgtb ld 0) eqn:Hld; [| reflexivity].
    apply Qgtb_gt in Hld.
    destruct (leader_term_shape self ls ld Hld (Qlt_le_weak _ _ Hacc))
      as [(t & -> & _) | [[-> _] | [_ Hz]]]; [reflexivity | reflexivity | lra]. }
  rewrite Hlead.
  assert (Hf : 0 < (5 # 10) + (5 # 10) * aggressiveness self) by lra.
  assert (Hscaled :
    xmul NInf (Fin ((5 # 10) + (5 # 10) * aggressiveness self)) = NInf).
  { cbn. now rewrite (Qcompare_pos _ Hf). }
  rewrite Hscaled. cbn [np_clip].
  assert (Hno : Qltb (max_acceleration self) (- max_deceleration self) = false).
  { apply Qltb_ge. lra. }
  now rewrite Hno.
Qed.

(** X18.  Without leader and with a positive desired speed, the
    acceleration pulls the speed towards the desired speed: it is never
    negative at or below the desired speed and never positive at or above
    it. *)
Theorem free_flow_seeks_desired_speed (self : Vehicle) (desired_speed : Q) :
  0 < desired_speed ->
  0 <= speed self ->
  0 <= max_acceleration self ->
  0 <= max_deceleration self ->
  - (1) <= aggressiveness self ->
  exists a,
    calculate_acceleration self None None desired_speed = Ok (Some a) /\
    (speed self <= desired_speed -> 0 <= a) /\
    (desired_speed <= speed self -> a <= 0).
Proof.
  intros Hd Hv Hacc Hdec Hagg.
  unfold calculate_acceleration, speed_div.
  rewrite (Qeq_bool_pos _ Hd). cbn.
  eexists. split; [reflexivity |].
  set (r := speed self / desired_speed).
  set (f := (5 # 10) + (5 # 10) * aggressiveness self).
  assert (Hf : 0 <= f) by (subst f; lra).
  assert (Hr0 : 0 <= r).
  { subst r. apply Qle_shift_div_l; [exact Hd | lra]. }
  assert (Hzero : clipQ 0 (- max_deceleration self) (max_acceleration self) = 0).
  { apply clipQ_id; lra. }
  split; intros Hcmp.
  - assert (Hr1 : r <= 1).
    { subst r. apply Qle_shift_div_r; [exact Hd | lra]. }
    pose proof (pow4_le_1 r Hr0 Hr1) as Hp.
    apply Qle_trans
      with (clipQ 0 (- max_deceleration self) (max_acceleration self));
      [rewrite Hzero; apply Qle_refl | apply clipQ_mono].
    assert (0 <= max_acceleration self * (1 + - r ^ 4)) by nra. nra.
  - assert (Hr1 : 1 <= r).
    { subst r. apply Qle_shift_div_l; [exact Hd | lra]. }
    pose proof (pow4_ge_1 r Hr1) as Hp.
    apply Qle_trans
      with (clipQ 0 (- max_deceleration self) (max_acceleration self));
      [apply clipQ_mono | rewrite Hzero; apply Qle_refl].
    assert (max_acceleration self * (1 + - r ^ 4) <= 0) by nra. nra.
Qed.

(** X19.  A leader never makes a vehicle accelerate harder: for a non-zero
    desired speed, the acceleration computed with a leader, when finite, is
    at most the acceleration computed without. *)
Theorem leader_never_increases_acceleration (self : Vehicle)
    (ld ls desired_speed : Q) :
  ~ desired_speed == 0 ->
  0 <= max_acceleration self ->
  - (1) <= aggressiveness self ->
  exists a0,
    calculate_acceleration self None None desired_speed = Ok (Some a0) /\
    forall a1,
      calculate_acceleration self (Some ld) (Some ls) desired_speed
        = Ok (Some a1) ->
      a1 <= a0.
Proof.
  intros Hd Hacc Hagg.
  unfold calculate_acceleration, speed_div.
  assert (Hnz : Qeq_bool desired_speed 0 = false).
  { destruct (Qeq_bool desired_speed 0) eqn:E; [| reflexivity].
    apply Qeq_bool_iff in E. contradiction. }
  rewrite Hnz. cbn [mbind result_bind].
  set (f := (5 # 10) + (5 # 10) * aggressiveness self).
  set (lo := - max_deceleration self). set (hi := max_acceleration self).
  assert (Hf : 0 <= f) by (subst f; lra).
  set (x0 := hi * (1 + - (speed self / desired_speed) ^ 4)).
  exists (clipQ (x0 * f) lo hi). split; [reflexivity |].
  intros a1. destruct (Qgtb ld 0) eqn:Hld.
  2:{ intros H. inversion H. apply Qle_refl. }
  apply Qgtb_gt in Hld.
  destruct (leader_term_shape self ls ld Hld Hacc)
    as [(t & Ht & Htpos) | [[Ht _] | [Ht _]]];
    fold hi in Ht; rewrite Ht;
    cbn [xpow_even xsub xneg xadd xmul np_clip xsgn].
  - intros H. inversion H. apply clipQ_mono.
    change ((x0 + - t) * f <= x0 * f). nra.
  - destruct (f ?= 0) eqn:Hcmp; cbn [sgn_mul xinf np_clip].
    + discriminate.
    + apply Qlt_alt in Hcmp. lra.
    + intros H. inversion H.
      destruct (Qltb hi lo) eqn:Hhl.
      * unfold clipQ.
        destruct (Qltb (x0 * f) lo) eqn:E1.
        -- rewrite Hhl. apply Qle_refl.
        -- apply Qltb_ge in E1. apply Qltb_lt in Hhl.
           assert (E2 : Qltb hi (x0 * f) = true) by (apply Qltb_lt; lra).
           rewrite E2. apply Qle_refl.
      * apply Qltb_ge in Hhl. now apply clipQ_bounds.
  - discriminate.
Qed.

(** X20.  [should_change_lane] never answers yes for an unsafe target
    lane, nor (for a politeness of at most 1 and an aggressiveness of at
    least -1, as all vehicle classes have) for a target lane that is not
    faster than the current one. *)
Theorem lane_change_needs_safe_faster_lane (self : Vehicle)
    (current_lane_speed target_lane_speed : Q) (target_lane_safe : bool) :
  politeness self <= 1 ->
  - (1) <= aggressiveness self ->
  target_lane_safe = false \/ target_lane_speed <= current_lane_speed ->
  should_change_lane self current_lane_speed target_lane_speed
    target_lane_safe = false.
Proof.
  intros Hpol Hagg Hcase. unfold should_change_lane.
  destruct target_lane_safe; [| reflexivity]. cbn [negb].
  destruct Hcase as [Hf | Hslow]; [discriminate |].
  apply Qgtb_le.
  assert (0 <= (5 # 10) + (5 # 10) * aggressiveness self) by lra.
  assert (target_lane_speed - current_lane_speed <= 0) by lra.
  nra.
Qed.

(** X21.  Whatever the type string and the two random samples, the vehicle
    built for a spawn has the requested id and route, is at rest, not
    completed and on no edge, has positive class limits, an aggressiveness
    in [[0.1, 0.95]] and a politeness in [[0.2, 0.9]]. *)
Theorem spawned_vehicle_parameters (vehicle_type : string) (i : nat) (t : Q)
    (o d : Q * Q) (rt : list Z) (draw_a draw_p : Q) :
  let v := make_vehicle vehicle_type i t o d rt draw_a draw_p in
  id v = i /\ route v = rt /\ speed v = 0 /\ completed v = false /\
  current_edge v = None /\ position v = o /\
  0 < max_speed v /\ 0 < max_acceleration v /\ 0 < max_deceleration v /\
  (1 # 10) <= aggressiveness v <= (95 # 100) /\
  (2 # 10) <= politeness v <= (9 # 10).
Proof.
  unfold make_vehicle.
  repeat match goal with |- context [String.eqb ?a ?b] =>
    destruct (String.eqb a b) end;
    cbn -[clipQ Qle Qlt];
    (repeat (split; [reflexivity |]));
    split;
    match goal with
    | |- _ <= clipQ ?x ?lo ?hi <= _ =>
        assert (Hb : lo <= clipQ x lo hi <= hi)
          by (apply clipQ_bounds; discriminate);
        destruct Hb as [Hb1 Hb2]; split;
        [eapply Qle_trans; [| exact Hb1]; discriminate
        | eapply Qle_trans; [exact Hb2 |]; discriminate]
    end.
Qed.

(** X22.  [update_position] moves the vehicle to the new position and
    leaves its speed, edge and flags alone; the elapsed time grows by the
    time step and the distance by the straight-line distance between the
    two positions; the recorded maximum speed never decreases and is at
    least the current speed; and once the elapsed time is positive, the
    average speed times the elapsed time is the distance. *)
Theorem update_position_statistics (self : Vehicle) (new_position : Q * Q)
    (dt : Q) :
  let v' := update_position self new_position dt in
  position v' = new_position /\
  speed v' = speed self /\ current_edge v' = current_edge self /\
  completed v' = completed self /\
  total_time (stats v') = total_time (stats self) + dt /\
  total_distance (stats v')
    = total_distance (stats self)
      + np_sqrt ((fst new_position - fst (position self)) ^ 2
                 + (snd new_position - snd (position self)) ^ 2) /\
  stats_max_speed (stats self) <= stats_max_speed (stats v') /\
  speed self <= stats_max_speed (stats v') /\
  (0 < total_time (stats v') ->
   average_speed (stats v') * total_time (stats v')
   == total_distance (stats v')).
Proof.
  cbn -[Qgtb Qle Qlt Qeq Qplus Qmult Qdiv Qminus Qpower].
  repeat (split; [reflexivity |]).
  split; [| split].
  - destruct (Qgtb (speed self) (stats_max_speed (stats self))) eqn:E.
    + apply Qgtb_gt in E. lra.
    + lra.
  - destruct (Qgtb (speed self) (stats_max_speed (stats self))) eqn:E.
    + lra.
    + apply Qgtb_le in E. exact E.
  - intros Hpos.
    assert (E : Qgtb (total_time (stats self) + dt) 0 = true)
      by now apply Qgtb_gt.
    rewrite E. field. lra.
Qed.

(** ** The simulation *)

(** X23.  A spawn whose route has two nodes at least creates exactly one
    vehicle: it takes the current value of the id counter, is registered
    last in the active set, starts at rest at its origin on the edge of the
    first two route nodes, and joins the back of that edge's occupancy
    list; the other occupancy lists and vehicles are untouched and the
    [vehicles_spawned] statistic grows by one. *)
Theorem routable_spawn_creates_vehicle (self : TrafficSimulation) (now : Q)
    (vehicle_type : string) (orig dest : Q * Q) (draw_a draw_p : Q)
    (r0 r1 : Z) (rest : list Z) :
  find_route (network self) orig dest = r0 :: r1 :: rest ->
  next_vehicle_id self ∉ vehicles self ->
  let n := next_vehicle_id self in
  let e : Edge := (r0, r1, 0%Z) in
  let s' := _spawn_vehicle self now vehicle_type orig dest draw_a draw_p in
  next_vehicle_id s' = (n + 1)%nat /\
  vehicles s' = vehicles self ++ [n] /\
  (exists v, objs s' !! n = Some v /\ id v = n /\
     route v = r0 :: r1 :: rest /\ speed v = 0 /\ completed v = false /\
     current_edge v = Some e /\ position v = orig) /\
  (forall j, j <> n -> objs s' !! j = objs self !! j) /\
  occupancy (edge_vehicles s') e = occupancy (edge_vehicles self) e ++ [n] /\
  (forall e', e' <> e ->
     occupancy (edge_vehicles s') e' = occupancy (edge_vehicles self) e') /\
  vehicles_spawned (sim_stats s') = (vehicles_spawned (sim_stats self) + 1)%Z /\
  completed_vehicles s' = completed_vehicles self /\
  signals s' = signals self.
Proof.
  intros Hroute Hfresh n e s'. subst s'. unfold _spawn_vehicle.
  cbn [network set_next_vehicle_id next_vehicle_id]. rewrite Hroute.
  cbn [length Nat.ltb Nat.leb].
  pose proof (spawned_params_aux vehicle_type n now orig dest
                (r0 :: r1 :: rest) draw_a draw_p)
    as (Hid & Hrt & Hsp & Hco & Hpos).
  set (mv := make_vehicle vehicle_type n now orig dest (r0 :: r1 :: rest)
               draw_a draw_p) in *.
  cbn [set_sim_stats set_vehicles store set_objs set_edge_vehicles vehicles
       objs edge_vehicles next_vehicle_id set_next_vehicle_id sim_stats
       completed_vehicles signals vehicles_spawned].
  unfold dict_add_key. rewrite decide_False by exact Hfresh.
  split; [reflexivity |]. split; [reflexivity |]. split.
  { eexists. split; [apply lookup_insert_eq |].
    repeat split; assumption. }
  split; [intros j Hj; apply lookup_insert_ne; intros Heq; apply Hj;
          now rewrite <- Heq |].
  split; [apply occupancy_attach_eq |].
  split; [intros e' He'; apply occupancy_attach_ne; intros Heq; apply He';
          now rewrite <- Heq |].
  repeat split.
Qed.

(** X24.  Vehicles are conserved along a run: the [vehicles_spawned]
    statistic is the number of active vehicles plus the number of retired
    ones, and [vehicles_completed] is the number of retired ones. *)
Theorem vehicles_conserved (s : TrafficSimulation) :
  reachable s ->
  vehicles_spawned (sim_stats s)
    = Z.of_nat (length (vehicles s) + length (completed_vehicles s)) /\
  vehicles_completed (sim_stats s)
    = Z.of_nat (length (completed_vehicles s)).
Proof.
  intros H. apply (reachable_counts_ids s H).
Qed.

(** X25.  Along a run the active set stays in strictly ascending id order
    (the order in which a tick updates the vehicles), no vehicle is retired
    twice, none is both active and retired, and every id in use is below
    the id counter, so that ids are never reused. *)
Theorem ids_ascending_and_fresh (s : TrafficSimulation) :
  reachable s ->
  StronglySorted lt (vehicles s) /\
  NoDup (vehicles s ++ completed_vehicles s) /\
  (forall i, i ∈ vehicles s ++ completed_vehicles s ->
     (i < next_vehicle_id s)%nat).
Proof.
  intros H. destruct (reachable_counts_ids s H)
    as [_ (Hsort & Hnd & Hbound & Hdisj)].
  split; [exact Hsort |]. split.
  - apply NoDup_app. split; [now apply StronglySorted_lt_NoDup |].
    split; [| exact Hnd].
    intros i Hv Hc. now apply (Hdisj i).
  - intros i Hi. apply elem_of_app in Hi. now apply Hbound.
Qed.

(** X26.  A vehicle tick retires exactly the vehicles that were marked
    completed when the tick began, in dictionary order, without touching
    their objects; the vehicles that were not completed stay in the active
    set, in the same order, even when they complete during the tick. *)
Theorem tick_retires_completed (self s' : TrafficSimulation) :
  NoDup (vehicles self) ->
  _update_vehicles self = Ok s' ->
  vehicles s'
    = List.filter (fun i => negb (is_done self i)) (vehicles self) /\
  completed_vehicles s'
    = completed_vehicles self
      ++ List.filter (is_done self) (vehicles self) /\
  (forall i, is_done self i = true -> objs s' !! i = objs self !! i) /\
  next_vehicle_id s' = next_vehicle_id self.
Proof.
  intros Hnd Htick.
  destruct (tick_spec _ _ Hnd Htick) as (T1 & _ & T3 & _ & _ & _ & T7 & _).
  split; [now apply tick_vehicles_filter |].
  split; [exact T3 |]. split; [exact T7 | exact T1].
Qed.

(** X27.  Time accounting of a vehicle that is not completed (it has a
    route and an edge): a successful update adds exactly one time step to
    its elapsed time unless the update completes its route, in which case
    its statistics are left as they were; and its distance statistic is
    touched only when it moves on to the next edge of its route. *)
Theorem update_time_accounting (self s' : TrafficSimulation) (vid : nat)
    (v : Vehicle) :
  objs self !! vid = Some v ->
  completed v = false ->
  (2 <= length (route v))%nat ->
  current_edge v <> None ->
  _update_vehicle_position self vid = Ok s' ->
  exists v', objs s' !! vid = Some v' /\
    (if completed v'
     then stats v' = stats v
     else total_time (stats v')
          = total_time (stats v) + time_step self) /\
    (total_distance (stats v') = total_distance (stats v) \/
     exists u w key n,
       current_edge v = Some (u, w, key) /\
       next_on_route (route v) w = Some n /\
       current_edge v' = Some (w, n, 0%Z)).
Proof.
  intros Hv Hrun Hlen Hedge Hup.
  destruct (update_vehicle_cases _ _ _ Hup) as (v0 & Hv0 & Hcases).
  rewrite Hv in Hv0. inversion Hv0; subst v0; clear Hv0.
  destruct Hcases as [[Hearly _] | (_ & u & w & key & info & can & accel & Hc)].
  { destruct Hearly; [lia | contradiction]. }
  cbn zeta in Hc.
  destruct Hc as (Hcur & _ & _ & [[_ ->] | [_ [(n & pos & Hnext & _ & ->) | [_ ->]]]]);
    (eexists; split; [apply lookup_insert_eq |]).
  - change (completed (set_stats _ _)) with (completed v). rewrite Hrun.
    split; [reflexivity |]. left. reflexivity.
  - change (completed (update_position _ _ _)) with (completed v).
    rewrite Hrun. split; [reflexivity |].
    right. exists u, w, key, n. repeat split; assumption || reflexivity.
  - change (completed (set_completed _ true)) with true.
    split; [reflexivity |]. left. reflexivity.
Qed.

(** X28.  Along a run the completion rate reported by the analytics, the
    number of completed vehicles over [max(vehicles_spawned, 1)], lies
    between 0 and 1, and it is 1 as soon as a vehicle has been spawned and
    none is active. *)
Theorem completion_rate_unit_interval (s : TrafficSimulation) :
  reachable s ->
  0 <= completion_rate (sim_stats s) <= 1 /\
  (vehicles s = [] -> (1 <= vehicles_spawned (sim_stats s))%Z ->
   completion_rate (sim_stats s) == 1).
Proof.
  intros H. destruct (reachable_counts_ids s H) as [[Hsp Hco] _].
  unfold completion_rate. rewrite Hsp, Hco.
  set (a := length (vehicles s)). set (c := length (completed_vehicles s)).
  assert (Hc : 0 <= inject_Z (Z.of_nat c)).
  { change 0 with (inject_Z 0). rewrite <- Zle_Qle. lia. }
  destruct (Z.ltb_spec (Z.of_nat (a + c)) 1) as [Hlt | Hge].
  - assert (Hz : c = 0%nat) by lia. rewrite Hz.
    split; [| intros _ Hone; lia].
    change (inject_Z (Z.of_nat 0) / inject_Z 1) with (0 / 1).
    split; [apply Qle_shift_div_l | apply Qle_shift_div_r]; lra.
  - assert (Hpos : 0 < inject_Z (Z.of_nat (a + c))).
    { change 0 with (inject_Z 0). rewrite <- Zlt_Qlt. lia. }
    assert (Hle : inject_Z (Z.of_nat c) <= inject_Z (Z.of_nat (a + c))).
    { rewrite <- Zle_Qle. lia. }
    split.
    + split; [apply Qle_shift_div_l | apply Qle_shift_div_r]; try lra.
    + intros Hnil _. subst a. rewrite Hnil in *. cbn [length Nat.add] in *.
      field. lra.
Qed.

(** X29.  At every hour and on every day, [get_vehicle_mix] gives usable
    weights for the four vehicle types, in the order car, truck, bus,
    motorcycle: all shares are positive, they add up to 1 within [10^-9],
    and cars make up at least 79.99 % of the traffic.  (The car share of
    weekday nights, [1.0 - 0.15 - 0.03 - 0.02], is computed with three
    rounded subtractions and need not reach 0.8.) *)
Theorem vehicle_mix_is_distribution (fl : Q -> Q) (hour : Q)
    (day : DayOfWeek) :
  fl_relative_error fl ->
  let mix := get_vehicle_mix fl hour day in
  List.map fst mix = ["car"; "truck"; "bus"; "motorcycle"]%string /\
  Forall (fun kw => 0 < snd kw) mix /\
  (999999999 # 1000000000) <= sum_Q (List.map snd mix)
    <= (1000000001 # 1000000000) /\
  (forall w, mix !! 0%nat = Some ("car"%string, w) -> (7999 # 10000) <= w).
Proof.
  intros Herr.
  unfold get_vehicle_mix, get_traffic_demand.
  destruct (get_time_period hour), day;
    cbv beta iota zeta delta
      [truck_percentage bus_percentage fsub lit List.map fst snd sum_Q
       fold_right];
    (split; [reflexivity |];
     split; [repeat (apply List.Forall_cons;
                     [eapply pos_from_bounds; [bound fl Herr | closed_lt] |]);
             apply List.Forall_nil |];
     split; [eapply within_from_bounds; [bound fl Herr | closed_le | closed_le] |];
     intros w [= <-];
     eapply ge_from_bounds; [bound fl Herr | closed_le]).
Qed.

(** X30.  At every hour and on every day the spawn rate is positive, so
    the division [60.0 / spawn_rate] of the vehicle generator never raises,
    and the mean time between two spawns lies between 0.8999 s (weekday
    evening rush) and 45.0001 s (Sunday night). *)
Theorem inter_arrival_mean_bounds (fl : Q -> Q) (hour : Q)
    (day : DayOfWeek) :
  fl_relative_error fl ->
  0 < get_spawn_rate fl hour day /\
  exists m, inter_arrival_mean fl hour day = Ok m /\
            (8999 # 10000) <= m <= (450001 # 10000).
Proof.
  intros Herr.
  unfold inter_arrival_mean, get_spawn_rate, get_traffic_demand.
  destruct (get_time_period hour), day;
    cbv beta iota zeta delta
      [base_flow_rate get_demand_multiplier fdiv fmul lit];
    (split;
     [eapply pos_from_bounds; [bound fl Herr | closed_lt]
     | eapply (py_fdiv_within fl 60 _ _ _ _ _ Herr);
       [bound fl Herr | closed_lt | closed_le | closed_le | closed_le
       | closed_le]]).
Qed.

End Simulation.

(** * The statements at concrete inputs *)

(** ** Signals *)

(** The constructor accepts an empty phase list. *)
Lemma zero_phase_signal_accepted :
  is_ok (TrafficSignal_init 0 5 (0, 0) [] false 0) = true.
Proof. reflexivity. Qed.


(** A time step of 1000 s, one second before the end of a 60 s green. *)
Lemma update_single_transition_long_step :
  (current_phase_index late_green_signal
   < length (phases late_green_signal))%nat /\
  exists s', update late_green_signal 1000 = Ok s' /\
    ((current_state s' = current_state late_green_signal /\
      time_in_phase s' = time_in_phase late_green_signal + 1000)
     \/
     (current_state s' = succ_state (current_state late_green_signal) /\
      time_in_phase s' = 0)) /\
    current_state s' <> succ_state (succ_state (current_state late_green_signal)).
Proof.
  split; [cbn; lia |].
  apply (update_single_transition late_green_signal 1000). cbn. lia.
Defined.

(** ** Kinematics *)

(** A car at 10 m/s whose leader is at gap 0 accelerates. *)
Lemma zero_gap_does_not_brake :
  exists a,
    calculate_acceleration sqrt_approx car_at_10 (Some 0) (Some 0)
      (50 / (36 # 10)) = Ok (Some a) /\
    0 < a /\ ~ a == - max_deceleration car_at_10.
Proof.
  eexists. split; [vm_compute; reflexivity |].
  split; [reflexivity |]. intros H. vm_compute in H. discriminate.
Qed.

Lemma nonpositive_gap_is_ignored_car :
  0 <= 0 /\
  (calculate_acceleration sqrt_approx car_at_10 (Some 0) (Some 0)
     (50 / (36 # 10))
   = calculate_acceleration sqrt_approx car_at_10 None None (50 / (36 # 10)) /\
   calculate_acceleration sqrt_approx car_at_10 (Some 0) (Some 0)
     (50 / (36 # 10))
   = free_flow car_at_10 (50 / (36 # 10)) /\
   (50 / (36 # 10) == 0 /\ speed_is_numpy car_at_10 = false ->
    calculate_acceleration sqrt_approx car_at_10 (Some 0) (Some 0)
      (50 / (36 # 10)) = Raise ZeroDivisionError) /\
   (~ (50 / (36 # 10) == 0 /\ speed_is_numpy car_at_10 = false) ->
    exists a,
      calculate_acceleration sqrt_approx car_at_10 (Some 0) (Some 0)
        (50 / (36 # 10)) = Ok a)).
Proof.
  split; [apply Qle_refl |].
  apply (nonpositive_gap_is_ignored sqrt_approx car_at_10 0 0 (50 / (36 # 10))).
  apply Qle_refl.
Defined.

(** A bus at its class maximum of 25 m/s on a motorway edge: one tick of
    1 s takes it to about 25.27 m/s. *)
Lemma bus_exceeds_class_maximum :
  exists v s' v',
    objs bus_on_motorway !! 0%nat = Some v /\
    0 <= speed v /\ speed v <= max_speed v /\
    _update_vehicle_position sqrt_approx bus_on_motorway 0 = Ok s' /\
    objs s' !! 0%nat = Some v' /\
    max_speed v' < speed v'.
Proof.
  do 3 eexists.
  split; [vm_compute; reflexivity |].
  split; [vm_compute; discriminate |].
  split; [vm_compute; discriminate |].
  split; [vm_compute; reflexivity |].
  split; [vm_compute; reflexivity |].
  vm_compute. reflexivity.
Qed.

(** The first tick of a car spawned at rest: its speed becomes 1.875 m/s. *)
Lemma speed_nonnegative_after_update_car :
  exists v s',
    objs short_edge_sim !! 0%nat = Some v /\
    0 <= speed v /\
    _update_vehicle_position sqrt_approx short_edge_sim 0 = Ok s' /\
    exists v', objs s' !! 0%nat = Some v' /\
      0 <= speed v' /\
      ((2 <= length (route v))%nat -> current_edge v <> None ->
       speed v' = integrate_speed (speed v) (acceleration v')
                    (time_step short_edge_sim)).
Proof.
  assert (Hv : exists v, objs short_edge_sim !! 0%nat = Some v
                         /\ 0 <= speed v).
  { eexists. split; [vm_compute; reflexivity | vm_compute; discriminate]. }
  destruct Hv as (v & Hv & Hpos).
  assert (Hup : exists s',
            _update_vehicle_position sqrt_approx short_edge_sim 0 = Ok s').
  { eexists. vm_compute. reflexivity. }
  destruct Hup as (s' & Hup).
  exists v, s'. split; [exact Hv |]. split; [exact Hpos |].
  split; [exact Hup |].
  exact (speed_nonnegative_after_update sqrt_approx short_edge_sim s' 0 v
           Hv Hpos Hup).
Defined.

(** ** Edge transitions *)



(** ** Spawning *)

(** A spawn intent without path leaves the [vehicles_spawned] statistic
    at 0. *)
Lemma unroutable_spawn_not_counted :
  vehicles_spawned
    (sim_stats (_spawn_vehicle no_path_sim 0 "car" (0, 0) (6, 8)
                  (5 # 10) (5 # 10)))
  <> (vehicles_spawned (sim_stats no_path_sim) + 1)%Z.
Proof. vm_compute. discriminate. Qed.

Lemma unroutable_spawn_dropped_no_path :
  (length (find_route (network no_path_sim) (0, 0)%Q (6, 8)%Q) < 2)%nat /\
  let s' := _spawn_vehicle no_path_sim 0 "car" (0, 0) (6, 8)
              (5 # 10) (5 # 10) in
  s' = set_next_vehicle_id no_path_sim (next_vehicle_id no_path_sim + 1) /\
  next_vehicle_id s' = (next_vehicle_id no_path_sim + 1)%nat /\
  vehicles_spawned (sim_stats s') = vehicles_spawned (sim_stats no_path_sim) /\
  sim_stats s' = sim_stats no_path_sim /\
  vehicles s' = vehicles no_path_sim /\
  objs s' = objs no_path_sim /\
  edge_vehicles s' = edge_vehicles no_path_sim /\
  completed_vehicles s' = completed_vehicles no_path_sim.
Proof.
  split; [cbn; lia |].
  apply (unroutable_spawn_dropped no_path_sim 0 "car" (0, 0) (6, 8)
           (5 # 10) (5 # 10)).
  cbn. lia.
Defined.

(** ** Occupancy *)

(** A car completes a one-edge route in its first tick: at the end of the
    tick it is still in the active set, with its current edge, marked
    completed and on no occupancy list; the occupancy counts add up to 0
    and one active vehicle has a current edge. *)
Lemma completed_vehicle_off_its_edge :
  exists s' v,
    reachable sqrt_approx last_edge_sim /\
    _update_vehicles sqrt_approx last_edge_sim = Ok s' /\
    (0%nat ∈ vehicles s') /\
    objs s' !! 0%nat = Some v /\
    current_edge v = Some (0, 1, 0)%Z /\
    (0%nat ∉ occupancy (edge_vehicles s') (0, 1, 0)%Z) /\
    total_occupancy (edge_vehicles s') = 0%nat /\
    active_with_edge s' = 1%nat.
Proof.
  do 2 eexists.
  split; [apply reach_spawn, reach_new |].
  split; [vm_compute; reflexivity |].
  split; [vm_compute; apply elem_of_cons; now left |].
  split; [vm_compute; reflexivity |].
  split; [vm_compute; reflexivity |].
  split; [vm_compute; apply not_elem_of_nil |].
  split; vm_compute; reflexivity.
Qed.

(** The state after a spawn is a state of a run. *)
Lemma occupancy_consistent_after_spawn :
  reachable sqrt_approx tiny_edge_sim /\ occupancy_ok tiny_edge_sim.
Proof.
  assert (H : reachable sqrt_approx tiny_edge_sim)
    by apply reach_spawn, reach_new.
  split; [exact H |].
  exact (occupancy_consistent sqrt_approx tiny_edge_sim H).
Defined.

(** * The further properties at concrete inputs *)

(** ** Signals *)

Lemma update_keeps_configuration_standard :
  exists s', update standard_signal 1 = Ok s' /\
    sig_id s' = sig_id standard_signal /\
    node_id s' = node_id standard_signal /\
    sig_position s' = sig_position standard_signal /\
    phases s' = phases standard_signal /\
    coordinated s' = coordinated standard_signal /\
    offset s' = offset standard_signal /\
    cycle_length s' = cycle_length standard_signal /\
    vehicles_served s' = vehicles_served standard_signal /\
    total_delay s' = total_delay standard_signal /\
    (current_phase_index s' < length (phases s'))%nat.
Proof.
  assert (H : exists s', update standard_signal 1 = Ok s')
    by (eexists; vm_compute; reflexivity).
  destruct H as (s' & H). exists s'. split; [exact H |].
  exact (update_keeps_configuration standard_signal s' 1 H).
Defined.

(** The east approach during the north-south phase. *)
Lemma approach_outside_phase_is_red_east :
  let p := mkPhase "NS_Green" 60 ["north"; "south"]%string 3 in
  phases late_green_signal !! current_phase_index late_green_signal
    = Some p /\
  in_str "east" (green_approaches p) = false /\
  get_state_for_approach late_green_signal "east" = Ok RED /\
  is_green_for_approach late_green_signal "east" = Ok false /\
  can_vehicle_proceed late_green_signal "east" 10 10 = Ok false.
Proof.
  intros p. split; [reflexivity |]. split; [reflexivity |].
  apply (approach_outside_phase_is_red late_green_signal p "east" 10 10);
    reflexivity.
Defined.

Lemma yellow_rule_monotone_north :
  let p := mkPhase "NS_Green" 60 ["north"; "south"]%string 3 in
  phases yellow_signal !! current_phase_index yellow_signal = Some p /\
  in_str "north" (green_approaches p) = true /\
  current_state yellow_signal = YELLOW /\
  (forall d, 0 <= d ->
     can_vehicle_proceed yellow_signal "north" d 0 = Ok false) /\
  (forall d v d' v',
     can_vehicle_proceed yellow_signal "north" d v = Ok true ->
     d' <= d -> 0 <= v -> v <= v' ->
     can_vehicle_proceed yellow_signal "north" d' v' = Ok true).
Proof.
  intros p. split; [reflexivity |]. split; [reflexivity |].
  split; [reflexivity |].
  apply (yellow_rule_monotone yellow_signal p "north"); reflexivity.
Defined.

Lemma update_all_signals_pointwise_one :
  (forall k s, ({[ 5%Z := standard_signal ]} : gmap Z TrafficSignal) !! k
               = Some s ->
     (current_phase_index s < length (phases s))%nat) /\
  exists sigs',
    update_all_signals {[ 5%Z := standard_signal ]} 1 = Ok sigs' /\
    (forall k s, ({[ 5%Z := standard_signal ]} : gmap Z TrafficSignal) !! k
                 = Some s ->
       exists s', update s 1 = Ok s' /\ sigs' !! k = Some s') /\
    (forall k, ({[ 5%Z := standard_signal ]} : gmap Z TrafficSignal) !! k
               = None -> sigs' !! k = None).
Proof.
  assert (H : forall k s,
             ({[ 5%Z := standard_signal ]} : gmap Z TrafficSignal) !! k
             = Some s ->
             (current_phase_index s < length (phases s))%nat).
  { intros k s Hk. apply lookup_singleton_Some in Hk as [_ <-]. cbn. lia. }
  split; [exact H |].
  exact (update_all_signals_pointwise {[ 5%Z := standard_signal ]} 1 H).
Defined.

Lemma update_all_signals_zero_phase_one :
  ({[ 5%Z := zero_phase_signal ]} : gmap Z TrafficSignal) !! 5%Z
    = Some zero_phase_signal /\
  phases zero_phase_signal !! current_phase_index zero_phase_signal = None /\
  update_all_signals {[ 5%Z := zero_phase_signal ]} 1 = Raise IndexError.
Proof.
  split; [reflexivity |]. split; [reflexivity |].
  apply (update_all_signals_zero_phase {[ 5%Z := zero_phase_signal ]} 1 5%Z
           zero_phase_signal); reflexivity.
Defined.

(** Three nodes, two positions, 200 m apart at 10 m/s. *)
Lemma create_arterial_signals_offsets_two :
  ~ 10 == 0 /\
  exists sigs' l,
    create_arterial_signals ∅ [1; 2; 3]%Z [(0, 0); (200, 0)] 10 200
      = Ok (sigs', l) /\
    length l = Nat.min (length [1; 2; 3]%Z) (length [(0, 0); (200, 0)]) /\
    forall i s, l !! i = Some s ->
      sig_id s = Z.of_nat i /\
      [1; 2; 3]%Z !! i = Some (node_id s) /\
      [(0, 0); (200, 0)] !! i = Some (sig_position s) /\
      coordinated s = true /\
      offset s = inject_Z (Z.of_nat i) * 200 / 10.
Proof.
  assert (H : ~ 10 == 0) by (intros H; vm_compute in H; discriminate).
  split; [exact H |].
  exact (create_arterial_signals_offsets ∅ [1; 2; 3]%Z [(0, 0); (200, 0)]
           10 200 H).
Defined.

Lemma create_arterial_signals_zero_speed_two :
  0 == 0 /\
  create_arterial_signals ∅ [1; 2; 3]%Z [(0, 0); (200, 0)] 0 200
  = match zip [1; 2; 3]%Z [(0, 0); (200, 0)] with
    | [] => Ok (∅, [])
    | _ :: _ => Raise ZeroDivisionError
    end.
Proof.
  split; [reflexivity |].
  apply (create_arterial_signals_zero_speed ∅ [1; 2; 3]%Z
           [(0, 0); (200, 0)] 0 200).
  reflexivity.
Defined.

(** Two phases with critical ratios 0.3 and 0.2, 4 s lost per phase. *)
Lemma cycle_length_within_bounds_two_phases :
  exists c,
    calculate_cycle_length exact_rounding [3 # 10; 2 # 10] 4 (9 # 10)
      = Ok c /\
    60 <= c <= 180.
Proof.
  assert (H : exists c,
             calculate_cycle_length exact_rounding [3 # 10; 2 # 10] 4
               (9 # 10) = Ok c)
    by (eexists; vm_compute; reflexivity).
  destruct H as (c & H). exists c. split; [exact H |].
  exact (cycle_length_within_bounds exact_rounding [3 # 10; 2 # 10] 4
           (9 # 10) c H).
Defined.

(** Critical ratios 0.5 and 0.4 against a target of 0.9. *)
Lemma cycle_length_zero_division_at_target :
  fl_monotone exact_rounding /\ fl_exact_on_integers exact_rounding /\
  py_fsum exact_rounding [5 # 10; 4 # 10] == (9 # 10) /\
  ((9 # 10) == 0 \/ py_fsum exact_rounding [5 # 10; 4 # 10] == (9 # 10) ->
   calculate_cycle_length exact_rounding [5 # 10; 4 # 10] 4 (9 # 10)
   = Raise ZeroDivisionError) /\
  (forall e,
     calculate_cycle_length exact_rounding [5 # 10; 4 # 10] 4 (9 # 10)
       = Raise e ->
     e = ZeroDivisionError).
Proof.
  split; [exact exact_rounding_monotone |].
  split; [exact exact_rounding_integers |].
  split; [reflexivity |].
  exact (cycle_length_zero_division exact_rounding [5 # 10; 4 # 10] 4
           (9 # 10) exact_rounding_monotone exact_rounding_integers).
Defined.

Lemma cycle_length_oversaturated_two_phases :
  fl_monotone exact_rounding /\ fl_exact_on_integers exact_rounding /\
  0 < (9 # 10) /\ (9 # 10) < py_fsum exact_rounding [6 # 10; 5 # 10] /\
  0 <= 4 /\
  match calculate_cycle_length exact_rounding [6 # 10; 5 # 10] 4 (9 # 10)
  with
  | Ok c => c == 60
  | Raise e => e = ZeroDivisionError
  end.
Proof.
  assert (H1 : 0 < (9 # 10)) by reflexivity.
  assert (H2 : (9 # 10) < py_fsum exact_rounding [6 # 10; 5 # 10])
    by reflexivity.
  assert (H3 : 0 <= 4) by (vm_compute; discriminate).
  split; [exact exact_rounding_monotone |].
  split; [exact exact_rounding_integers |].
  split; [exact H1 |]. split; [exact H2 |]. split; [exact H3 |].
  exact (cycle_length_oversaturated exact_rounding [6 # 10; 5 # 10] 4
           (9 # 10) exact_rounding_monotone exact_rounding_integers
           H1 H2 H3).
Defined.

(** A 30 s cycle with 4 s lost per phase: the minor phase is raised to the
    minimum green. *)
Lemma split_green_time_minimum_two_phases :
  exists l,
    split_green_time exact_rounding 30 true [9 # 10; 1 # 10] 3 1 = Ok l /\
    let n := inject_Z (Z.of_nat (length [9 # 10; 1 # 10])) in
    let available :=
      fsub exact_rounding 30
        (fmul exact_rounding n (fadd exact_rounding 3 1)) in
    (~ py_fsum exact_rounding [9 # 10; 1 # 10] == 0 ->
     forall g, g ∈ l -> 7 <= g) /\
    (py_fsum exact_rounding [9 # 10; 1 # 10] == 0 ->
     forall g, g ∈ l -> g = fdiv exact_rounding available n).
Proof.
  assert (Hl : exists l,
             split_green_time exact_rounding 30 true [9 # 10; 1 # 10] 3 1
             = Ok l)
    by (eexists; vm_compute; reflexivity).
  destruct Hl as (l & Hl). exists l. split; [exact Hl |].
  exact (split_green_time_minimum exact_rounding 30 true [9 # 10; 1 # 10] l
           3 1 Hl).
Defined.

(** Signal placement on the three-node road. *)
Lemma setup_signals_ready_three_nodes :
  let self :=
    new_simulation 1 (two_edge_road 300 300 (50 / (36 # 10)) [0; 1; 2]%Z) ∅ in
  let graph_node_order := [0; 1; 2]%Z in
  signals self = ∅ /\
  (forall n, n ∈ graph_node_order ->
     is_Some (graph_nodes (network self) !! n)) /\
  exists sigs,
    _setup_signals self graph_node_order = Ok (set_signals self sigs) /\
    (size sigs <= 20)%nat /\
    (forall k sg, sigs !! k = Some sg ->
       k ∈ graph_node_order /\ node_id sg = k /\ current_state sg = RED /\
       current_phase_index sg = 0%nat /\ length (phases sg) = 2%nat) /\
    (forall n, head graph_node_order = Some n -> is_Some (sigs !! n)) /\
    (forall dt, exists sigs', update_all_signals sigs dt = Ok sigs').
Proof.
  intros self graph_node_order.
  assert (H1 : signals self = ∅) by reflexivity.
  assert (H2 : forall n, n ∈ graph_node_order ->
                 is_Some (graph_nodes (network self) !! n)).
  { intros n Hn. subst graph_node_order.
    repeat (apply elem_of_cons in Hn as [-> | Hn]);
      [eexists; reflexivity .. |].
    now apply not_elem_of_nil in Hn. }
  split; [exact H1 |]. split; [exact H2 |].
  exact (setup_signals_ready self graph_node_order H1 H2).
Defined.

(** ** Kinematics *)

Lemma acceleration_within_limits_car :
  - max_deceleration car_at_10 <= max_acceleration car_at_10 /\
  exists a,
    calculate_acceleration sqrt_approx car_at_10 (Some 20) (Some 5)
      (50 / (36 # 10)) = Ok (Some a) /\
    - max_deceleration car_at_10 <= a <= max_acceleration car_at_10.
Proof.
  assert (H : - max_deceleration car_at_10 <= max_acceleration car_at_10)
    by (vm_compute; discriminate).
  split; [exact H |].
  assert (Ha : exists a,
             calculate_acceleration sqrt_approx car_at_10 (Some 20) (Some 5)
               (50 / (36 # 10)) = Ok (Some a))
    by (eexists; vm_compute; reflexivity).
  destruct Ha as (a & Ha). exists a. split; [exact Ha |].
  exact (acceleration_within_limits sqrt_approx car_at_10 (Some 20) (Some 5)
           (50 / (36 # 10)) a H Ha).
Defined.

(** A car spawned at rest in front of a freshly built signal. *)
Lemma vehicle_at_rest_before_red_raises_car :
  exists v info sg,
    reachable sqrt_approx red_light_sim /\
    objs red_light_sim !! 0%nat = Some v /\
    current_edge v = Some (0, 1, 0)%Z /\
    speed v == 0 /\
    get_edge_info (network red_light_sim) 0 1 0 = Ok info /\
    signals red_light_sim !! 1%Z = Some sg /\
    can_vehicle_proceed sg "north" (edge_length info * (5 # 10)) (speed v)
      = Ok false /\
    _update_vehicle_position sqrt_approx red_light_sim 0
      = Raise ZeroDivisionError.
Proof.
  assert (Hr : reachable sqrt_approx red_light_sim)
    by apply reach_spawn, reach_new.
  assert (Hv : exists v, objs red_light_sim !! 0%nat = Some v /\
                 current_edge v = Some (0, 1, 0)%Z /\ speed v == 0).
  { eexists. split; [vm_compute; reflexivity |].
    split; [vm_compute; reflexivity | reflexivity]. }
  destruct Hv as (v & Hv & Hcur & Hrest).
  assert (Hi : exists info,
             get_edge_info (network red_light_sim) 0 1 0 = Ok info /\
             edge_length info = 300)
    by (eexists; split; vm_compute; reflexivity).
  destruct Hi as (info & Hi & Hlen).
  assert (Hs : exists sg, signals red_light_sim !! 1%Z = Some sg /\
             forall d x, can_vehicle_proceed sg "north" d x = Ok false).
  { eexists. split; [vm_compute; reflexivity |]. intros d x. reflexivity. }
  destruct Hs as (sg & Hs & Hcan).
  exists v, info, sg.
  split; [exact Hr |]. split; [exact Hv |]. split; [exact Hcur |].
  split; [exact Hrest |]. split; [exact Hi |]. split; [exact Hs |].
  split; [apply Hcan |].
  exact (vehicle_at_rest_before_red_raises sqrt_approx red_light_sim 0 v
           0 1 0 info sg Hr Hv Hcur Hrest Hi Hs (Hcan _ _)).
Defined.

Lemma moving_vehicle_brakes_at_zero_desired_speed_car :
  0 < speed car_at_10 /\ 0 == 0 /\ 0 < max_acceleration car_at_10 /\
  0 <= max_deceleration car_at_10 /\ - (1) < aggressiveness car_at_10 /\
  calculate_acceleration sqrt_approx car_at_10 (Some 20) (Some 5) 0
    = if speed_is_numpy car_at_10
      then Ok (Some (- max_deceleration car_at_10))
      else Raise ZeroDivisionError.
Proof.
  assert (H1 : 0 < speed car_at_10) by reflexivity.
  assert (H2 : 0 == 0) by reflexivity.
  assert (H3 : 0 < max_acceleration car_at_10) by reflexivity.
  assert (H4 : 0 <= max_deceleration car_at_10) by (vm_compute; discriminate).
  assert (H5 : - (1) < aggressiveness car_at_10) by reflexivity.
  repeat (split; [assumption |]).
  exact (moving_vehicle_brakes_at_zero_desired_speed sqrt_approx car_at_10
           (Some 20) (Some 5) 0 H1 H2 H3 H4 H5).
Defined.

Lemma free_flow_seeks_desired_speed_car :
  0 < 50 / (36 # 10) /\ 0 <= speed car_at_10 /\
  0 <= max_acceleration car_at_10 /\ 0 <= max_deceleration car_at_10 /\
  - (1) <= aggressiveness car_at_10 /\
  exists a,
    calculate_acceleration sqrt_approx car_at_10 None None (50 / (36 # 10))
      = Ok (Some a) /\
    (speed car_at_10 <= 50 / (36 # 10) -> 0 <= a) /\
    (50 / (36 # 10) <= speed car_at_10 -> a <= 0).
Proof.
  assert (H1 : 0 < 50 / (36 # 10)) by reflexivity.
  assert (H2 : 0 <= speed car_at_10) by (vm_compute; discriminate).
  assert (H3 : 0 <= max_acceleration car_at_10) by (vm_compute; discriminate).
  assert (H4 : 0 <= max_deceleration car_at_10) by (vm_compute; discriminate).
  assert (H5 : - (1) <= aggressiveness car_at_10)
    by (vm_compute; discriminate).
  repeat (split; [assumption |]).
  exact (free_flow_seeks_desired_speed sqrt_approx car_at_10 (50 / (36 # 10))
           H1 H2 H3 H4 H5).
Defined.

Lemma leader_never_increases_acceleration_car :
  ~ 50 / (36 # 10) == 0 /\ 0 <= max_acceleration car_at_10 /\
  - (1) <= aggressiveness car_at_10 /\
  exists a0,
    calculate_acceleration sqrt_approx car_at_10 None None (50 / (36 # 10))
      = Ok (Some a0) /\
    forall a1,
      calculate_acceleration sqrt_approx car_at_10 (Some 20) (Some 5)
        (50 / (36 # 10)) = Ok (Some a1) ->
      a1 <= a0.
Proof.
  assert (H1 : ~ 50 / (36 # 10) == 0)
    by (intros H; vm_compute in H; discriminate).
  assert (H2 : 0 <= max_acceleration car_at_10) by (vm_compute; discriminate).
  assert (H3 : - (1) <= aggressiveness car_at_10)
    by (vm_compute; discriminate).
  split; [exact H1 |]. split; [exact H2 |]. split; [exact H3 |].
  exact (leader_never_increases_acceleration sqrt_approx car_at_10 20 5
           (50 / (36 # 10)) H1 H2 H3).
Defined.

(** A safe target lane that is slower than the current one. *)
Lemma lane_change_needs_safe_faster_lane_car :
  politeness car_at_10 <= 1 /\ - (1) <= aggressiveness car_at_10 /\
  (true = false \/ 8 <= 10) /\
  should_change_lane car_at_10 10 8 true = false.
Proof.
  assert (H1 : politeness car_at_10 <= 1) by (vm_compute; discriminate).
  assert (H2 : - (1) <= aggressiveness car_at_10)
    by (vm_compute; discriminate).
  assert (H3 : true = false \/ 8 <= 10)
    by (right; vm_compute; discriminate).
  split; [exact H1 |]. split; [exact H2 |]. split; [exact H3 |].
  exact (lane_change_needs_safe_faster_lane car_at_10 10 8 true H1 H2 H3).
Defined.

(** ** Runs *)

(** The first spawn on the three-node road. *)
Lemma routable_spawn_creates_vehicle_first :
  let self :=
    new_simulation 1 (two_edge_road 10 300 (50 / (36 # 10)) [0; 1; 2]%Z) ∅ in
  find_route (network self) (0, 0)%Q (6, 8)%Q = [0; 1; 2]%Z /\
  (next_vehicle_id self ∉ vehicles self) /\
  let n := next_vehicle_id self in
  let e : Edge := (0, 1, 0)%Z in
  let s' := _spawn_vehicle self 0 "car" (0, 0) (6, 8) (5 # 10) (5 # 10) in
  next_vehicle_id s' = (n + 1)%nat /\
  vehicles s' = vehicles self ++ [n] /\
  (exists v, objs s' !! n = Some v /\ id v = n /\
     route v = [0; 1; 2]%Z /\ speed v = 0 /\ completed v = false /\
     current_edge v = Some e /\ position v = (0, 0)%Q) /\
  (forall j, j <> n -> objs s' !! j = objs self !! j) /\
  occupancy (edge_vehicles s') e = occupancy (edge_vehicles self) e ++ [n] /\
  (forall e', e' <> e ->
     occupancy (edge_vehicles s') e' = occupancy (edge_vehicles self) e') /\
  vehicles_spawned (sim_stats s') = (vehicles_spawned (sim_stats self) + 1)%Z /\
  completed_vehicles s' = completed_vehicles self /\
  signals s' = signals self.
Proof.
  intros self.
  assert (H1 : find_route (network self) (0, 0)%Q (6, 8)%Q = [0; 1; 2]%Z)
    by reflexivity.
  assert (H2 : next_vehicle_id self ∉ vehicles self)
    by apply not_elem_of_nil.
  split; [exact H1 |]. split; [exact H2 |].
  exact (routable_spawn_creates_vehicle self 0 "car" (0, 0) (6, 8)
           (5 # 10) (5 # 10) 0 1 [2]%Z H1 H2).
Defined.

Lemma vehicles_conserved_after_spawn :
  reachable sqrt_approx tiny_edge_sim /\
  vehicles_spawned (sim_stats tiny_edge_sim)
    = Z.of_nat (length (vehicles tiny_edge_sim)
                + length (completed_vehicles tiny_edge_sim)) /\
  vehicles_completed (sim_stats tiny_edge_sim)
    = Z.of_nat (length (completed_vehicles tiny_edge_sim)).
Proof.
  assert (H : reachable sqrt_approx tiny_edge_sim)
    by apply reach_spawn, reach_new.
  split; [exact H |].
  exact (vehicles_conserved sqrt_approx tiny_edge_sim H).
Defined.

Lemma ids_ascending_and_fresh_after_spawns :
  let s := _spawn_vehicle short_edge_sim 5 "bus" (0, 0) (6, 8)
             (3 # 10) (7 # 10) in
  reachable sqrt_approx s /\
  StronglySorted lt (vehicles s) /\
  NoDup (vehicles s ++ completed_vehicles s) /\
  (forall i, i ∈ vehicles s ++ completed_vehicles s ->
     (i < next_vehicle_id s)%nat).
Proof.
  intros s.
  assert (H : reachable sqrt_approx s)
    by apply reach_spawn, reach_spawn, reach_new.
  split; [exact H |].
  exact (ids_ascending_and_fresh sqrt_approx s H).
Defined.

(** A car completes its one-edge route in a first tick and is retired by
    the second. *)
Lemma tick_retires_completed_car :
  exists s1 s2,
    _update_vehicles sqrt_approx last_edge_sim = Ok s1 /\
    NoDup (vehicles s1) /\
    _update_vehicles sqrt_approx s1 = Ok s2 /\
    vehicles s2
      = List.filter (fun i => negb (is_done s1 i)) (vehicles s1) /\
    completed_vehicles s2
      = completed_vehicles s1 ++ List.filter (is_done s1) (vehicles s1) /\
    (forall i, is_done s1 i = true -> objs s2 !! i = objs s1 !! i) /\
    next_vehicle_id s2 = next_vehicle_id s1.
Proof.
  assert (H1 : exists s1,
             _update_vehicles sqrt_approx last_edge_sim = Ok s1 /\
             vehicles s1 = [0%nat] /\
             exists s2, _update_vehicles sqrt_approx s1 = Ok s2).
  { eexists. split; [vm_compute; reflexivity |].
    split; [vm_compute; reflexivity |].
    eexists. vm_compute. reflexivity. }
  destruct H1 as (s1 & H1 & Hveh & s2 & H2).
  assert (Hnd : NoDup (vehicles s1))
    by (rewrite Hveh; apply NoDup_singleton).
  exists s1, s2. split; [exact H1 |]. split; [exact Hnd |].
  split; [exact H2 |].
  exact (tick_retires_completed sqrt_approx s1 s2 Hnd H2).
Defined.

(** The first update of a car spawned on a 10 m edge. *)
Lemma update_time_accounting_car :
  exists v s',
    objs short_edge_sim !! 0%nat = Some v /\
    completed v = false /\
    (2 <= length (route v))%nat /\
    current_edge v <> None /\
    _update_vehicle_position sqrt_approx short_edge_sim 0 = Ok s' /\
    exists v', objs s' !! 0%nat = Some v' /\
      (if completed v'
       then stats v' = stats v
       else total_time (stats v')
            = total_time (stats v) + time_step short_edge_sim) /\
      (total_distance (stats v') = total_distance (stats v) \/
       exists u w key n,
         current_edge v = Some (u, w, key) /\
         next_on_route (route v) w = Some n /\
         current_edge v' = Some (w, n, 0%Z)).
Proof.
  assert (Hv : exists v, objs short_edge_sim !! 0%nat = Some v /\
                 completed v = false /\ (2 <= length (route v))%nat /\
                 current_edge v <> None).
  { eexists. split; [vm_compute; reflexivity |].
    split; [reflexivity |]. split; [vm_compute; lia | discriminate]. }
  destruct Hv as (v & Hv & Hrun & Hlen & Hedge).
  assert (Hup : exists s',
            _update_vehicle_position sqrt_approx short_edge_sim 0 = Ok s')
    by (eexists; vm_compute; reflexivity).
  destruct Hup as (s' & Hup).
  exists v, s'. repeat (split; [assumption |]).
  exact (update_time_accounting sqrt_approx short_edge_sim s' 0 v
           Hv Hrun Hlen Hedge Hup).
Defined.

(** ** Analytics *)

Lemma completion_rate_unit_interval_after_spawn :
  reachable sqrt_approx short_edge_sim /\
  0 <= completion_rate (sim_stats short_edge_sim) <= 1 /\
  (vehicles short_edge_sim = [] ->
   (1 <= vehicles_spawned (sim_stats short_edge_sim))%Z ->
   completion_rate (sim_stats short_edge_sim) == 1).
Proof.
  assert (H : reachable sqrt_approx short_edge_sim)
    by apply reach_spawn, reach_new.
  split; [exact H |].
  exact (completion_rate_unit_interval sqrt_approx short_edge_sim H).
Defined.

(** ** Demand patterns *)

(** The morning rush of a weekday. *)
Lemma vehicle_mix_is_distribution_morning_rush :
  fl_relative_error exact_rounding /\
  let mix := get_vehicle_mix exact_rounding 8 WEEKDAY in
  List.map fst mix = ["car"; "truck"; "bus"; "motorcycle"]%string /\
  Forall (fun kw => 0 < snd kw) mix /\
  (999999999 # 1000000000) <= sum_Q (List.map snd mix)
    <= (1000000001 # 1000000000) /\
  (forall w, mix !! 0%nat = Some ("car"%string, w) -> (7999 # 10000) <= w).
Proof.
  split; [exact exact_rounding_error |].
  exact (vehicle_mix_is_distribution exact_rounding 8 WEEKDAY
           exact_rounding_error).
Defined.

(** The evening rush of a weekday. *)
Lemma inter_arrival_mean_bounds_evening_rush :
  fl_relative_error exact_rounding /\
  0 < get_spawn_rate exact_rounding 17 WEEKDAY /\
  exists m, inter_arrival_mean exact_rounding 17 WEEKDAY = Ok m /\
            (8999 # 10000) <= m <= (450001 # 10000).
Proof.
  split; [exact exact_rounding_error |].
  exact (inter_arrival_mean_bounds exact_rounding 17 WEEKDAY
           exact_rounding_error).
Defined.
